(** * jcp: model adapters, tool wrapping and meeting cancellation

    A shallow embedding of the Go sources of the gateway core:
    - [internal/adk/anthropic] (request conversion, SSE stream processing),
    - the OpenAI Responses stream processor,
    - [internal/adk/mcp] (prefixed tools, toolset manager),
    - the model factory's base-URL normalisation and system-role probe,
    - the meeting cancellation registry, the AI configuration lookup and the
      MCP server list operations of [app.go],
    - the market status and the tools description of
      [internal/adk/expert_builder.go].

    Go values are modelled as follows: [int]/[int32] as [Z] (a conversion
    to [int32] wraps around, see [int32]), [string] as [string], a body read
    through [io.LimitReader] as its first bytes ([ReadAll_LimitReader]),
    slices as [list], [map[K]V] as [gmap K V], pointers that may be
    nil as [option], [(T, error)] results as [result T].  Library calls whose
    behaviour is outside the repository (JSON encoding and decoding, the HTTP
    transport) are fields of type classes, so every statement holds for any
    behaviour of those libraries. *)

From Stdlib Require Import ZArith Bool.
From stdpp Require Import base tactics option list strings pretty gmap fin_maps sorting.

Set Warnings "-register-all,-clear-no-such-hyp".

Local Open Scope Z_scope.

(** ** Go errors and results *)

Inductive error : Type :=
  | ErrNew (msg : string)                        (* errors.New, fmt.Errorf without %w *)
  | ErrWrap (msg : string) (cause : error)       (* fmt.Errorf(msg + ": %w", cause) *)
  | ErrHTTP (msg : string) (status : Z) (body : string)
  | ErrContextCanceled                           (* context.Canceled *)
  | ErrStopIteration.                            (* the sentinel errStopIteration *)

(** [errors.Is(err, context.Canceled)]: follows the [%w] chain. *)
Fixpoint errors_Is_Canceled (e : error) : bool :=
  match e with
  | ErrContextCanceled => true
  | ErrWrap _ cause => errors_Is_Canceled cause
  | _ => false
  end.

(** [errors.Is(err, errStopIteration)]. *)
Fixpoint errors_Is_Stop (e : error) : bool :=
  match e with
  | ErrStopIteration => true
  | ErrWrap _ cause => errors_Is_Stop cause
  | _ => false
  end.

Inductive result (A : Type) : Type :=
  | Ok (a : A)
  | Err (e : error).
Arguments Ok {A} a.
Arguments Err {A} e.

Definition rbind {A B} (r : result A) (k : A → result B) : result B :=
  match r with
  | Ok a => k a
  | Err e => Err e
  end.

Definition wrapErr {A} (msg : string) (r : result A) : result A :=
  match r with
  | Ok a => Ok a
  | Err e => Err (ErrWrap msg e)
  end.

Notation "'let?' x ':=' r 'in' k" := (rbind r (λ x, k))
  (at level 10, x name, r at level 100, k at level 200, only parsing).

Definition is_ok {A} (r : result A) : bool :=
  match r with Ok _ => true | Err _ => false end.

(** The conversion [int32(x)] of a Go [int]: the low 32 bits, as a signed
    number. *)
Definition int32 (x : Z) : Z := (x + 2 ^ 31) mod 2 ^ 32 - 2 ^ 31.

(** ** The [strings] package *)

Module strings.

(** [strings.CutPrefix(s, prefix)]. *)
Fixpoint CutPrefix (s prefix : string) {struct prefix} : option string :=
  match prefix with
  | EmptyString => Some s
  | String c prefix' =>
      match s with
      | EmptyString => None
      | String d s' => if decide (c = d) then CutPrefix s' prefix' else None
      end
  end.

Arguments CutPrefix : simpl never.

Definition HasPrefix (s prefix : string) : bool :=
  match CutPrefix s prefix with Some _ => true | None => false end.

(** [strings.Contains(s, substr)]. *)
Fixpoint Contains (s substr : string) : bool :=
  HasPrefix s substr ||
  match s with
  | EmptyString => false
  | String _ s' => Contains s' substr
  end.

(** [strings.Join(elems, sep)]. *)
Fixpoint Join (elems : list string) (sep : string) : string :=
  match elems with
  | [] => ""
  | [e] => e
  | e :: rest => e +:+ sep +:+ Join rest sep
  end.

Fixpoint inCutset (c : Ascii.ascii) (cutset : string) : bool :=
  match cutset with
  | EmptyString => false
  | String d cutset' => bool_decide (c = d) || inCutset c cutset'
  end.

Fixpoint TrimLeft (s cutset : string) : string :=
  match s with
  | EmptyString => EmptyString
  | String c s' => if inCutset c cutset then TrimLeft s' cutset else s
  end.

(** [strings.TrimRight(s, cutset)], for cutsets of one-byte characters. *)
Definition TrimRight (s cutset : string) : string :=
  String.rev (TrimLeft (String.rev s) cutset).

Definition HasSuffix (s suffix : string) : bool :=
  HasPrefix (String.rev s) (String.rev suffix).

Definition TrimSuffix (s suffix : string) : string :=
  match CutPrefix (String.rev s) (String.rev suffix) with
  | Some r => String.rev r
  | None => s
  end.

End strings.

(** ** [google.golang.org/genai] data *)

(** A Go value of interface type [any], as far as JSON can see it;
    [AnyOpaque] stands for values [encoding/json] cannot encode. *)
Inductive any : Type :=
  | AnyNil
  | AnyBool (b : bool)
  | AnyNumber (z : Z)
  | AnyString (s : string)
  | AnySlice (l : list any)
  | AnyMap (m : list (string * any))
  | AnyOpaque (tag : string).

(** [map[string]any]: only emptiness and identity of argument maps matter
    here, so the map is kept as its list of entries. *)
Definition Args : Type := list (string * any).
Definition emptyArgs : Args := [].

Module genai.

Record FunctionCall : Type := mkFunctionCall {
  fc_ID : string;
  fc_Name : string;
  fc_Args : Args
}.

Record FunctionResponse : Type := mkFunctionResponse {
  fr_ID : string;
  fr_Name : string;
  fr_Response : any
}.

Record Part : Type := mkPart {
  Text : string;
  Thought : bool;
  FunctionCall_ : option FunctionCall;
  FunctionResponse_ : option FunctionResponse
}.

Record Content : Type := mkContent {
  Role : string;
  Parts : list Part
}.

Definition TextPart (t : string) : Part := mkPart t false None None.
Definition ThoughtPart (t : string) : Part := mkPart t true None None.
Definition CallPart (fc : FunctionCall) : Part := mkPart "" false (Some fc) None.

Inductive FinishReason : Type :=
  | FinishReasonUnset              (* the zero value of the string type *)
  | FinishReasonUnspecified
  | FinishReasonStop
  | FinishReasonMaxTokens.

Record UsageMetadata : Type := mkUsageMetadata {
  PromptTokenCount : Z;
  CandidatesTokenCount : Z;
  TotalTokenCount : Z
}.

Record FunctionDeclaration : Type := mkFunctionDeclaration {
  fd_Name : string;
  fd_Description : string;
  fd_Parameters : option any;
  fd_ParametersJsonSchema : option any;
  fd_ResponseJsonSchema : option any
}.

(** [genai.Tool], reduced to its function declarations. *)
Record Tool : Type := mkTool {
  FunctionDeclarations : list FunctionDeclaration
}.

Record GenerateContentConfig : Type := mkGenerateContentConfig {
  SystemInstruction : option Content;
  Temperature : option Z;       (* *float32, kept opaque as its bits *)
  TopP : option Z;
  MaxOutputTokens : Z;          (* int32 *)
  StopSequences : list string;
  Tools : list (option Tool)
}.

End genai.

(** ** [google.golang.org/adk/model] data *)

Module model.

Record LLMRequest : Type := mkLLMRequest {
  Contents : list (option genai.Content);
  Config : option genai.GenerateContentConfig
}.

Record LLMResponse : Type := mkLLMResponse {
  Content : genai.Content;
  UsageMetadata : option genai.UsageMetadata;
  FinishReason : genai.FinishReason;
  Partial : bool;
  TurnComplete : bool
}.

End model.

(** An element of an [iter.Seq2[*model.LLMResponse, error]]: what one call
    of [yield] passes to the consumer. *)
Inductive yielded : Type :=
  | YResp (r : model.LLMResponse)
  | YErr (e : error).

(** The consumer of the sequence.  [yield] returns [false] when the loop
    body of the consumer breaks; the decision may depend on everything
    yielded so far. *)
Definition consumer : Type := list yielded → bool.

(** The consumer that never breaks out of its loop. *)
Definition drain : consumer := λ _, true.

(** ** [encoding/json] *)

(** [json.Marshal] of a Go value and [json.Unmarshal] into a
    [map[string]any].  Both are library code; they are left abstract. *)
Class JSON : Type := {
  json_Marshal : any → result string;
  json_Unmarshal_Args : string → result Args
}.

(** ** [net/http] responses *)

(** What an adapter observes of an HTTP response: the status, the result of
    [io.ReadAll] on the body (bytes read and the read error, if any), and the
    body as [bufio.Scanner] delivers it: the lines scanned before [Scan]
    returns false, and [scanner.Err()]. *)
Record HTTPResponse : Type := mkHTTPResponse {
  StatusCode : Z;
  body_ReadAll : string * option error;
  body_Lines : list string;
  body_ScanErr : option error
}.

(** The first [n] bytes of a string. *)
Fixpoint takeBytes (n : N) (s : string) : string :=
  match s with
  | EmptyString => EmptyString
  | String c s' => if decide (n = 0%N) then EmptyString else String c (takeBytes (N.pred n) s')
  end.

(** [io.ReadAll(io.LimitReader(resp.Body, n))]: at most [n] bytes are read,
    and a read error is met only when it strikes before the limit. *)
Definition ReadAll_LimitReader (n : N) (resp : HTTPResponse) : string * option error :=
  if decide (n ≤ N.of_nat (String.length (body_ReadAll resp).1))%N
  then (takeBytes n (body_ReadAll resp).1, None)
  else body_ReadAll resp.

(** * The Anthropic adapter *)

Module anthropic.

(** *** types.go *)

Record ContentBlock : Type := mkContentBlock {
  cb_Type : string;            (* text / image / tool_use / tool_result / thinking *)
  cb_Text : string;
  cb_Thinking : string;
  cb_ID : string;
  cb_Name : string;
  cb_Input : string;           (* json.RawMessage *)
  cb_ToolUseID : string;
  cb_RawContent : string;      (* json.RawMessage *)
  cb_IsError : bool
}.

Record Message : Type := mkMessage {
  msg_Role : string;           (* user / assistant *)
  msg_Content : list ContentBlock
}.

Record Tool : Type := mkTool {
  tool_Name : string;
  tool_Description : string;
  tool_InputSchema : string
}.

Record MessagesRequest : Type := mkMessagesRequest {
  req_Model : string;
  req_Messages : list Message;
  req_System : string;
  req_MaxTokens : Z;
  req_Temperature : option Z;
  req_TopP : option Z;
  req_Stream : bool;
  req_Tools : list Tool;
  req_StopSequences : list string
}.

Record Usage : Type := mkUsage {
  InputTokens : Z;
  OutputTokens : Z
}.

Record MessagesResponse : Type := mkMessagesResponse {
  resp_ID : string;
  resp_Role : string;
  resp_Content : list ContentBlock;
  resp_StopReason : string;
  resp_Usage : Usage
}.

Record SSEMessageStart : Type := mkSSEMessageStart {
  ms_Message : MessagesResponse
}.

Record SSEContentBlockStart : Type := mkSSEContentBlockStart {
  cbs_Index : Z;
  cbs_ContentBlock : ContentBlock
}.

Record Delta : Type := mkDelta {
  d_Type : string;             (* text_delta / input_json_delta / thinking_delta *)
  d_Text : string;
  d_Thinking : string;
  d_PartialJSON : string
}.

Record SSEContentBlockDelta : Type := mkSSEContentBlockDelta {
  cbd_Index : Z;
  cbd_Delta : Delta
}.

Record SSEMessageDelta : Type := mkSSEMessageDelta {
  md_StopReason : string;      (* Delta.StopReason *)
  md_Usage : option Usage
}.

Record SSEError : Type := mkSSEError {
  err_Type : string;           (* Error.Type *)
  err_Message : string         (* Error.Message *)
}.

(** [json.Unmarshal] into each of the wire structs. *)
Class Wire : Type := {
  Unmarshal_MessagesResponse : string → result MessagesResponse;
  Unmarshal_SSEMessageStart : string → result SSEMessageStart;
  Unmarshal_SSEContentBlockStart : string → result SSEContentBlockStart;
  Unmarshal_SSEContentBlockDelta : string → result SSEContentBlockDelta;
  Unmarshal_SSEMessageDelta : string → result SSEMessageDelta;
  Unmarshal_SSEError : string → result SSEError
}.

(** *** The request and response converters *)

Definition textBlock (t : string) : ContentBlock :=
  mkContentBlock "text" t "" "" "" "" "" "" false.
Definition toolUseBlock (id name input : string) : ContentBlock :=
  mkContentBlock "tool_use" "" "" id name input "" "" false.
Definition toolResultBlock (toolUseID raw : string) : ContentBlock :=
  mkContentBlock "tool_result" "" "" "" "" "" toolUseID raw false.

Section convert.
Context {json : JSON}.

Definition toToolResultContent (resp : any) : result string :=
  match resp with
  | AnyString s => json_Marshal (AnyString s)
  | _ =>
      let? b := json_Marshal resp in
      json_Marshal (AnyString b)
  end.

Definition extractTextFromContent (content : option genai.Content) : string :=
  match content with
  | None => ""
  | Some c =>
      strings.Join
        (genai.Text <$>
           filter (λ part, genai.Text part ≠ "" ∧ genai.Thought part = false)
                  (genai.Parts c))
        (String (Ascii.ascii_of_nat 10) "")
  end.

(** The body of the loop over [content.Parts]: the blocks one part adds. *)
Definition partBlocks (part : genai.Part) : result (list ContentBlock) :=
  if genai.Thought part then Ok []
  else
    let b1 := if decide (genai.Text part ≠ "")
              then [textBlock (genai.Text part)] else [] in
    let? b2 :=
      match genai.FunctionCall_ part with
      | Some fc =>
          let? inputJSON :=
            wrapErr "marshal function call args"
                    (json_Marshal (AnyMap (genai.fc_Args fc))) in
          Ok [toolUseBlock (genai.fc_ID fc) (genai.fc_Name fc) inputJSON]
      | None => Ok []
      end in
    let? b3 :=
      match genai.FunctionResponse_ part with
      | Some fr =>
          let? contentJSON :=
            wrapErr "marshal function response"
                    (toToolResultContent (genai.fr_Response fr)) in
          Ok [toolResultBlock (genai.fr_ID fr) contentJSON]
      | None => Ok []
      end in
    Ok (b1 ++ b2 ++ b3).

Fixpoint partsBlocks (parts : list genai.Part) (blocks : list ContentBlock)
  : result (list ContentBlock) :=
  match parts with
  | [] => Ok blocks
  | part :: rest =>
      let? bs := partBlocks part in
      partsBlocks rest (blocks ++ bs)
  end.

(** The tail of the loop body: merge into the last message when it has
    the same role, else append a new message. *)
Definition appendOrMerge (msgs : list Message) (role : string)
    (blocks : list ContentBlock) : list Message :=
  match msgs !! (length msgs - 1)%nat with
  | Some lastMsg =>
      if decide (0 < length msgs ∧ msg_Role lastMsg = role)%nat
      then <[(length msgs - 1)%nat :=
               mkMessage (msg_Role lastMsg) (msg_Content lastMsg ++ blocks)]> msgs
      else msgs ++ [mkMessage role blocks]
  | None => msgs ++ [mkMessage role blocks]
  end.

Definition roleOf (content : genai.Content) : string :=
  if decide (genai.Role content = "model") then "assistant" else "user".

Fixpoint toAnthropicMessages_from (msgs : list Message)
    (contents : list (option genai.Content)) : result (list Message) :=
  match contents with
  | [] => Ok msgs
  | None :: rest => toAnthropicMessages_from msgs rest
  | Some content :: rest =>
      let role := roleOf content in
      let? blocks := partsBlocks (genai.Parts content) [] in
      if decide (length blocks = 0%nat)
      then toAnthropicMessages_from msgs rest
      else toAnthropicMessages_from (appendOrMerge msgs role blocks) rest
  end.

Definition toAnthropicMessages (contents : list (option genai.Content))
  : result (list Message) :=
  toAnthropicMessages_from [] contents.

(** The body of the inner loop of [convertTools].  [schema = fd.Parameters]
    stores a [*genai.Schema] in a variable of interface type: the interface
    value is non-nil even when the pointer is nil, so the second nil test
    never succeeds and a nil pointer is encoded as it is. *)
Definition declTools (fd : genai.FunctionDeclaration) : result Tool :=
  let schema := match genai.fd_ParametersJsonSchema fd with
                | Some s => Some s
                | None => Some (match genai.fd_Parameters fd with
                                | Some p => p
                                | None => AnyNil
                                end)
                end in
  match schema with
  | None => Err (ErrNew ("parameters is nil for tool " +:+ genai.fd_Name fd))
  | Some sch =>
      let? schemaJSON := wrapErr "marshal tool schema" (json_Marshal sch) in
      Ok (mkTool (genai.fd_Name fd) (genai.fd_Description fd) schemaJSON)
  end.

Fixpoint declsTools (fds : list genai.FunctionDeclaration) (tools : list Tool)
  : result (list Tool) :=
  match fds with
  | [] => Ok tools
  | fd :: rest =>
      let? t := declTools fd in
      declsTools rest (tools ++ [t])
  end.

Fixpoint convertTools_from (tools : list Tool)
    (genaiTools : list (option genai.Tool)) : result (list Tool) :=
  match genaiTools with
  | [] => Ok tools
  | None :: rest => convertTools_from tools rest
  | Some gt :: rest =>
      let? tools' := declsTools (genai.FunctionDeclarations gt) tools in
      convertTools_from tools' rest
  end.

Definition convertTools (genaiTools : list (option genai.Tool)) : result (list Tool) :=
  convertTools_from [] genaiTools.

Definition toAnthropicRequest (req : model.LLMRequest) (modelName : string)
  : result MessagesRequest :=
  let maxTokens0 := 4096 in
  let system :=
    match model.Config req with
    | Some cfg =>
        match genai.SystemInstruction cfg with
        | Some si => extractTextFromContent (Some si)
        | None => ""
        end
    | None => ""
    end in
  let? msgs := toAnthropicMessages (model.Contents req) in
  let? tools :=
    match model.Config req with
    | Some cfg =>
        if decide (0 < length (genai.Tools cfg))%nat
        then convertTools (genai.Tools cfg)
        else Ok []
    | None => Ok []
    end in
  match model.Config req with
  | Some cfg =>
      Ok {| req_Model := modelName;
            req_Messages := msgs;
            req_System := system;
            req_MaxTokens := if decide (0 < genai.MaxOutputTokens cfg)
                             then genai.MaxOutputTokens cfg else maxTokens0;
            req_Temperature := genai.Temperature cfg;
            req_TopP := genai.TopP cfg;
            req_Stream := false;
            req_Tools := tools;
            req_StopSequences := if decide (0 < length (genai.StopSequences cfg))%nat
                                 then genai.StopSequences cfg else [] |}
  | None =>
      Ok {| req_Model := modelName;
            req_Messages := msgs;
            req_System := system;
            req_MaxTokens := maxTokens0;
            req_Temperature := None;
            req_TopP := None;
            req_Stream := false;
            req_Tools := tools;
            req_StopSequences := [] |}
  end.

Definition convertUsage (u : option Usage) : option genai.UsageMetadata :=
  match u with
  | None => None
  | Some u =>
      Some (genai.mkUsageMetadata (int32 (InputTokens u)) (int32 (OutputTokens u))
                                  (int32 (InputTokens u + OutputTokens u)))
  end.

Definition convertStopReason (reason : string) : genai.FinishReason :=
  if decide (reason = "end_turn" ∨ reason = "stop_sequence") then genai.FinishReasonStop
  else if decide (reason = "max_tokens") then genai.FinishReasonMaxTokens
  else if decide (reason = "tool_use") then genai.FinishReasonStop
  else genai.FinishReasonUnspecified.

(** [args := make(map[string]any)] followed by an [Unmarshal] whose error
    is only logged: on failure the map made before is what is used. *)
Definition parseToolArgs (raw : string) : Args :=
  if decide (raw ≠ "") then
    match json_Unmarshal_Args raw with
    | Ok args => args
    | Err _ => emptyArgs
    end
  else emptyArgs.

(** One iteration of the loop of [convertAnthropicResponse]. *)
Definition responseBlockParts (block : ContentBlock) : list genai.Part :=
  if decide (cb_Type block = "text") then
    if decide (cb_Text block ≠ "") then [genai.TextPart (cb_Text block)] else []
  else if decide (cb_Type block = "thinking") then
    if decide (cb_Thinking block ≠ "") then [genai.ThoughtPart (cb_Thinking block)] else []
  else if decide (cb_Type block = "tool_use") then
    [genai.CallPart (genai.mkFunctionCall (cb_ID block) (cb_Name block)
                                          (parseToolArgs (cb_Input block)))]
  else [].

Definition convertAnthropicResponse (resp : MessagesResponse) : result model.LLMResponse :=
  Ok {| model.Content :=
          genai.mkContent "model" (flat_map responseBlockParts (resp_Content resp));
        model.UsageMetadata := convertUsage (Some (resp_Usage resp));
        model.FinishReason := convertStopReason (resp_StopReason resp);
        model.Partial := false;
        model.TurnComplete := true |}.

End convert.

(** *** model.go: the HTTP exchange and the SSE stream *)

(** [AnthropicModel.doRequest]: marshalling, URL building and the round
    trip of [http.Client]; context cancellation surfaces as an error of the
    round trip or of a later body read. *)
Class Transport : Type := {
  doRequest : MessagesRequest → result HTTPResponse
}.

Record blockState : Type := mkBlockState {
  blockType : string;          (* text / tool_use / thinking *)
  toolID : string;
  toolName : string;
  text : string;
  thinking : string;
  toolArgs : string
}.

(** The variables [processStream] shares with its helpers. *)
Record streamState : Type := mkStreamState {
  blocks : gmap Z blockState;
  stopReason : string;
  usage : option Usage
}.

Definition partialResponse (part : genai.Part) : model.LLMResponse :=
  {| model.Content := genai.mkContent "model" [part];
     model.UsageMetadata := None;
     model.FinishReason := genai.FinishReasonUnset;
     model.Partial := true;
     model.TurnComplete := false |}.

Section stream.
Context {json : JSON} {wire : Wire} (yield : consumer).

(** [if !yield(resp, nil) { return errStopIteration }]. *)
Definition yieldPartial (part : genai.Part) (out : list yielded)
  : list yielded * option error :=
  let out' := out ++ [YResp (partialResponse part)] in
  (out', if yield out' then None else Some ErrStopIteration).

Definition handleDelta (data : string) (blocks : gmap Z blockState)
    (out : list yielded) : gmap Z blockState * list yielded * option error :=
  match Unmarshal_SSEContentBlockDelta data with
  | Err _ => (blocks, out, None)
  | Ok ev =>
      match blocks !! cbd_Index ev with
      | None => (blocks, out, None)
      | Some bs =>
          let d := cbd_Delta ev in
          if decide (d_Type d = "text_delta") then
            let bs' := mkBlockState (blockType bs) (toolID bs) (toolName bs)
                         (text bs +:+ d_Text d) (thinking bs) (toolArgs bs) in
            let '(out', e) := yieldPartial (genai.mkPart (d_Text d) false None None) out in
            (<[cbd_Index ev := bs']> blocks, out', e)
          else if decide (d_Type d = "thinking_delta") then
            let bs' := mkBlockState (blockType bs) (toolID bs) (toolName bs)
                         (text bs) (thinking bs +:+ d_Thinking d) (toolArgs bs) in
            let '(out', e) := yieldPartial (genai.mkPart (d_Thinking d) true None None) out in
            (<[cbd_Index ev := bs']> blocks, out', e)
          else if decide (d_Type d = "input_json_delta") then
            let bs' := mkBlockState (blockType bs) (toolID bs) (toolName bs)
                         (text bs) (thinking bs) (toolArgs bs +:+ d_PartialJSON d) in
            (<[cbd_Index ev := bs']> blocks, out, None)
          else (blocks, out, None)
      end
  end.

Definition handleSSEEvent (eventType data : string) (st : streamState)
    (out : list yielded) : streamState * list yielded * option error :=
  if decide (eventType = "message_start") then
    match Unmarshal_SSEMessageStart data with
    | Err _ => (st, out, None)
    | Ok ev =>
        (mkStreamState (blocks st) (stopReason st)
                       (Some (resp_Usage (ms_Message ev))), out, None)
    end
  else if decide (eventType = "content_block_start") then
    match Unmarshal_SSEContentBlockStart data with
    | Err _ => (st, out, None)
    | Ok ev =>
        let cb := cbs_ContentBlock ev in
        let bs := if decide (cb_Type cb = "tool_use")
                  then mkBlockState (cb_Type cb) (cb_ID cb) (cb_Name cb) "" "" ""
                  else mkBlockState (cb_Type cb) "" "" "" "" "" in
        (mkStreamState (<[cbs_Index ev := bs]> (blocks st)) (stopReason st) (usage st),
         out, None)
    end
  else if decide (eventType = "content_block_delta") then
    let '(blocks', out', e) := handleDelta data (blocks st) out in
    (mkStreamState blocks' (stopReason st) (usage st), out', e)
  else if decide (eventType = "content_block_stop") then (st, out, None)
  else if decide (eventType = "message_delta") then
    match Unmarshal_SSEMessageDelta data with
    | Err _ => (st, out, None)
    | Ok ev =>
        (mkStreamState (blocks st) (md_StopReason ev)
                       (match md_Usage ev with
                        | Some u => Some u
                        | None => usage st
                        end), out, None)
    end
  else if decide (eventType = "message_stop") then (st, out, None)
  else if decide (eventType = "error") then
    match Unmarshal_SSEError data with
    | Err _ => (st, out, Some (ErrNew ("SSE error: " +:+ data)))
    | Ok ev =>
        (st, out, Some (ErrNew ("Anthropic API error: " +:+ err_Type ev
                                  +:+ " - " +:+ err_Message ev)))
    end
  else (st, out, None).   (* "ping" and every other event type *)

(** [sort.Ints]. *)
Definition sort_Ints (l : list Z) : list Z := merge_sort Z.le l.

(** [for idx := range blocks]: Go fixes no order; the model takes the
    order of [map_to_list], and [sort_Ints] makes the choice irrelevant. *)
Definition rangeKeys (blocks : gmap Z blockState) : list Z :=
  (map_to_list blocks).*1.

(** The [switch bs.blockType] of [emitFinalResponse]. *)
Definition blockParts (bs : blockState) : list genai.Part :=
  if decide (blockType bs = "thinking") then
    if decide (thinking bs ≠ "") then [genai.ThoughtPart (thinking bs)] else []
  else if decide (blockType bs = "text") then
    if decide (text bs ≠ "") then [genai.TextPart (text bs)] else []
  else if decide (blockType bs = "tool_use") then
    [genai.CallPart (genai.mkFunctionCall (toolID bs) (toolName bs)
                                          (parseToolArgs (toolArgs bs)))]
  else [].

Definition indexParts (blocks : gmap Z blockState) (idx : Z) : list genai.Part :=
  match blocks !! idx with
  | Some bs => blockParts bs
  | None => []
  end.

Definition finalResponse (aggregated : genai.Content) (st : streamState)
  : model.LLMResponse :=
  let indices := sort_Ints (rangeKeys (blocks st)) in
  {| model.Content :=
       genai.mkContent (genai.Role aggregated)
         (genai.Parts aggregated ++ flat_map (indexParts (blocks st)) indices);
     model.UsageMetadata := convertUsage (usage st);
     model.FinishReason := convertStopReason (stopReason st);
     model.Partial := false;
     model.TurnComplete := true |}.

Definition emitFinalResponse (aggregated : genai.Content) (st : streamState)
    (out : list yielded) : list yielded :=
  out ++ [YResp (finalResponse aggregated st)].

(** The scanning loop of [processStream].  [inl out]: the function has
    returned from inside the loop; [inr (st, out)]: [Scan] returned
    false. *)
Fixpoint scanLoop (lines : list string) (eventType : string) (st : streamState)
    (out : list yielded) : list yielded + (streamState * list yielded) :=
  match lines with
  | [] => inr (st, out)
  | line :: rest =>
      match strings.CutPrefix line "event: " with
      | Some ev => scanLoop rest ev st out
      | None =>
          match strings.CutPrefix line "data: " with
          | None => scanLoop rest eventType st out
          | Some data =>
              match handleSSEEvent eventType data st out with
              | (st', out', Some err) =>
                  if errors_Is_Stop err then inl out'
                  else inl (out' ++ [YErr err])
              | (st', out', None) => scanLoop rest eventType st' out'
              end
          end
      end
  end.

Definition initialState : streamState := mkStreamState ∅ "" None.

Definition processStream (body : HTTPResponse) : list yielded :=
  let aggregated := genai.mkContent "model" [] in
  match scanLoop (body_Lines body) "" initialState [] with
  | inl out => out
  | inr (st, out) =>
      match body_ScanErr body with
      | Some err =>
          if negb (errors_Is_Canceled err)
          then out ++ [YErr (ErrWrap "SSE read error" err)]
          else out
      | None => emitFinalResponse aggregated st out
      end
  end.

Context {transport : Transport}.

Definition withStream (ar : MessagesRequest) (b : bool) : MessagesRequest :=
  mkMessagesRequest (req_Model ar) (req_Messages ar) (req_System ar)
    (req_MaxTokens ar) (req_Temperature ar) (req_TopP ar) b (req_Tools ar)
    (req_StopSequences ar).

Definition generate (req : model.LLMRequest) (modelName : string) : list yielded :=
  match toAnthropicRequest req modelName with
  | Err err => [YErr err]
  | Ok ar =>
      match doRequest (withStream ar false) with
      | Err err => [YErr err]
      | Ok resp =>
          match ReadAll_LimitReader (10 * 1024 * 1024) resp with
          | (_, Some err) => [YErr (ErrWrap "read response" err)]
          | (body, None) =>
              if decide (StatusCode resp ≠ 200)
              then [YErr (ErrHTTP "HTTP" (StatusCode resp) body)]
              else
                match Unmarshal_MessagesResponse body with
                | Err err => [YErr (ErrWrap "unmarshal response" err)]
                | Ok msgResp =>
                    match convertAnthropicResponse msgResp with
                    | Err err => [YErr err]
                    | Ok llmResp => [YResp llmResp]
                    end
                end
          end
      end
  end.

Definition generateStream (req : model.LLMRequest) (modelName : string) : list yielded :=
  match toAnthropicRequest req modelName with
  | Err err => [YErr err]
  | Ok ar =>
      match doRequest (withStream ar true) with
      | Err err => [YErr err]
      | Ok resp =>
          if decide (StatusCode resp ≠ 200)
          then [YErr (ErrHTTP "HTTP" (StatusCode resp)
                              (ReadAll_LimitReader 2048 resp).1)]
          else processStream resp
      end
  end.

Definition GenerateContent (req : model.LLMRequest) (modelName : string)
    (stream : bool) : list yielded :=
  if stream then generateStream req modelName else generate req modelName.

End stream.

End anthropic.

(** * The OpenAI Responses adapter *)

Module openai.

Record thinkSegment : Type := mkThinkSegment {
  seg_Text : string;
  seg_Thought : bool
}.

Record vendorToolCall : Type := mkVendorToolCall {
  vc_Name : string;
  vc_Args : Args
}.

(** The item of [response.output_item.added] / [.done] events. *)
Record OutputItem : Type := mkOutputItem {
  item_Type : string;
  item_ID : string;
  item_CallID : string;
  item_Name : string;
  item_Arguments : string
}.

Record ResponsesFuncCallArgsDelta : Type := mkResponsesFuncCallArgsDelta {
  fad_ItemID : string;
  fad_Delta : string
}.

Record ResponsesUsage : Type := mkResponsesUsage {
  ru_InputTokens : Z;
  ru_OutputTokens : Z;
  ru_TotalTokens : Z
}.

(** The request type and [json.Unmarshal] into the wire structs of the
    Responses API; their declarations are outside this file's sources. *)
Class Wire : Type := {
  ResponsesRequest : Type;
  CreateResponseResponse : Type;
  setStream : ResponsesRequest → bool → ResponsesRequest;
  Marshal_Request : ResponsesRequest → result string;
  Decode_CreateResponseResponse : string → result CreateResponseResponse;
  Unmarshal_TextDelta : string → result string;                 (* .Delta *)
  Unmarshal_FuncCallArgsDelta : string → result ResponsesFuncCallArgsDelta;
  Unmarshal_OutputItemAdded : string → result OutputItem;       (* .Item *)
  Unmarshal_OutputItemDone : string → result OutputItem;        (* .Item *)
  Unmarshal_Completed : string → result (option ResponsesUsage) (* .Response.Usage *)
}.

(** Helpers of the package that the stream processor calls: the
    think-tag stream parser, the vendor tool-call text parser, the argument
    parser and the two converters. *)
Class Helpers {rwire : Wire} : Type := {
  thinkTagStreamParser : Type;
  newThinkTagStreamParser : thinkTagStreamParser;
  Feed : thinkTagStreamParser → string → thinkTagStreamParser * list thinkSegment;
  Flush : thinkTagStreamParser → list thinkSegment;
  parseVendorToolCalls : string → list vendorToolCall * string;
  parseJSONArgs : string → Args;
  toResponsesRequest : model.LLMRequest → string → bool → result ResponsesRequest;
  convertResponsesResponse : CreateResponseResponse → result model.LLMResponse
}.

(** [ResponsesModel.doRequest]. *)
Class Transport : Type := {
  doRequest : string → bool → result HTTPResponse
}.

Record responsesToolCallBuilder : Type := mkBuilder {
  itemID : string;
  callID : string;
  name : string;
  args : string
}.

Definition partialResponse (part : genai.Part) : model.LLMResponse :=
  {| model.Content := genai.mkContent "model" [part];
     model.UsageMetadata := None;
     model.FinishReason := genai.FinishReasonUnset;
     model.Partial := true;
     model.TurnComplete := false |}.

Section stream.
Context {rwire : Wire} {helpers : Helpers} (yield : consumer).

(** The variables [processResponsesStream] shares with its handlers. *)
Record streamState : Type := mkStreamState {
  textContent : string;
  thoughtContent : string;
  toolCallsMap : gmap string responsesToolCallBuilder;
  toolCallOrder : list string;
  usageMetadata : option genai.UsageMetadata;
  thinkParser : thinkTagStreamParser
}.

Definition withText (st : streamState) (t th : string) : streamState :=
  mkStreamState t th (toolCallsMap st) (toolCallOrder st) (usageMetadata st)
                (thinkParser st).
Definition withParser (st : streamState) (p : thinkTagStreamParser) : streamState :=
  mkStreamState (textContent st) (thoughtContent st) (toolCallsMap st)
                (toolCallOrder st) (usageMetadata st) p.
Definition withTools (st : streamState)
    (m : gmap string responsesToolCallBuilder) (o : list string) : streamState :=
  mkStreamState (textContent st) (thoughtContent st) m o (usageMetadata st)
                (thinkParser st).
Definition withUsage (st : streamState) (u : option genai.UsageMetadata) : streamState :=
  mkStreamState (textContent st) (thoughtContent st) (toolCallsMap st)
                (toolCallOrder st) u (thinkParser st).

(** Returns the state, the output and the boolean the Go function
    returns ([false]: the consumer stopped). *)
Fixpoint emitTextSegments (segments : list thinkSegment) (st : streamState)
    (out : list yielded) : streamState * list yielded * bool :=
  match segments with
  | [] => (st, out, true)
  | seg :: rest =>
      if decide (seg_Text seg = "") then emitTextSegments rest st out
      else
        let st' := if seg_Thought seg
                   then withText st (textContent st) (thoughtContent st +:+ seg_Text seg)
                   else withText st (textContent st +:+ seg_Text seg) (thoughtContent st) in
        let out' := out ++ [YResp (partialResponse
                      (genai.mkPart (seg_Text seg) (seg_Thought seg) None None))] in
        if yield out' then emitTextSegments rest st' out'
        else (st', out', false)
  end.

Definition handleTextDelta (data : string) (st : streamState) (out : list yielded)
  : streamState * list yielded * bool :=
  match Unmarshal_TextDelta data with
  | Err _ => (st, out, true)
  | Ok delta =>
      let '(p, segs) := Feed (thinkParser st) delta in
      emitTextSegments segs (withParser st p) out
  end.

Definition handleFuncArgsDelta (data : string) (st : streamState) : streamState :=
  match Unmarshal_FuncCallArgsDelta data with
  | Err _ => st
  | Ok delta =>
      match toolCallsMap st !! fad_ItemID delta with
      | Some builder =>
          withTools st
            (<[fad_ItemID delta :=
                 mkBuilder (itemID builder) (callID builder) (name builder)
                           (args builder +:+ fad_Delta delta)]> (toolCallsMap st))
            (toolCallOrder st)
      | None => st
      end
  end.

Definition handleOutputItemAdded (data : string) (st : streamState) : streamState :=
  match Unmarshal_OutputItemAdded data with
  | Err _ => st
  | Ok item =>
      if decide (item_Type item = "function_call") then
        withTools st
          (<[item_ID item :=
               mkBuilder (item_ID item) (item_CallID item) (item_Name item) ""]>
             (toolCallsMap st))
          (toolCallOrder st ++ [item_ID item])
      else st
  end.

Definition handleOutputItemDone (data : string) (st : streamState) : streamState :=
  match Unmarshal_OutputItemDone data with
  | Err _ => st
  | Ok item =>
      if decide (item_Type item = "function_call") then
        match toolCallsMap st !! item_ID item with
        | Some builder =>
            withTools st
              (<[item_ID item :=
                   mkBuilder (itemID builder) (item_CallID item) (item_Name item)
                             (if decide (item_Arguments item ≠ "")
                              then item_Arguments item else args builder)]>
                 (toolCallsMap st))
              (toolCallOrder st)
        | None =>
            withTools st
              (<[item_ID item :=
                   mkBuilder (item_ID item) (item_CallID item) (item_Name item)
                             (item_Arguments item)]> (toolCallsMap st))
              (toolCallOrder st ++ [item_ID item])
        end
      else st
  end.

Definition handleCompleted (data : string) (st : streamState) : streamState :=
  match Unmarshal_Completed data with
  | Err _ => st
  | Ok None => st
  | Ok (Some u) =>
      withUsage st (Some (genai.mkUsageMetadata (int32 (ru_InputTokens u))
                                                (int32 (ru_OutputTokens u))
                                                (int32 (ru_TotalTokens u))))
  end.

(** The scanning loop; [inl out]: returned from inside the loop. *)
Fixpoint scanLoop (lines : list string) (currentEventType : string)
    (st : streamState) (out : list yielded)
  : list yielded + (streamState * list yielded) :=
  match lines with
  | [] => inr (st, out)
  | line :: rest =>
      match strings.CutPrefix line "event: " with
      | Some eventType => scanLoop rest eventType st out
      | None =>
          match strings.CutPrefix line "data: " with
          | None => scanLoop rest currentEventType st out
          | Some data =>
              if decide (data = "") then scanLoop rest currentEventType st out
              else if decide (currentEventType = "response.output_text.delta") then
                match handleTextDelta data st out with
                | (st', out', true) => scanLoop rest "" st' out'
                | (_, out', false) => inl out'
                end
              else if decide (currentEventType = "response.function_call_arguments.delta") then
                scanLoop rest "" (handleFuncArgsDelta data st) out
              else if decide (currentEventType = "response.output_item.added") then
                scanLoop rest "" (handleOutputItemAdded data st) out
              else if decide (currentEventType = "response.output_item.done") then
                scanLoop rest "" (handleOutputItemDone data st) out
              else if decide (currentEventType = "response.completed") then
                scanLoop rest "" (handleCompleted data st) out
              else scanLoop rest "" st out
          end
      end
  end.

(** Parts from the final text: the cleaned text, then the vendor calls
    with ids [vendor_call_0], [vendor_call_1], ... *)
Definition textParts (textContent : string) : list genai.Part :=
  if decide (textContent ≠ "") then
    let '(vendorCalls, cleanedText) := parseVendorToolCalls textContent in
    (if decide (cleanedText ≠ "") then [genai.TextPart cleanedText] else [])
    ++ imap (λ i vc, genai.CallPart
               (genai.mkFunctionCall ("vendor_call_" +:+ pretty i) (vc_Name vc)
                                     (vc_Args vc))) vendorCalls
  else [].

(** One iteration of [for _, id := range toolCallOrder]. *)
Definition toolCallPart (m : gmap string responsesToolCallBuilder) (id : string)
  : list genai.Part :=
  match m !! id with
  | None => []
  | Some builder =>
      [genai.CallPart (genai.mkFunctionCall (callID builder) (name builder)
                                            (parseJSONArgs (args builder)))]
  end.

Definition toolCallParts (st : streamState) : list genai.Part :=
  flat_map (toolCallPart (toolCallsMap st)) (toolCallOrder st).

Definition finalResponse (st : streamState) : model.LLMResponse :=
  let parts := textParts (textContent st) ++ toolCallParts st in
  {| model.Content :=
       genai.mkContent "model"
         (if decide (thoughtContent st ≠ "")
          then genai.ThoughtPart (thoughtContent st) :: parts else parts);
     model.UsageMetadata := usageMetadata st;
     model.FinishReason := genai.FinishReasonStop;
     model.Partial := false;
     model.TurnComplete := true |}.

Definition initialState : streamState :=
  mkStreamState "" "" ∅ [] None newThinkTagStreamParser.

Definition processResponsesStream (body : HTTPResponse) : list yielded :=
  match scanLoop (body_Lines body) "" initialState [] with
  | inl out => out
  | inr (st, out) =>
      match body_ScanErr body with
      | Some err => out ++ [YErr (ErrWrap "SSE read error" err)]
      | None =>
          match emitTextSegments (Flush (thinkParser st)) st out with
          | (_, out', false) => out'
          | (st', out', true) => out' ++ [YResp (finalResponse st')]
          end
      end
  end.

Context {transport : Transport} (modelName : string) (NoSystemRole : bool).

Definition statusError (resp : HTTPResponse) : bool :=
  bool_decide (StatusCode resp < 200 ∨ StatusCode resp >= 400).

Definition generate (req : model.LLMRequest) : list yielded :=
  match toResponsesRequest req modelName NoSystemRole with
  | Err err => [YErr err]
  | Ok apiReq =>
      match Marshal_Request (setStream apiReq false) with
      | Err err => [YErr (ErrWrap "marshal request" err)]
      | Ok body =>
          match doRequest body false with
          | Err err => [YErr err]
          | Ok resp =>
              if statusError resp
              then [YErr (ErrHTTP "Responses API" (StatusCode resp) (body_ReadAll resp).1)]
              else
                match (body_ReadAll resp).2 with
                | Some err => [YErr (ErrWrap "decode response" err)]
                | None =>
                    match Decode_CreateResponseResponse (body_ReadAll resp).1 with
                    | Err err => [YErr (ErrWrap "decode response" err)]
                    | Ok apiResp =>
                        match convertResponsesResponse apiResp with
                        | Err err => [YErr err]
                        | Ok llmResp => [YResp llmResp]
                        end
                    end
                end
          end
      end
  end.

Definition generateStream (req : model.LLMRequest) : list yielded :=
  match toResponsesRequest req modelName NoSystemRole with
  | Err err => [YErr err]
  | Ok apiReq =>
      match Marshal_Request (setStream apiReq true) with
      | Err err => [YErr (ErrWrap "marshal request" err)]
      | Ok body =>
          match doRequest body true with
          | Err err => [YErr err]
          | Ok resp =>
              if statusError resp
              then [YErr (ErrHTTP "Responses API stream" (StatusCode resp)
                                  (body_ReadAll resp).1)]
              else processResponsesStream resp
          end
      end
  end.

Definition GenerateContent (req : model.LLMRequest) (stream : bool) : list yielded :=
  if stream then generateStream req else generate req.

End stream.

(** [ResponsesModel], without its HTTP client. *)
Record ResponsesModel : Type := mkResponsesModel {
  rm_baseURL : string;
  rm_apiKey : string;
  rm_modelName : string;
  rm_NoSystemRole : bool
}.

Definition NewResponsesModel (modelName apiKey baseURL : string) (noSystemRole : bool)
  : ResponsesModel :=
  mkResponsesModel (strings.TrimRight baseURL "/") apiKey modelName noSystemRole.

Definition responsesEndpoint (r : ResponsesModel) : string :=
  rm_baseURL r +:+ "/responses".

End openai.

(** * The tool invocation layer: [internal/adk/mcp] *)

Module mcp.

(** *** toolset_wrapper.go *)

(** The methods [functionTool] adds to [tool.Tool]. *)
Record functionToolMethods : Type := mkFunctionToolMethods {
  ft_Declaration : option genai.FunctionDeclaration;
  ft_Run : any → result Args
}.

(** A value of interface type [tool.Tool]: its methods, and the
    [functionTool] methods when the dynamic type has them. *)
Record Tool : Type := mkToolObj {
  tool_Name : string;
  tool_Description : string;
  tool_IsLongRunning : bool;
  tool_functionTool : option functionToolMethods
}.

(** A value of interface type [tool.Toolset]. *)
Record Toolset : Type := mkToolsetObj {
  toolset_Name : string;
  toolset_Tools : result (list Tool)
}.

Record prefixedTool : Type := mkPrefixedTool {
  pt_inner : Tool;
  pt_prefix : string
}.

Record prefixedToolset : Type := mkPrefixedToolset {
  pts_inner : Toolset;
  pts_prefix : string
}.

Definition NewPrefixedToolset (inner : Toolset) (prefix : string) : prefixedToolset :=
  mkPrefixedToolset inner prefix.

Definition prefixedTool_Name (p : prefixedTool) : string :=
  pt_prefix p +:+ ":" +:+ tool_Name (pt_inner p).

Definition prefixedTool_Description (p : prefixedTool) : string :=
  tool_Description (pt_inner p).

Definition prefixedTool_IsLongRunning (p : prefixedTool) : bool :=
  tool_IsLongRunning (pt_inner p).

Definition prefixedTool_Declaration (p : prefixedTool)
  : option genai.FunctionDeclaration :=
  match tool_functionTool (pt_inner p) with
  | None => None
  | Some inner =>
      match ft_Declaration inner with
      | None => None
      | Some decl =>
          Some {| genai.fd_Name := prefixedTool_Name p;
                  genai.fd_Description := genai.fd_Description decl;
                  genai.fd_Parameters := None;
                  genai.fd_ParametersJsonSchema := genai.fd_ParametersJsonSchema decl;
                  genai.fd_ResponseJsonSchema := genai.fd_ResponseJsonSchema decl |}
      end
  end.

(** [Run]: [(nil, nil)] when the inner tool is no [functionTool]. *)
Definition prefixedTool_Run (p : prefixedTool) (args : any) : result (option Args) :=
  match tool_functionTool (pt_inner p) with
  | None => Ok None
  | Some inner =>
      match ft_Run inner args with
      | Err err => Err err
      | Ok r => Ok (Some r)
      end
  end.

Definition prefixedToolset_Name (p : prefixedToolset) : string :=
  toolset_Name (pts_inner p).

Definition prefixedToolset_Tools (p : prefixedToolset) : result (list prefixedTool) :=
  match toolset_Tools (pts_inner p) with
  | Err err => Err err
  | Ok tools => Ok ((λ t, mkPrefixedTool t (pts_prefix p)) <$> tools)
  end.

(** A value stored in [req.Tools] (a [map[string]any]): a prefixed tool, or
    whatever another tool registered. *)
Inductive registeredTool : Type :=
  | RegisteredPrefixed (p : prefixedTool)
  | RegisteredOther (tag : string).

(** A [*genai.Tool] of [req.Config.Tools] as [ProcessRequest] reads it: its
    function declarations, [None] for a nil slice. *)
Record requestTool : Type := mkRequestTool {
  rt_FunctionDeclarations : option (list genai.FunctionDeclaration)
}.

(** The two fields of [model.LLMRequest] that [ProcessRequest] touches:
    [Tools] (nil or a map) and [Config] (nil, or its [Tools]; the other
    fields of the configuration are not read or written). *)
Record toolRequest : Type := mkToolRequest {
  rq_Tools : option (gmap string registeredTool);
  rq_Config : option (list (option requestTool))
}.

(** The search loop of [ProcessRequest] together with the append to the
    tool it finds: the first non-nil tool with non-nil declarations gets
    [decl] appended; [None] when there is no such tool. *)
Fixpoint appendToFirstFunctionTool (decl : genai.FunctionDeclaration)
    (tools : list (option requestTool)) : option (list (option requestTool)) :=
  match tools with
  | [] => None
  | Some (mkRequestTool (Some fds)) :: rest =>
      Some (Some (mkRequestTool (Some (fds ++ [decl]))) :: rest)
  | t :: rest => (λ rest', t :: rest') <$> appendToFirstFunctionTool decl rest
  end.

(** [prefixedTool.ProcessRequest]; its error result is always nil. *)
Definition ProcessRequest (p : prefixedTool) (req : toolRequest) : toolRequest :=
  let tools := default ∅ (rq_Tools req) in
  let name := prefixedTool_Name p in
  match tools !! name with
  | Some _ => mkToolRequest (Some tools) (rq_Config req)
  | None =>
      let tools' := <[name := RegisteredPrefixed p]> tools in
      match prefixedTool_Declaration p with
      | None => mkToolRequest (Some tools') (rq_Config req)
      | Some decl =>
          let configTools := default [] (rq_Config req) in
          match appendToFirstFunctionTool decl configTools with
          | Some configTools' => mkToolRequest (Some tools') (Some configTools')
          | None =>
              mkToolRequest (Some tools')
                (Some (configTools ++ [Some (mkRequestTool (Some [decl]))]))
          end
      end
  end.

(** *** manager.go *)

Inductive MCPTransportType : Type :=
  | MCPTransportSSE
  | MCPTransportCommand
  | MCPTransportHTTP.          (* every other value: the [default] branch *)

Record MCPServerConfig : Type := mkMCPServerConfig {
  cfg_ID : string;
  cfg_Name : string;
  cfg_Enabled : bool;
  cfg_TransportType : MCPTransportType;
  cfg_Endpoint : string;
  cfg_Command : string;
  cfg_Args : list string
}.

Inductive Transport : Type :=
  | SSEClientTransport (endpoint : string)
  | CommandTransport (command : string) (args : list string)
  | StreamableClientTransport (endpoint : string) (maxRetries : Z).

(** A tool as [session.ListTools] reports it. *)
Record listedTool : Type := mkListedTool {
  lt_Name : string;
  lt_Description : string
}.

(** The MCP SDK and [mcptoolset.New].  [Connect] and [ListTools] talk to
    an external server, so the same transport may succeed at one call and
    fail at the next: the calls are numbered. *)
Class SDK : Type := {
  mcptoolset_New : Transport → result Toolset;
  Connect_ListTools : nat → string → Transport → result (list listedTool)
}.

Record ToolInfo : Type := mkToolInfo {
  ti_Name : string;
  ti_Description : string;
  ti_ServerID : string;
  ti_ServerName : string
}.

(** The lines written with [log.Warn] and [log.Error]. *)
Inductive logLine : Type :=
  | LogWarnNoConfig (id : string)
  | LogErrorCreateToolset (id : string) (err : error)
  | LogErrorServerTools (id : string) (err : error).

Record Manager : Type := mkManager {
  configs : gmap string MCPServerConfig
}.

Definition NewManager : Manager := mkManager ∅.

Definition LoadConfigs (cfgs : list MCPServerConfig) : Manager :=
  mkManager (foldl (λ m cfg, if cfg_Enabled cfg then <[cfg_ID cfg := cfg]> m else m)
                   ∅ cfgs).

Definition createTransport (cfg : MCPServerConfig) : Transport :=
  match cfg_TransportType cfg with
  | MCPTransportSSE => SSEClientTransport (cfg_Endpoint cfg)
  | MCPTransportCommand => CommandTransport (cfg_Command cfg) (cfg_Args cfg)
  | MCPTransportHTTP => StreamableClientTransport (cfg_Endpoint cfg) 3
  end.

Section manager.
Context {sdk : SDK}.

Definition createToolset (cfg : MCPServerConfig) : result prefixedToolset :=
  match mcptoolset_New (createTransport cfg) with
  | Err err => Err err
  | Ok ts => Ok (NewPrefixedToolset ts (cfg_Name cfg))
  end.

(** One iteration of the first loop of [GetToolsetsByIDs]. *)
Definition selectStep (m : Manager)
    (acc : gmap string MCPServerConfig * list logLine) (id : string)
  : gmap string MCPServerConfig * list logLine :=
  match configs m !! id with
  | Some cfg => (<[id := cfg]> acc.1, acc.2)
  | None => (acc.1, acc.2 ++ [LogWarnNoConfig id])
  end.

(** The first loop: the configurations selected by [ids], and the warnings
    for unknown ids. *)
Definition selectConfigs (m : Manager) (ids : list string)
  : gmap string MCPServerConfig * list logLine :=
  foldl (selectStep m) (∅, []) ids.

(** One iteration of the second loop. *)
Definition createStep (acc : list prefixedToolset * list logLine)
    (kv : string * MCPServerConfig) : list prefixedToolset * list logLine :=
  match createToolset kv.2 with
  | Err err => (acc.1, acc.2 ++ [LogErrorCreateToolset kv.1 err])
  | Ok ts => (acc.1 ++ [ts], acc.2)
  end.

(** The second loop, over the selected configurations in the order
    [order] in which [range] visits them. *)
Definition createSelected (order : list (string * MCPServerConfig))
  : list prefixedToolset * list logLine :=
  foldl createStep ([], []) order.

(** [GetToolsetsByIDs], for an iteration order of the map. *)
Definition GetToolsetsByIDs_ranged (m : Manager) (ids : list string)
    (order : list (string * MCPServerConfig)) : list prefixedToolset * list logLine :=
  let '(_, warns) := selectConfigs m ids in
  let '(result, errs) := createSelected order in
  (result, warns ++ errs).

Definition GetToolsetsByIDs (m : Manager) (ids : list string)
  : list prefixedToolset * list logLine :=
  GetToolsetsByIDs_ranged m ids (map_to_list (selectConfigs m ids).1).

(** [GetServerTools], as its [n]-th connection. *)
Definition GetServerTools (m : Manager) (n : nat) (serverID : string)
  : result (list ToolInfo) :=
  match configs m !! serverID with
  | None => Ok []
  | Some cfg =>
      match Connect_ListTools n (cfg_Name cfg) (createTransport cfg) with
      | Err err => Err err
      | Ok tools =>
          Ok ((λ t, mkToolInfo (lt_Name t) (lt_Description t) serverID (cfg_Name cfg))
                <$> tools)
      end
  end.

Fixpoint GetToolInfos_from (m : Manager) (n : nat) (serverIDs : list string)
    (allTools : list ToolInfo) (logs : list logLine) : list ToolInfo * list logLine :=
  match serverIDs with
  | [] => (allTools, logs)
  | id :: rest =>
      match GetServerTools m n id with
      | Err err => GetToolInfos_from m (S n) rest allTools
                                     (logs ++ [LogErrorServerTools id err])
      | Ok tools => GetToolInfos_from m (S n) rest (allTools ++ tools) logs
      end
  end.

Definition GetToolInfosByServerIDs (m : Manager) (serverIDs : list string)
  : list ToolInfo * list logLine :=
  GetToolInfos_from m 0 serverIDs [] [].

(** The toolsets [BuildAgentWithContext] hands to [llmagent.New]. *)
Definition agentToolsets (mcpManager : option Manager) (MCPServers : list string)
  : list prefixedToolset :=
  match mcpManager with
  | Some m =>
      if decide (0 < length MCPServers)%nat
      then (GetToolsetsByIDs m MCPServers).1 else []
  | None => []
  end.

(** [GetToolset]: the toolset and the boolean as an option. *)
Definition GetToolset (m : Manager) (serverID : string)
  : option prefixedToolset * list logLine :=
  match configs m !! serverID with
  | None => (None, [LogWarnNoConfig serverID])
  | Some cfg =>
      match createToolset cfg with
      | Err err => (None, [LogErrorCreateToolset (cfg_Name cfg) err])
      | Ok ts => (Some ts, [])
      end
  end.

(** One iteration of the second loop of [GetAllToolsets]. *)
Definition createAllStep (acc : list prefixedToolset * list logLine)
    (cfg : MCPServerConfig) : list prefixedToolset * list logLine :=
  match createToolset cfg with
  | Err err => (acc.1, acc.2 ++ [LogErrorCreateToolset (cfg_Name cfg) err])
  | Ok ts => (acc.1 ++ [ts], acc.2)
  end.

(** [GetAllToolsets], for the order [order] in which [range] visits the
    configurations. *)
Definition GetAllToolsets_ranged (order : list (string * MCPServerConfig))
  : list prefixedToolset * list logLine :=
  foldl createAllStep ([], []) (order.*2).

Definition GetAllToolsets (m : Manager) : list prefixedToolset * list logLine :=
  GetAllToolsets_ranged (map_to_list (configs m)).

Record ServerStatus : Type := mkServerStatus {
  ss_ID : string;
  ss_Connected : bool;
  ss_Error : string
}.

(** [GetAllStatus], for an iteration order of the map. *)
Definition GetAllStatus_ranged (order : list (string * MCPServerConfig))
  : list ServerStatus :=
  foldl (λ result kv, result ++ [mkServerStatus kv.1 false ""]) [] order.

Definition GetAllStatus (m : Manager) : list ServerStatus :=
  GetAllStatus_ranged (map_to_list (configs m)).

End manager.

End mcp.

(** * The model factory's system-role probe *)

Module factory.

Inductive AIProvider : Type :=
  | AIProviderOpenAI
  | AIProviderGemini
  | AIProviderVertexAI
  | AIProviderAnthropic
  | AIProviderOther (name : string).

Global Instance AIProvider_eq_dec : EqDecision AIProvider.
Proof. solve_decision. Defined.

Record AIConfig : Type := mkAIConfig {
  Provider : AIProvider;
  BaseURL : string;
  APIKey : string;
  ModelName : string;
  UseResponses : bool
}.

(** The HTTP client of the probe and the decoders of [extractReplyText]:
    [http_Do] is the round trip of one POST, [Unmarshal_Choices] reads
    [choices[*].message.content], [Unmarshal_OutputText] reads
    [output_text]. *)
Class Probe : Type := {
  http_Do : string → string → string → result HTTPResponse;
  Unmarshal_Choices : string → result (list string);
  Unmarshal_OutputText : string → result string
}.


Definition normalizeOpenAIBaseURL (baseURL : string) : string :=
  if decide (baseURL = "") then "https://api.openai.com/v1"
  else
    let baseURL := strings.TrimRight baseURL "/" in
    if strings.HasSuffix baseURL "/v1" then baseURL else baseURL +:+ "/v1".



Definition probeEndpoint (config : AIConfig) : string :=
  strings.TrimSuffix (normalizeOpenAIBaseURL (BaseURL config)) "/"
    +:+ (if UseResponses config then "/responses" else "/chat/completions").

Section probe.
Context {json : JSON} {probe : Probe}.






End probe.

(** [createOpenAIResponsesModel]; [noSystemRole] is [config.NoSystemRole]. *)
Definition createOpenAIResponsesModel (config : AIConfig) (noSystemRole : bool)
  : openai.ResponsesModel :=
  openai.NewResponsesModel (ModelName config) (APIKey config)
                           (normalizeOpenAIBaseURL (BaseURL config)) noSystemRole.

End factory.

(** * Meeting cancellation: [app.go] *)

Module app.

(** A [context.WithCancel] context and its cancel function, by identity. *)
Definition token : Type := nat.

(** The fields of [App] that the cancellation logic touches:
    [meetingCancels], the contexts already cancelled, and the supply of
    fresh contexts. *)
Record App : Type := mkApp {
  meetingCancels : gmap string token;
  canceled : gset token;
  nextToken : token
}.

Definition NewApp : App := mkApp ∅ ∅ 0%nat.

(** One critical section under [meetingCancelsMu]. *)
Definition cancelMeetingInternal (a : App) (stockCode : string) : App :=
  match meetingCancels a !! stockCode with
  | Some cancel =>
      mkApp (delete stockCode (meetingCancels a)) ({[cancel]} ∪ canceled a) (nextToken a)
  | None => a
  end.

Definition CancelMeeting (a : App) (stockCode : string) : App * bool :=
  (cancelMeetingInternal a stockCode, true).

(** [context.WithCancel] followed by [a.meetingCancels[code] = cancel]. *)
Definition registerMeeting (a : App) (stockCode : string) : App * token :=
  (mkApp (<[stockCode := nextToken a]> (meetingCancels a)) (canceled a)
         (S (nextToken a)),
   nextToken a).

(** The deferred function of [SendMeetingMessage]. *)
Definition cleanupMeeting (a : App) (stockCode : string) : App :=
  mkApp (delete stockCode (meetingCancels a)) (canceled a) (nextToken a).

(** Where a goroutine executing [SendMeetingMessage] stands.  Each
    constructor is a point between two atomic actions: the critical
    sections of the mutex and the blocking meeting run. *)
Inductive pc : Type :=
  | AtEntry                   (* before [GetSession] *)
  | AtRegister                (* after [cancelMeetingInternal] *)
  | AtPrepare (ctx : token)   (* own cancel registered, cleanup deferred *)
  | InMeeting (ctx : token)   (* [runSmartMeeting]/[runDirectMeeting] is issuing
                                 provider calls under [ctx] *)
  | AtCleanup                 (* body finished, deferred cleanup pending *)
  | Returned.

Global Instance pc_eq_dec : EqDecision pc.
Proof. solve_decision. Defined.

(** One call of [SendMeetingMessage]: its request and what the services it
    consults answer. *)
Record call : Type := mkCall {
  StockCode : string;
  sessionFound : bool;        (* [GetSession] returned a session *)
  aiConfigFound : bool;       (* [getDefaultAIConfig] returned a config *)
  at_ : pc
}.

Definition moveTo (c : call) (p : pc) : call :=
  mkCall (StockCode c) (sessionFound c) (aiConfigFound c) p.

(** The next atomic action of a call. *)
Definition stepCall (a : App) (c : call) : App * call :=
  match at_ c with
  | AtEntry =>
      if sessionFound c
      then (cancelMeetingInternal a (StockCode c), moveTo c AtRegister)
      else (a, moveTo c Returned)
  | AtRegister =>
      let '(a', ctx) := registerMeeting a (StockCode c) in
      (a', moveTo c (AtPrepare ctx))
  | AtPrepare ctx =>
      if aiConfigFound c
      then (a, moveTo c (InMeeting ctx))
      else (a, moveTo c AtCleanup)
  | InMeeting _ => (a, moveTo c AtCleanup)      (* the meeting run returns *)
  | AtCleanup => (cleanupMeeting a (StockCode c), moveTo c Returned)
  | Returned => (a, c)
  end.

(** The application together with the calls in flight. *)
Record world : Type := mkWorld {
  theApp : App;
  calls : list call
}.

(** Goroutine [g] performs its next atomic action. *)
Definition step (w : world) (g : nat) : world :=
  match calls w !! g with
  | None => w
  | Some c =>
      let '(a', c') := stepCall (theApp w) c in
      mkWorld a' (<[g := c']> (calls w))
  end.

(** A schedule is the order in which goroutines take their steps. *)
Definition run (w : world) (schedule : list nat) : world :=
  foldl step w schedule.

(** Call [g] is running a meeting under a context that was never
    cancelled. *)
Definition runsUncancelled (w : world) (g : nat) : Prop :=
  ∃ c ctx, calls w !! g = Some c ∧ at_ c = InMeeting ctx ∧ ctx ∉ canceled (theApp w).

Definition newCall (stockCode : string) : call := mkCall stockCode true true AtEntry.

(** [models.AIConfig] as the selection functions read it: the id, the
    default flag, and the rest. *)
Record AIConfigEntry : Type := mkAIConfigEntry {
  aic_ID : string;
  aic_IsDefault : bool;
  aic_Config : factory.AIConfig
}.

(** The loop of [getDefaultAIConfig]. *)
Fixpoint firstDefault (AIConfigs : list AIConfigEntry) (DefaultAIID : string)
  : option AIConfigEntry :=
  match AIConfigs with
  | [] => None
  | c :: rest =>
      if decide (aic_ID c = DefaultAIID) then Some c
      else if aic_IsDefault c then Some c
      else firstDefault rest DefaultAIID
  end.

Definition getDefaultAIConfig (AIConfigs : list AIConfigEntry) (DefaultAIID : string)
  : option AIConfigEntry :=
  match firstDefault AIConfigs DefaultAIID with
  | Some c => Some c
  | None => if decide (0 < length AIConfigs)%nat then AIConfigs !! 0%nat else None
  end.

(** The loop of [getAIConfigByID]. *)
Fixpoint firstWithID (AIConfigs : list AIConfigEntry) (aiConfigID : string)
  : option AIConfigEntry :=
  match AIConfigs with
  | [] => None
  | c :: rest =>
      if decide (aic_ID c = aiConfigID) then Some c else firstWithID rest aiConfigID
  end.

Definition getAIConfigByID (AIConfigs : list AIConfigEntry) (DefaultAIID : string)
    (aiConfigID : string) : option AIConfigEntry :=
  match (if decide (aiConfigID ≠ "") then firstWithID AIConfigs aiConfigID else None) with
  | Some c => Some c
  | None => getDefaultAIConfig AIConfigs DefaultAIID
  end.

(** The server lists that [AddMCPServer], [UpdateMCPServer] and
    [DeleteMCPServer] compute, and the manager they reload once the
    configuration has been saved. *)
Definition addedServers (servers : list mcp.MCPServerConfig)
    (server : mcp.MCPServerConfig) : list mcp.MCPServerConfig :=
  servers ++ [server].

Fixpoint updatedServers (servers : list mcp.MCPServerConfig)
    (server : mcp.MCPServerConfig) : list mcp.MCPServerConfig :=
  match servers with
  | [] => []
  | s :: rest =>
      if decide (mcp.cfg_ID s = mcp.cfg_ID server) then server :: rest
      else s :: updatedServers rest server
  end.

Definition deletedServers (servers : list mcp.MCPServerConfig) (id : string)
  : list mcp.MCPServerConfig :=
  filter (λ s, mcp.cfg_ID s ≠ id) servers.

Definition AddMCPServer (servers : list mcp.MCPServerConfig)
    (server : mcp.MCPServerConfig) : list mcp.MCPServerConfig * mcp.Manager :=
  (addedServers servers server, mcp.LoadConfigs (addedServers servers server)).

Definition UpdateMCPServer (servers : list mcp.MCPServerConfig)
    (server : mcp.MCPServerConfig) : list mcp.MCPServerConfig * mcp.Manager :=
  (updatedServers servers server, mcp.LoadConfigs (updatedServers servers server)).

Definition DeleteMCPServer (servers : list mcp.MCPServerConfig) (id : string)
  : list mcp.MCPServerConfig * mcp.Manager :=
  (deletedServers servers id, mcp.LoadConfigs (deletedServers servers id)).

End app.

(** * The expert agent builder: [internal/adk/expert_builder.go] *)

Module adk.

Inductive Weekday : Type :=
  | Sunday | Monday | Tuesday | Wednesday | Thursday | Friday | Saturday.

#[global] Instance Weekday_eq_dec : EqDecision Weekday.
Proof. solve_decision. Defined.

(** The market-status computation of [buildInstructionWithContext], from the
    weekday, hour and minute of [time.Now()]. *)
Definition marketStatus (weekday : Weekday) (hour minute : Z) : string :=
  let currentMinutes := hour * 60 + minute in
  if bool_decide (weekday = Saturday ∨ weekday = Sunday) then "休市（周末）"
  else if bool_decide (9 * 60 + 30 ≤ currentMinutes ∧ currentMinutes ≤ 11 * 60 + 30)
  then "盘中（上午交易时段）"
  else if bool_decide (13 * 60 ≤ currentMinutes ∧ currentMinutes ≤ 15 * 60)
  then "盘中（下午交易时段）"
  else if bool_decide (currentMinutes < 9 * 60 + 30) then "盘前"
  else if bool_decide (currentMinutes > 15 * 60) then "盘后"
  else "午间休市".

(** A built-in tool as [Registry.GetToolInfosByNames] reports it. *)
Record ToolInfo : Type := mkToolInfo {
  info_Name : string;
  info_Description : string
}.

Record toolLists : Type := mkToolLists {
  searchTools : list string;
  dataTools : list string;
  otherTools : list string
}.

Definition newline : string := String (Ascii.ascii_of_nat 10) "".

Definition searchKeywords : list string :=
  ["search"; "搜索"; "web"; "网页"; "tavily"; "google"; "bing"].

Definition dataKeywords : list string :=
  ["kline"; "k线"; "realtime"; "实时"; "orderbook"; "盘口"; "news"; "新闻"].

Section tools_description.
(** [strings.ToLower] and the tool registry are outside these sources. *)
Context (ToLower : string → string).
Context (GetToolInfosByNames : list string → list ToolInfo).
Context {sdk : mcp.SDK}.

Definition isSearchTool (name description : string) (keywords : list string) : bool :=
  let nameLower := ToLower name in
  let descLower := ToLower description in
  existsb (λ kw, strings.Contains nameLower kw || strings.Contains descLower kw) keywords.

Definition isDataTool (name : string) : bool :=
  let nameLower := ToLower name in
  existsb (λ kw, strings.Contains nameLower kw) dataKeywords.

(** The body shared by the two loops of [buildToolsDescription]. *)
Definition classify (lists : toolLists) (name description desc : string) : toolLists :=
  if isSearchTool name description searchKeywords
  then mkToolLists (searchTools lists ++ [desc]) (dataTools lists) (otherTools lists)
  else if isDataTool name
  then mkToolLists (searchTools lists) (dataTools lists ++ [desc]) (otherTools lists)
  else mkToolLists (searchTools lists) (dataTools lists) (otherTools lists ++ [desc]).

Definition builtinLine (info : ToolInfo) : string :=
  "- " +:+ info_Name info +:+ ": " +:+ info_Description info.

Definition mcpLine (info : mcp.ToolInfo) : string :=
  "- " +:+ mcp.ti_Name info +:+ ": " +:+ mcp.ti_Description info
       +:+ " (来自 " +:+ mcp.ti_ServerName info +:+ ")".

(** The tool infos the two loops range over: nothing when the registry or
    the manager is nil or the agent names no tool or server. *)
Definition builtinInfos (hasRegistry : bool) (Tools : list string) : list ToolInfo :=
  if hasRegistry && bool_decide (0 < length Tools)%nat
  then GetToolInfosByNames Tools else [].

Definition mcpInfos (mcpManager : option mcp.Manager) (MCPServers : list string)
  : list mcp.ToolInfo :=
  match mcpManager with
  | Some m =>
      if decide (0 < length MCPServers)%nat
      then (mcp.GetToolInfosByServerIDs m MCPServers).1 else []
  | None => []
  end.

Definition classifyAll (builtin : list ToolInfo) (mcpTools : list mcp.ToolInfo)
  : toolLists :=
  foldl (λ lists info,
           classify lists (mcp.ti_Name info) (mcp.ti_Description info) (mcpLine info))
    (foldl (λ lists info,
              classify lists (info_Name info) (info_Description info) (builtinLine info))
       (mkToolLists [] [] []) builtin)
    mcpTools.

Definition writeLines (lines : list string) : string :=
  foldl (λ result t, result +:+ t +:+ newline) "" lines.

Definition formatToolsInstruction (lists : toolLists) : string :=
  (newline +:+ "## 工具使用规则（必须遵守）" +:+ newline +:+ newline)
  +:+ (if decide (0 < length (searchTools lists))%nat
       then "### 搜索工具（遇到信息查询必须调用）" +:+ newline
            +:+ writeLines (searchTools lists)
            +:+ newline +:+ "**重要**: 当用户询问新闻、事件、公告、研报、市场动态等信息时，"
            +:+ "你**必须先调用搜索工具**获取最新信息，**禁止凭记忆回答**。"
            +:+ newline +:+ newline
       else "")
  +:+ (if decide (0 < length (dataTools lists))%nat
       then "### 数据查询工具" +:+ newline +:+ writeLines (dataTools lists) +:+ newline
       else "")
  +:+ (if decide (0 < length (otherTools lists))%nat
       then "### 其他工具" +:+ newline +:+ writeLines (otherTools lists) +:+ newline
       else "")
  +:+ "### 工具调用原则" +:+ newline
  +:+ "1. 需要实时数据时，必须调用工具，不要编造数据" +:+ newline
  +:+ "2. 搜索类工具优先用于获取最新信息" +:+ newline
  +:+ "3. 工具返回结果后再组织回答" +:+ newline.

Definition buildToolsDescription (hasRegistry : bool) (Tools : list string)
    (mcpManager : option mcp.Manager) (MCPServers : list string) : string :=
  let lists := classifyAll (builtinInfos hasRegistry Tools)
                           (mcpInfos mcpManager MCPServers) in
  if bool_decide (length (searchTools lists) = 0%nat)
     && bool_decide (length (dataTools lists) = 0%nat)
     && bool_decide (length (otherTools lists) = 0%nat)
  then "" else formatToolsInstruction lists.

End tools_description.

End adk.

(** * Fixtures: concrete libraries and inputs used to exercise the statements *)

Module fixtures.

(** An encoder that prints every value as an empty object, and a decoder
    that accepts exactly the text of an empty object. *)
Definition json : JSON :=
  {| json_Marshal := λ _, Ok "{}";
     json_Unmarshal_Args := λ s, if decide (s = "{}") then Ok [] else Err (ErrNew "syntax") |}.

Definition userText (t : string) : option genai.Content :=
  Some (genai.mkContent "user" [genai.TextPart t]).
Definition modelText (t : string) : option genai.Content :=
  Some (genai.mkContent "model" [genai.TextPart t]).

Definition request (maxOut : Z) (contents : list (option genai.Content)) : model.LLMRequest :=
  model.mkLLMRequest contents
    (Some (genai.mkGenerateContentConfig None None None maxOut [] [])).

(** A decoder for a handful of Anthropic event payloads, named by what
    they carry; every other text is a syntax error. *)
Definition syntaxError {A} : result A := Err (ErrNew "syntax").

Definition startEvent (data : string) : result anthropic.SSEContentBlockStart :=
  if decide (data = "{start 0 thinking}") then
    Ok (anthropic.mkSSEContentBlockStart 0
          (anthropic.mkContentBlock "thinking" "" "" "" "" "" "" "" false))
  else if decide (data = "{start 1 text}") then
    Ok (anthropic.mkSSEContentBlockStart 1
          (anthropic.mkContentBlock "text" "" "" "" "" "" "" "" false))
  else if decide (data = "{start 2 tool_use}") then
    Ok (anthropic.mkSSEContentBlockStart 2
          (anthropic.mkContentBlock "tool_use" "" "" "call_1" "get_quote" "" "" "" false))
  else syntaxError.

Definition deltaEvent (data : string) : result anthropic.SSEContentBlockDelta :=
  if decide (data = "{delta 0 thinking}") then
    Ok (anthropic.mkSSEContentBlockDelta 0 (anthropic.mkDelta "thinking_delta" "" "hmm" ""))
  else if decide (data = "{delta 1 text}") then
    Ok (anthropic.mkSSEContentBlockDelta 1 (anthropic.mkDelta "text_delta" "hello" "" ""))
  else if decide (data = "{delta 2 json}") then
    Ok (anthropic.mkSSEContentBlockDelta 2 (anthropic.mkDelta "input_json_delta" "" "" "{oops"))
  else if decide (data = "{delta 7 text}") then
    Ok (anthropic.mkSSEContentBlockDelta 7 (anthropic.mkDelta "text_delta" "lost" "" ""))
  else syntaxError.

Definition wire : anthropic.Wire :=
  {| anthropic.Unmarshal_MessagesResponse := λ data,
       if decide (data = "{message}") then
         Ok (anthropic.mkMessagesResponse "msg_1" "assistant"
               [anthropic.mkContentBlock "text" "pong" "" "" "" "" "" "" false]
               "end_turn" (anthropic.mkUsage 3 1))
       else if decide (data = "{thinking message}") then
         Ok (anthropic.mkMessagesResponse "msg_2" "assistant"
               [anthropic.mkContentBlock "thinking" "" "hmm" "" "" "" "" "" false;
                anthropic.mkContentBlock "text" "pong" "" "" "" "" "" "" false]
               "end_turn" (anthropic.mkUsage 3 2))
       else syntaxError;
     anthropic.Unmarshal_SSEMessageStart := λ _, syntaxError;
     anthropic.Unmarshal_SSEContentBlockStart := startEvent;
     anthropic.Unmarshal_SSEContentBlockDelta := deltaEvent;
     anthropic.Unmarshal_SSEMessageDelta := λ data,
       if decide (data = "{stop end_turn}") then
         Ok (anthropic.mkSSEMessageDelta "end_turn" None)
       else syntaxError;
     anthropic.Unmarshal_SSEError := λ _, syntaxError |}.


Definition okBody (lines : list string) : HTTPResponse :=
  mkHTTPResponse 200 ("", None) lines None.

(** A body whose read is interrupted because the request context was
    cancelled. *)
Definition canceledBody (lines : list string) : HTTPResponse :=
  mkHTTPResponse 200 ("", None) lines (Some ErrContextCanceled).

Definition transportOf (resp : HTTPResponse) : anthropic.Transport :=
  {| anthropic.doRequest := λ _, Ok resp |}.

(** A decoder for a handful of Responses event payloads. *)
Definition itemEvent (kind data : string) : result openai.OutputItem :=
  if decide (data = "{" +:+ kind +:+ " fc_a}") then
    Ok (openai.mkOutputItem "function_call" "fc_a" "call_a" "get_quote" "")
  else if decide (data = "{" +:+ kind +:+ " fc_b}") then
    Ok (openai.mkOutputItem "function_call" "fc_b" "call_b" "get_news" "")
  else if decide (data = "{" +:+ kind +:+ " fc_c}") then
    Ok (openai.mkOutputItem "function_call" "fc_c" "call_c" "get_kline" "{}")
  else if decide (data = "{" +:+ kind +:+ " msg}") then
    Ok (openai.mkOutputItem "message" "msg_1" "" "" "")
  else syntaxError.

Definition responsesWire : openai.Wire :=
  {| openai.ResponsesRequest := unit;
     openai.CreateResponseResponse := string;
     openai.setStream := λ r _, r;
     openai.Marshal_Request := λ _, Ok "{}";
     openai.Decode_CreateResponseResponse := λ body, Ok body;
     openai.Unmarshal_TextDelta := λ data,
       if decide (data = "{text hi}") then Ok "hi" else syntaxError;
     openai.Unmarshal_FuncCallArgsDelta := λ data,
       if decide (data = "{args fc_a}") then Ok (openai.mkResponsesFuncCallArgsDelta "fc_a" "{}")
       else syntaxError;
     openai.Unmarshal_OutputItemAdded := itemEvent "added";
     openai.Unmarshal_OutputItemDone := itemEvent "done";
     openai.Unmarshal_Completed := λ _, Ok None |}.

(** Helpers that pass text through: no think tags, no vendor calls. *)
Definition responsesHelpers : @openai.Helpers responsesWire :=
  {| openai.thinkTagStreamParser := unit;
     openai.newThinkTagStreamParser := tt;
     openai.Feed := λ p delta, (p, [openai.mkThinkSegment delta false]);
     openai.Flush := λ _, [];
     openai.parseVendorToolCalls := λ t, ([], t);
     openai.parseJSONArgs := λ _, [];
     openai.toResponsesRequest := λ _ _ _, Ok (tt : @openai.ResponsesRequest responsesWire);
     openai.convertResponsesResponse := λ body : @openai.CreateResponseResponse responsesWire,
       Ok (model.mkLLMResponse (genai.mkContent "model" [genai.TextPart body]) None
                               genai.FinishReasonStop false true) |}.


Definition responsesTransportOf (resp : HTTPResponse) : openai.Transport :=
  {| openai.doRequest := λ _ _, Ok resp |}.


(** An MCP SDK in which the server at endpoint "down" cannot be reached and
    every other server offers the tools [search] and [quote]. *)
Definition searchTool : mcp.Tool :=
  mcp.mkToolObj "search" "web search" false
    (Some (mcp.mkFunctionToolMethods
             (Some (genai.mkFunctionDeclaration "search" "web search" None
                                                (Some (AnyMap [])) None))
             (λ _, Ok []))).

Definition quoteTool : mcp.Tool := mcp.mkToolObj "quote" "stock quote" false None.

Definition endpointOf (t : mcp.Transport) : string :=
  match t with
  | mcp.SSEClientTransport e => e
  | mcp.CommandTransport c _ => c
  | mcp.StreamableClientTransport e _ => e
  end.

Definition sdk : mcp.SDK :=
  {| mcp.mcptoolset_New := λ t,
       if decide (endpointOf t = "down") then Err (ErrNew "unreachable")
       else Ok (mcp.mkToolsetObj "mcp" (Ok [searchTool; quoteTool]));
     mcp.Connect_ListTools := λ _ _ t,
       if decide (endpointOf t = "down") then Err (ErrNew "unreachable")
       else Ok [mcp.mkListedTool "search" "web search"] |}.

(** The toolset constructor as it behaves when it opens no connection:
    creation succeeds for every transport, and the toolset of the server at
    [down] fails when its tools are asked for. *)
Definition lazySdk : mcp.SDK :=
  {| mcp.mcptoolset_New := λ t,
       Ok (mcp.mkToolsetObj "mcp"
             (if decide (endpointOf t = "down") then Err (ErrNew "unreachable")
              else Ok [searchTool; quoteTool]));
     mcp.Connect_ListTools := λ _ _ t,
       if decide (endpointOf t = "down") then Err (ErrNew "unreachable")
       else Ok [mcp.mkListedTool "search" "web search"] |}.

Definition server (id name endpoint : string) : mcp.MCPServerConfig :=
  mcp.mkMCPServerConfig id name true mcp.MCPTransportHTTP endpoint "" [].

Definition manager : mcp.Manager :=
  mcp.LoadConfigs [server "s1" "news" "http://news"; server "s2" "broken" "down";
                   server "s3" "news" "http://other"].

(** A probe transport that answers every endpoint with [resp], and
    decoders that take the reply text to be the whole body. *)
Definition probeOf (resp : result HTTPResponse) : factory.Probe :=
  {| factory.http_Do := λ _ _ _, resp;
     factory.Unmarshal_Choices := λ body, Ok [body];
     factory.Unmarshal_OutputText := λ body, Ok body |}.

Definition reply (status : Z) (body : string) : result HTTPResponse :=
  Ok (mkHTTPResponse status (body, None) [] None).


(** Three queries for one stock, and a schedule in which the second
    supersedes the first, the first returns, and then the third arrives
    while the second is still in its meeting. *)
Definition threeQueries : app.world :=
  app.mkWorld app.NewApp
    [app.newCall "600519"; app.newCall "600519"; app.newCall "600519"].

Definition firstRuns : list nat := [0; 0; 0]%nat.
Definition secondSupersedes : list nat := [1; 1; 1]%nat.
Definition firstReturns : list nat := [0; 0]%nat.
Definition thirdArrives : list nat := [2; 2; 2]%nat.






End fixtures.

(** * Statement vocabulary *)


(** The blocks of a whole history, turn after turn, or the first encoding
    error. *)
Fixpoint historyBlocks {json : JSON} (contents : list (option genai.Content))
  : result (list anthropic.ContentBlock) :=
  match contents with
  | [] => Ok []
  | None :: rest => historyBlocks rest
  | Some c :: rest =>
      let? bs := anthropic.partsBlocks (genai.Parts c) [] in
      let? more := historyBlocks rest in
      Ok (bs ++ more)
  end.

(** The tool conversion [toAnthropicRequest] performs for a request. *)
Definition requestTools {json : JSON} (req : model.LLMRequest) : result (list anthropic.Tool) :=
  match model.Config req with
  | Some cfg =>
      if decide (0 < length (genai.Tools cfg))%nat
      then anthropic.convertTools (genai.Tools cfg) else Ok []
  | None => Ok []
  end.

(** No two neighbours of a list of roles are equal. *)
Definition alternatingRoles (roles : list string) : Prop :=
  ∀ i r1 r2, roles !! i = Some r1 → roles !! S i = Some r2 → r1 ≠ r2.

(** A partial increment and a terminal aggregate, by their flags. *)
Definition isPartial (y : yielded) : Prop :=
  match y with
  | YResp r => model.Partial r = true ∧ model.TurnComplete r = false
  | YErr _ => False
  end.

Definition isTerminal (y : yielded) : Prop :=
  match y with
  | YResp r => model.Partial r = false ∧ model.TurnComplete r = true
  | YErr _ => False
  end.

Definition isError (y : yielded) : Prop :=
  match y with
  | YResp _ => False
  | YErr _ => True
  end.

(** Whether the Anthropic scanning loop, started with event type
    [eventType], reaches a data line while the current event type is
    "error", provided it is not stopped before. *)
Fixpoint hasErrorEvent (lines : list string) (eventType : string) : bool :=
  match lines with
  | [] => false
  | line :: rest =>
      match strings.CutPrefix line "event: " with
      | Some ev => hasErrorEvent rest ev
      | None =>
          match strings.CutPrefix line "data: " with
          | None => hasErrorEvent rest eventType
          | Some _ => bool_decide (eventType = "error") || hasErrorEvent rest eventType
          end
      end
  end.

(** How a streamed sequence ends after its partial increments [ps]: with
    one terminal aggregate, with one error, or because the consumer broke out
    of its loop at the last increment. *)
Inductive streamEnd (yield : consumer) (ps : list yielded) : list yielded → Prop :=
  | EndTerminal r : isTerminal (YResp r) → streamEnd yield ps [YResp r]
  | EndError e : streamEnd yield ps [YErr e]
  | EndConsumerStopped : ps ≠ [] → yield ps = false → streamEnd yield ps [].

(** The shape the contract gives a streamed sequence: partial increments,
    then exactly one terminal aggregate or one error. *)
Definition partialsThenOne (out : list yielded) : Prop :=
  ∃ ps last, out = ps ++ [last] ∧ Forall isPartial ps ∧ (isTerminal last ∨ isError last).

(** What the contract asks of the response converter of the Responses
    adapter, whose code is not among the sources: every response it returns
    is a terminal aggregate. *)
Definition convertsToTerminal {rwire : openai.Wire} {helpers : openai.Helpers} : Prop :=
  ∀ apiResp r, openai.convertResponsesResponse apiResp = Ok r → isTerminal (YResp r).


(** The function-call item a data line announces, if any: the id of the item
    of an [output_item.added] or [output_item.done] event. *)
Definition arrivalOf {rwire : openai.Wire} (currentEventType data : string) : list string :=
  if decide (currentEventType = "response.output_item.added") then
    match openai.Unmarshal_OutputItemAdded data with
    | Ok item => if decide (openai.item_Type item = "function_call")
                 then [openai.item_ID item] else []
    | Err _ => []
    end
  else if decide (currentEventType = "response.output_item.done") then
    match openai.Unmarshal_OutputItemDone data with
    | Ok item => if decide (openai.item_Type item = "function_call")
                 then [openai.item_ID item] else []
    | Err _ => []
    end
  else [].

(** The ids of the function-call items of a Responses stream, in the order
    in which their events arrive. *)
Fixpoint functionCallArrivals {rwire : openai.Wire} (lines : list string)
    (currentEventType : string) : list string :=
  match lines with
  | [] => []
  | line :: rest =>
      match strings.CutPrefix line "event: " with
      | Some eventType => functionCallArrivals rest eventType
      | None =>
          match strings.CutPrefix line "data: " with
          | None => functionCallArrivals rest currentEventType
          | Some data =>
              if decide (data = "") then functionCallArrivals rest currentEventType
              else arrivalOf currentEventType data ++ functionCallArrivals rest ""
          end
      end
  end.

(** The first occurrence of each id not in [seen], in order. *)
Fixpoint firstSeen (seen : gset string) (ids : list string) : list string :=
  match ids with
  | [] => []
  | id :: rest =>
      if decide (id ∈ seen) then firstSeen seen rest
      else id :: firstSeen ({[id]} ∪ seen) rest
  end.










(** Every id in the order list has a builder, and conversely. *)
Definition toolsWF {rwire : openai.Wire} {helpers : openai.Helpers} (st : openai.streamState) : Prop :=
  dom (openai.toolCallsMap st) = list_to_set (openai.toolCallOrder st).

(** How one event moves the tool-call bookkeeping from [st] to [st1] when
    the event announces the ids [r]. *)
Definition toolsAdvance {rwire : openai.Wire} {helpers : openai.Helpers}
    (st st1 : openai.streamState) (r : list string) : Prop :=
  toolsWF st →
  toolsWF st1
  ∧ ∃ a, openai.toolCallOrder st1 = openai.toolCallOrder st ++ a
         ∧ ∀ l l', firstSeen (dom (openai.toolCallsMap st1)) l
                   = firstSeen (dom (openai.toolCallsMap st1)) l' →
                   firstSeen (dom (openai.toolCallsMap st)) (a ++ l)
                   = firstSeen (dom (openai.toolCallsMap st)) (r ++ l').

(** What a fetch contributes to the result: its tools, or nothing when it
    failed. *)
Definition toolsOrNothing {A} (r : result (list A)) : list A :=
  match r with
  | Ok tools => tools
  | Err _ => []
  end.

(** The toolset a selected configuration contributes, if its creation
    succeeds. *)
Definition createdToolset {sdk : mcp.SDK} (kv : string * mcp.MCPServerConfig)
  : option mcp.prefixedToolset :=
  match mcp.createToolset kv.2 with
  | Ok ts => Some ts
  | Err _ => None
  end.

(** The error line a selected configuration contributes, if its creation
    fails. *)
Definition creationFailure {sdk : mcp.SDK} (kv : string * mcp.MCPServerConfig)
  : option mcp.logLine :=
  match mcp.createToolset kv.2 with
  | Ok _ => None
  | Err err => Some (mcp.LogErrorCreateToolset kv.1 err)
  end.

(** The toolset-creation failures among some log lines. *)
Definition creationErrors (logs : list mcp.logLine) : list (string * error) :=
  omap (λ l, match l with
             | mcp.LogErrorCreateToolset id err => Some (id, err)
             | _ => None
             end) logs.

(** The content block that the accumulated state of a streamed block
    stands for. *)
Definition blockOf (bs : anthropic.blockState) : anthropic.ContentBlock :=
  anthropic.mkContentBlock (anthropic.blockType bs) (anthropic.text bs)
    (anthropic.thinking bs) (anthropic.toolID bs) (anthropic.toolName bs)
    (anthropic.toolArgs bs) "" "" false.

(** The message a stream has assembled when it ends in state [st] with the
    usage [u]: the blocks by ascending index, the last stop reason. *)
Definition assembledMessage (st : anthropic.streamState) (u : anthropic.Usage)
  : anthropic.MessagesResponse :=
  anthropic.mkMessagesResponse "" "assistant"
    (omap (λ idx, blockOf <$> anthropic.blocks st !! idx)
          (anthropic.sort_Ints (anthropic.rangeKeys (anthropic.blocks st))))
    (anthropic.stopReason st) u.

(** Handing the elements of [rest] to the consumer one by one, after it has
    received [out]: delivery goes on while [yield] returns true.  The result
    is what the consumer has received, and whether it accepted all of it. *)
Fixpoint deliver (yield : consumer) (out rest : list yielded) : list yielded * bool :=
  match rest with
  | [] => (out, true)
  | y :: rest' =>
      if yield (out ++ [y]) then deliver yield (out ++ [y]) rest'
      else (out ++ [y], false)
  end.

(** What a consumer receives of the sequence [full]. *)
Definition received (yield : consumer) (full : list yielded) : list yielded :=
  (deliver yield [] full).1.

(** The function declarations of the non-nil tools of a request, in order. *)
Definition allDeclarations (genaiTools : list (option genai.Tool))
  : list genai.FunctionDeclaration :=
  flat_map (λ t, match t with
                 | Some gt => genai.FunctionDeclarations gt
                 | None => []
                 end) genaiTools.

(** The schema value [convertTools] encodes for a declaration: the JSON
    schema when set, else the [Parameters] pointer, nil or not. *)
Definition schemaOf (fd : genai.FunctionDeclaration) : any :=
  match genai.fd_ParametersJsonSchema fd with
  | Some s => s
  | None => default AnyNil (genai.fd_Parameters fd)
  end.

(** The text an increment carries as thought ([thought = true]) or as
    answer text ([thought = false]). *)
Definition incrementText (thought : bool) (y : yielded) : string :=
  match y with
  | YResp r =>
      match genai.Parts (model.Content r) with
      | [p] => if bool_decide (genai.Thought p = thought) then genai.Text p else ""
      | _ => ""
      end
  | YErr _ => ""
  end.

Definition incrementsText (thought : bool) (out : list yielded) : string :=
  foldr (λ y acc, incrementText thought y +:+ acc) "" out.

(** The function declarations a request carries, over all the tools of its
    configuration, and their names. *)
Definition declarationsOf (tools : list (option mcp.requestTool))
  : list genai.FunctionDeclaration :=
  flat_map (λ t, match t with
                 | Some rt => default [] (mcp.rt_FunctionDeclarations rt)
                 | None => []
                 end) tools.

Definition declaredNames (req : mcp.toolRequest) : list string :=
  genai.fd_Name <$> declarationsOf (default [] (mcp.rq_Config req)).

(** The tools registered in a request, a nil map counting as empty. *)
Definition registered (req : mcp.toolRequest) : gmap string mcp.registeredTool :=
  default ∅ (mcp.rq_Tools req).

(** No name is declared twice, and every declared name is registered. *)
Definition requestWF (req : mcp.toolRequest) : Prop :=
  NoDup (declaredNames req)
  ∧ Forall (λ n, is_Some (registered req !! n)) (declaredNames req).

(** A call that has registered its cancel function and has not yet run its
    deferred cleanup. *)
Definition pending (p : app.pc) : bool :=
  match p with
  | app.AtPrepare _ | app.InMeeting _ | app.AtCleanup => true
  | _ => false
  end.

(** The registry of cancel functions is in order: every registered context
    was created before, is not cancelled, and belongs to a stock for which
    some call is between registering and cleaning up; cancelled contexts
    were created before; no context is registered for two stocks. *)
Definition registryWF (w : app.world) : Prop :=
  (∀ k tok, app.meetingCancels (app.theApp w) !! k = Some tok →
     (tok < app.nextToken (app.theApp w))%nat
     ∧ (tok ∉ app.canceled (app.theApp w))
     ∧ ∃ g c, app.calls w !! g = Some c ∧ app.StockCode c = k
              ∧ pending (app.at_ c) = true)
  ∧ (∀ tok, tok ∈ app.canceled (app.theApp w) → (tok < app.nextToken (app.theApp w))%nat)
  ∧ (∀ k k' tok, app.meetingCancels (app.theApp w) !! k = Some tok →
                 app.meetingCancels (app.theApp w) !! k' = Some tok → k = k').

(** A tool as the description builder sees it: its name, its description and
    the line that describes it; and the section of the description it is
    listed in. *)
Definition toolEntry : Type := string * string * string.

Inductive toolSection : Type := SearchSection | DataSection | OtherSection.

#[global] Instance toolSection_eq_dec : EqDecision toolSection.
Proof. solve_decision. Defined.

Definition sectionOf (ToLower : string → string) (e : toolEntry) : toolSection :=
  if adk.isSearchTool ToLower e.1.1 e.1.2 adk.searchKeywords then SearchSection
  else if adk.isDataTool ToLower e.1.1 then DataSection
  else OtherSection.

Definition builtinEntry (info : adk.ToolInfo) : toolEntry :=
  (adk.info_Name info, adk.info_Description info, adk.builtinLine info).

Definition mcpEntry (info : mcp.ToolInfo) : toolEntry :=
  (mcp.ti_Name info, mcp.ti_Description info, adk.mcpLine info).

(** The lines of the entries of one section, in their order. *)
Definition sectionLines (ToLower : string → string) (sec : toolSection)
    (entries : list toolEntry) : list string :=
  snd <$> filter (λ e, sectionOf ToLower e = sec) entries.

(** Call [g] is the only call for the stock [code], and while it is between
    registering and the end of its meeting, the context registered for
    [code] is its own. *)
Definition soleCallFor (w : app.world) (g : nat) (code : string) : Prop :=
  (∀ g' c', app.calls w !! g' = Some c' → g' ≠ g → app.StockCode c' ≠ code)
  ∧ ∀ c, app.calls w !! g = Some c →
         app.StockCode c = code
         ∧ ∀ ctx, app.at_ c = app.AtPrepare ctx ∨ app.at_ c = app.InMeeting ctx →
                  app.meetingCancels (app.theApp w) !! code = Some ctx.

(** What a yielded element may be when it is flagged partial: a response
    whose content is one text or thought part and nothing else, the text
    non-empty when [nonEmpty] is set. *)
Definition partialIsText (nonEmpty : bool) (y : yielded) : Prop :=
  match y with
  | YResp r =>
      model.Partial r = true →
      ∃ t thought, (nonEmpty = true → t ≠ "")
                   ∧ model.Content r
                     = genai.mkContent "model" [genai.mkPart t thought None None]
  | YErr _ => True
  end.

(** The turns of a history that reach the wire: for every non-nil content
    that converts to at least one block, its Anthropic role and its blocks;
    or the first encoding error. *)
Fixpoint turnsOf {json : JSON} (contents : list (option genai.Content))
  : result (list (string * list anthropic.ContentBlock)) :=
  match contents with
  | [] => Ok []
  | None :: rest => turnsOf rest
  | Some c :: rest =>
      let? bs := anthropic.partsBlocks (genai.Parts c) [] in
      let? more := turnsOf rest in
      if decide (bs = []) then Ok more else Ok ((anthropic.roleOf c, bs) :: more)
  end.

(** A message holds a run of turns: the run is not empty, every turn of it
    has the role of the message, and the content of the message is the
    blocks of the run's turns, one turn after the other. *)
Definition holdsRun (m : anthropic.Message)
    (run : list (string * list anthropic.ContentBlock)) : Prop :=
  run ≠ []
  ∧ Forall (λ turn, turn.1 = anthropic.msg_Role m) run
  ∧ anthropic.msg_Content m = concat (snd <$> run).



(** * Properties of the Anthropic converters *)

Section anthropic_convert_properties.
Context {json : JSON}.
Import anthropic.

Lemma partsBlocks_acc parts blocks :
  partsBlocks parts blocks =
    let? bs := partsBlocks parts [] in Ok (blocks ++ bs).
Proof.
  revert blocks. induction parts as [|part rest IH]; intros blocks; simpl.
  - by rewrite app_nil_r.
  - destruct (partBlocks part) as [bs|e]; simpl; [|done].
    rewrite (IH (blocks ++ bs)), (IH bs).
    destruct (partsBlocks rest []) as [more|e]; simpl; [|done].
    by rewrite app_assoc.
Qed.




(** Roles of the message list after one turn has been added. *)
Lemma appendOrMerge_roles msgs role blocks :
  msg_Role <$> appendOrMerge msgs role blocks =
    if decide (last (msg_Role <$> msgs) = Some role)
    then msg_Role <$> msgs
    else (msg_Role <$> msgs) ++ [role].
Proof.
  unfold appendOrMerge. rewrite fmap_last, last_lookup.
  replace (pred (length msgs)) with (length msgs - 1)%nat by lia.
  destruct (msgs !! (length msgs - 1)%nat) as [lastMsg|] eqn:Hl; simpl.
  - assert (0 < length msgs)%nat.
    { apply lookup_lt_Some in Hl. lia. }
    destruct (decide (0 < length msgs ∧ msg_Role lastMsg = role)%nat) as [[_ Hr]|Hn].
    + rewrite decide_True by (by rewrite Hr).
      rewrite list_fmap_insert. simpl. apply list_insert_id.
      by rewrite list_lookup_fmap, Hl.
    + rewrite decide_False by (intros [=]; apply Hn; done).
      by rewrite fmap_app.
  - by rewrite fmap_app.
Qed.

Lemma appendOrMerge_blocks msgs role blocks :
  concat (msg_Content <$> appendOrMerge msgs role blocks)
  = concat (msg_Content <$> msgs) ++ blocks.
Proof.
  unfold appendOrMerge.
  destruct msgs as [|lastMsg init _] using rev_ind; [by simpl; rewrite app_nil_r|].
  rewrite length_app; simpl.
  replace (length init + 1 - 1)%nat with (length init) by lia.
  rewrite list_lookup_middle by done.
  destruct (decide _) as [_|_].
  - rewrite insert_app_r_alt by lia. rewrite Nat.sub_diag. simpl.
    rewrite !fmap_app, !concat_app. simpl. rewrite !app_nil_r.
    by rewrite app_assoc.
  - rewrite !fmap_app, !concat_app. simpl. by rewrite !app_nil_r.
Qed.

Lemma alternatingRoles_snoc roles role :
  alternatingRoles roles → last roles ≠ Some role →
  alternatingRoles (roles ++ [role]).
Proof.
  intros Halt Hlast i r1 r2 H1 H2.
  destruct (decide (S i < length roles)%nat) as [Hlt|Hge].
  - rewrite lookup_app_l in H1 by lia. rewrite lookup_app_l in H2 by lia. eauto.
  - assert (S i = length roles) as Hi.
    { apply lookup_lt_Some in H2. rewrite length_app in H2. simpl in H2. lia. }
    rewrite lookup_app_l in H1 by lia.
    rewrite Hi, lookup_app_r in H2 by lia.
    rewrite Nat.sub_diag in H2. simpl in H2. injection H2 as <-.
    intros ->. apply Hlast. rewrite last_lookup.
    replace (pred (length roles)) with i by lia. done.
Qed.

Lemma appendOrMerge_alternating msgs role blocks :
  alternatingRoles (msg_Role <$> msgs) →
  alternatingRoles (msg_Role <$> appendOrMerge msgs role blocks).
Proof.
  intros Halt. rewrite appendOrMerge_roles.
  destruct (decide _) as [|Hn]; [done|]. by apply alternatingRoles_snoc.
Qed.

Lemma appendOrMerge_role_values msgs role blocks :
  Forall (λ r, r = "user" ∨ r = "assistant") (msg_Role <$> msgs) →
  role = "user" ∨ role = "assistant" →
  Forall (λ r, r = "user" ∨ r = "assistant") (msg_Role <$> appendOrMerge msgs role blocks).
Proof.
  intros Hall Hr. rewrite appendOrMerge_roles.
  destruct (decide _); [done|]. apply Forall_app. split; [done|]. by constructor.
Qed.

Lemma appendOrMerge_snoc init lastMsg role blocks :
  appendOrMerge (init ++ [lastMsg]) role blocks =
    if decide (msg_Role lastMsg = role)
    then init ++ [mkMessage (msg_Role lastMsg) (msg_Content lastMsg ++ blocks)]
    else init ++ [lastMsg; mkMessage role blocks].
Proof.
  unfold appendOrMerge. rewrite length_app; simpl.
  replace (length init + 1 - 1)%nat with (length init) by lia.
  rewrite list_lookup_middle by done.
  destruct (decide (msg_Role lastMsg = role)) as [Hr|Hr].
  - rewrite decide_True by (split; [lia|done]).
    rewrite insert_app_r_alt by lia. by rewrite Nat.sub_diag.
  - rewrite decide_False by (intros [_ ?]; done). by rewrite <- app_assoc.
Qed.

(** One more turn: the messages hold the runs of the turns so far, the last
    run extended when the role is the same, a new run otherwise. *)
Lemma appendOrMerge_runs msgs runs role blocks :
  Forall2 holdsRun msgs runs →
  ∃ runs', Forall2 holdsRun (appendOrMerge msgs role blocks) runs'
           ∧ concat runs' = concat runs ++ [(role, blocks)].
Proof.
  intros Hruns.
  destruct msgs as [|lastMsg init _] using rev_ind.
  { apply Forall2_nil_inv_l in Hruns as ->. exists [[(role, blocks)]].
    split; [|done]. constructor; [|constructor].
    split; [done|]. split; [by constructor|]. simpl. by rewrite app_nil_r. }
  apply Forall2_app_inv_l in Hruns as (runs0 & lastRuns & Hinit & Hlast & ->).
  apply Forall2_cons_inv_l in Hlast as (run & rest & (Hne & Hroles & Hcontent) & Hnil & ->).
  apply Forall2_nil_inv_l in Hnil as ->.
  rewrite appendOrMerge_snoc. destruct (decide (msg_Role lastMsg = role)) as [Hr|Hr].
  - exists (runs0 ++ [run ++ [(role, blocks)]]). split.
    + apply Forall2_app; [done|]. constructor; [|constructor].
      split; [by destruct run|]. split.
      * apply Forall_app. split; [done|]. by constructor.
      * simpl. rewrite Hcontent, fmap_app, concat_app. simpl. by rewrite app_nil_r.
    + rewrite !concat_app. simpl. by rewrite !app_nil_r, app_assoc.
  - exists (runs0 ++ [run; [(role, blocks)]]). split.
    + apply Forall2_app; [done|]. constructor; [done|]. constructor; [|constructor].
      split; [done|]. split; [by constructor|]. simpl. by rewrite app_nil_r.
    + rewrite !concat_app. simpl. by rewrite !app_nil_r, <- !app_assoc.
Qed.

Lemma toAnthropicMessages_from_runs contents : ∀ msgs runs out,
  toAnthropicMessages_from msgs contents = Ok out →
  Forall2 holdsRun msgs runs →
  ∃ turns runs', turnsOf contents = Ok turns
                 ∧ Forall2 holdsRun out runs'
                 ∧ concat runs' = concat runs ++ turns.
Proof.
  induction contents as [|[c|] rest IH]; intros msgs runs out; simpl.
  - intros [= <-] Hruns. exists [], runs. by rewrite app_nil_r.
  - destruct (partsBlocks (genai.Parts c) []) as [bs|e]; simpl; [|done].
    destruct (decide (length bs = 0%nat)) as [Hz|Hnz].
    + intros Hrun Hruns. apply length_zero_iff_nil in Hz. subst bs.
      destruct (IH _ _ _ Hrun Hruns) as (turns & runs' & -> & H1 & H2).
      exists turns, runs'. simpl. done.
    + intros Hrun Hruns.
      destruct (appendOrMerge_runs msgs runs (roleOf c) bs Hruns) as (runs1 & Hruns1 & Hcat1).
      destruct (IH _ _ _ Hrun Hruns1) as (turns & runs' & -> & H1 & H2).
      exists ((roleOf c, bs) :: turns), runs'. simpl.
      rewrite decide_False by (intros ->; by apply Hnz).
      split; [done|]. split; [done|]. by rewrite H2, Hcat1, <- app_assoc.
  - apply IH.
Qed.

Lemma roleOf_values c : roleOf c = "user" ∨ roleOf c = "assistant".
Proof. unfold roleOf. destruct (decide _); auto. Qed.

Lemma toAnthropicMessages_from_spec contents : ∀ msgs out,
  toAnthropicMessages_from msgs contents = Ok out →
  (alternatingRoles (msg_Role <$> msgs) → alternatingRoles (msg_Role <$> out))
  ∧ (Forall (λ r, r = "user" ∨ r = "assistant") (msg_Role <$> msgs) →
     Forall (λ r, r = "user" ∨ r = "assistant") (msg_Role <$> out))
  ∧ (Forall (λ m, msg_Content m ≠ []) msgs → Forall (λ m, msg_Content m ≠ []) out)
  ∧ ∃ bs, historyBlocks contents = Ok bs
          ∧ concat (msg_Content <$> out) = concat (msg_Content <$> msgs) ++ bs.
Proof.
  induction contents as [|[c|] rest IH]; intros msgs out; simpl.
  - intros [= <-]. repeat split; auto. exists []. by rewrite app_nil_r.
  - destruct (partsBlocks (genai.Parts c) []) as [bs|e]; simpl; [|done].
    destruct (decide (length bs = 0%nat)) as [Hz|Hnz].
    + intros Hrun. destruct (IH _ _ Hrun) as (Ha & Hv & Hne & more & -> & Hc).
      repeat split; auto. exists (bs ++ more). split; [done|].
      apply length_zero_iff_nil in Hz. by subst bs.
    + intros Hrun. destruct (IH _ _ Hrun) as (Ha & Hv & Hne & more & -> & Hc).
      split; [|split; [|split]].
      * intros H0. by apply Ha, appendOrMerge_alternating.
      * intros H0. apply Hv, appendOrMerge_role_values; [done|apply roleOf_values].
      * intros H0. apply Hne. unfold appendOrMerge.
        assert (bs ≠ []) by (intros ->; by apply Hnz).
        destruct (msgs !! (length msgs - 1)%nat) as [lastMsg|] eqn:Hl.
        -- destruct (decide _).
           ++ apply Forall_insert; [done|]. simpl. intros Happ.
              apply app_eq_nil in Happ as [_ ?]. done.
           ++ apply Forall_app. split; [done|]. by constructor.
        -- apply Forall_app. split; [done|]. by constructor.
      * exists (bs ++ more). split; [done|].
        by rewrite Hc, appendOrMerge_blocks, app_assoc.
  - apply IH.
Qed.

Lemma partBlocks_total part :
  (∀ v, is_ok (json_Marshal v) = true) → is_ok (partBlocks part) = true.
Proof.
  intros Hm. unfold partBlocks, toToolResultContent.
  destruct (genai.Thought part); [done|].
  destruct (genai.FunctionCall_ part) as [fc|]; simpl.
  - specialize (Hm (AnyMap (genai.fc_Args fc))) as H1.
    destruct (json_Marshal (AnyMap (genai.fc_Args fc))); [simpl|done].
    destruct (genai.FunctionResponse_ part) as [fr|]; simpl; [|done].
    destruct (genai.fr_Response fr) eqn:Hr; simpl;
      repeat match goal with
      | |- context [json_Marshal ?v] =>
          let H := fresh in specialize (Hm v) as H;
          destruct (json_Marshal v); [simpl|done]
      end; done.
  - destruct (genai.FunctionResponse_ part) as [fr|]; simpl; [|done].
    destruct (genai.fr_Response fr) eqn:Hr; simpl;
      repeat match goal with
      | |- context [json_Marshal ?v] =>
          let H := fresh in specialize (Hm v) as H;
          destruct (json_Marshal v); [simpl|done]
      end; done.
Qed.

Lemma partsBlocks_total parts blocks :
  (∀ v, is_ok (json_Marshal v) = true) → is_ok (partsBlocks parts blocks) = true.
Proof.
  intros Hm. revert blocks. induction parts as [|part rest IH]; intros blocks; [done|].
  simpl. pose proof (partBlocks_total part Hm) as Hp.
  destruct (partBlocks part); [simpl; apply IH|done].
Qed.

Lemma toAnthropicMessages_from_total contents msgs :
  (∀ v, is_ok (json_Marshal v) = true) →
  is_ok (toAnthropicMessages_from msgs contents) = true.
Proof.
  intros Hm. revert msgs. induction contents as [|[c|] rest IH]; intros msgs; simpl; auto.
  pose proof (partsBlocks_total (genai.Parts c) [] Hm) as Hp.
  destruct (partsBlocks (genai.Parts c) []); [simpl|done].
  destruct (decide _); apply IH.
Qed.

End anthropic_convert_properties.

Section anthropic_request_properties.
Context {json : JSON}.
Import anthropic.

Lemma toAnthropicRequest_ok req modelName :
  is_ok (toAnthropicRequest req modelName)
  = is_ok (toAnthropicMessages (model.Contents req)) && is_ok (requestTools req).
Proof.
  unfold toAnthropicRequest, requestTools.
  destruct (toAnthropicMessages (model.Contents req)); simpl; [|done].
  destruct (model.Config req) as [cfg|]; simpl; [|done].
  destruct (decide (0 < length (genai.Tools cfg))%nat); [|done].
  by destruct (convertTools (genai.Tools cfg)).
Qed.

Lemma toAnthropicRequest_MaxTokens req modelName ar :
  toAnthropicRequest req modelName = Ok ar →
  req_MaxTokens ar =
    match model.Config req with
    | Some cfg =>
        if decide (0 < genai.MaxOutputTokens cfg) then genai.MaxOutputTokens cfg else 4096
    | None => 4096
    end.
Proof.
  unfold toAnthropicRequest.
  destruct (toAnthropicMessages (model.Contents req)); simpl; [|done].
  destruct (model.Config req) as [cfg|]; simpl.
  - destruct (decide (0 < length (genai.Tools cfg))%nat).
    + destruct (convertTools (genai.Tools cfg)); simpl; [|done]. by intros [= <-].
    + simpl. by intros [= <-].
  - by intros [= <-].
Qed.

(** C2. Consecutive turns of the same logical role are merged by the
    Anthropic converter into a single message: the turns that reach the
    wire (the non-nil contents with at least one block) split, in their
    order, into runs, one non-empty run per returned message, such that
    every turn of a run has the role of its message and the content of the
    message is the blocks of the run's turns in order; no two adjacent
    messages have the same role, so the runs are the maximal ones.  Every
    message is a non-empty "user" or "assistant" message, and the blocks of
    the history are all there, in their order.  The converter fails only
    when an encoder fails. *)
Theorem C2_same_role_turns_merged (contents : list (option genai.Content)) :
  ((∀ v, is_ok (json_Marshal v) = true) → is_ok (toAnthropicMessages contents) = true)
  ∧ ∀ msgs, toAnthropicMessages contents = Ok msgs →
      (∀ i m1 m2, msgs !! i = Some m1 → msgs !! S i = Some m2 →
                  msg_Role m1 ≠ msg_Role m2)
      ∧ Forall (λ m, (msg_Role m = "user" ∨ msg_Role m = "assistant")
                     ∧ msg_Content m ≠ []) msgs
      ∧ historyBlocks contents = Ok (concat (msg_Content <$> msgs))
      ∧ ∃ turns runs, turnsOf contents = Ok turns
                      ∧ concat runs = turns
                      ∧ Forall2 holdsRun msgs runs.
Proof.
  split; [apply toAnthropicMessages_from_total|].
  intros msgs Hrun.
  destruct (toAnthropicMessages_from_spec contents [] msgs Hrun)
    as (Halt & Hval & Hne & bs & Hbs & Hcat).
  split; [|split; [|split]]; cycle 3.
  { destruct (toAnthropicMessages_from_runs contents [] [] msgs Hrun ltac:(constructor))
      as (turns & runs & Hturns & Hruns & Hcat').
    by exists turns, runs. }
  - intros i m1 m2 H1 H2. apply (Halt ltac:(by intros [|?] ? ? ?) i).
    + by rewrite list_lookup_fmap, H1.
    + by rewrite list_lookup_fmap, H2.
  - specialize (Hval ltac:(constructor)). specialize (Hne ltac:(constructor)).
    rewrite Forall_fmap in Hval. rewrite Forall_forall in Hval, Hne.
    apply Forall_forall. intros m Hm. split; [apply Hval|apply Hne]; done.
  - by rewrite Hbs, Hcat.
Qed.

(** C9. The outgoing [max_tokens] is the default 4096 when no positive
    [MaxOutputTokens] is configured, the configured value when one is, and
    positive in every request the converter returns; the converter returns
    a request whenever the messages and the tools convert. *)
Theorem C9_max_tokens_default_or_configured (req : model.LLMRequest) (modelName : string) :
  is_ok (toAnthropicRequest req modelName)
    = is_ok (toAnthropicMessages (model.Contents req)) && is_ok (requestTools req)
  ∧ ∀ ar, toAnthropicRequest req modelName = Ok ar →
      (model.Config req = None → req_MaxTokens ar = 4096)
      ∧ (∀ cfg, model.Config req = Some cfg → genai.MaxOutputTokens cfg ≤ 0 →
                req_MaxTokens ar = 4096)
      ∧ (∀ cfg, model.Config req = Some cfg → 0 < genai.MaxOutputTokens cfg →
                req_MaxTokens ar = genai.MaxOutputTokens cfg)
      ∧ 0 < req_MaxTokens ar.
Proof.
  split; [apply toAnthropicRequest_ok|].
  intros ar Hrun. pose proof (toAnthropicRequest_MaxTokens _ _ _ Hrun) as Hmax.
  repeat split.
  - intros Hc. by rewrite Hc in Hmax.
  - intros cfg Hc Hle. rewrite Hc in Hmax. by rewrite decide_False in Hmax by lia.
  - intros cfg Hc Hlt. rewrite Hc in Hmax. by rewrite decide_True in Hmax by lia.
  - rewrite Hmax. destruct (model.Config req) as [cfg|]; [|lia].
    destruct (decide _); lia.
Qed.

End anthropic_request_properties.

(** Two user turns and a model turn: two messages, the user turns merged. *)
Lemma C2_same_role_turns_merged_witness :
  let contents := [fixtures.userText "part1"; fixtures.userText "part2";
                   fixtures.modelText "reply"] in
  let msgs := [anthropic.mkMessage "user"
                 [anthropic.textBlock "part1"; anthropic.textBlock "part2"];
               anthropic.mkMessage "assistant" [anthropic.textBlock "reply"]] in
  is_ok (anthropic.toAnthropicMessages (json := fixtures.json) contents) = true
  ∧ (∀ i m1 m2, msgs !! i = Some m1 → msgs !! S i = Some m2 →
                anthropic.msg_Role m1 ≠ anthropic.msg_Role m2)
  ∧ Forall (λ m, (anthropic.msg_Role m = "user" ∨ anthropic.msg_Role m = "assistant")
                 ∧ anthropic.msg_Content m ≠ []) msgs
  ∧ historyBlocks (json := fixtures.json) contents
    = Ok (concat (anthropic.msg_Content <$> msgs))
  ∧ ∃ turns runs, turnsOf (json := fixtures.json) contents = Ok turns
                  ∧ concat runs = turns
                  ∧ Forall2 holdsRun msgs runs.
Proof.
  intros contents msgs.
  destruct (C2_same_role_turns_merged (json := fixtures.json) contents) as [Htotal Hspec].
  split.
  - apply Htotal. intros v. reflexivity.
  - apply (Hspec msgs). reflexivity.
Defined.

(** A request with [MaxOutputTokens = 0] goes out with [max_tokens = 4096]. *)
Lemma C9_max_tokens_default_or_configured_witness :
  let req := fixtures.request 0 [fixtures.userText "hello"] in
  let ar := anthropic.mkMessagesRequest "claude"
              [anthropic.mkMessage "user" [anthropic.textBlock "hello"]]
              "" 4096 None None false [] [] in
  (model.Config req = None → anthropic.req_MaxTokens ar = 4096)
  ∧ (∀ cfg, model.Config req = Some cfg → genai.MaxOutputTokens cfg ≤ 0 →
            anthropic.req_MaxTokens ar = 4096)
  ∧ (∀ cfg, model.Config req = Some cfg → 0 < genai.MaxOutputTokens cfg →
            anthropic.req_MaxTokens ar = genai.MaxOutputTokens cfg)
  ∧ 0 < anthropic.req_MaxTokens ar.
Proof.
  intros req ar.
  destruct (C9_max_tokens_default_or_configured (json := fixtures.json) req "claude")
    as [_ Hspec].
  apply (Hspec ar). reflexivity.
Defined.


(** * Properties of the Anthropic stream processor *)

Section anthropic_stream_properties.
Context {json : JSON} {wire : anthropic.Wire} (yield : consumer).
Import anthropic.

Lemma isPartial_partialResponse part : isPartial (YResp (partialResponse part)).
Proof. by split. Qed.

Lemma yieldPartial_cases part out out' e :
  yieldPartial yield part out = (out', e) →
  out' = out ++ [YResp (partialResponse part)]
  ∧ (e = None ∧ yield out' = true ∨ e = Some ErrStopIteration ∧ yield out' = false).
Proof.
  unfold yieldPartial. intros [= <- <-]. split; [done|].
  destruct (yield _); auto.
Qed.

(** What one [content_block_delta] can do to the output: nothing, or one
    partial increment, after which the consumer may have stopped. *)
Lemma handleDelta_cases data blocks out blocks' out' e :
  handleDelta yield data blocks out = (blocks', out', e) →
  (out' = out ∧ e = None)
  ∨ (∃ part, out' = out ++ [YResp (partialResponse part)]
             ∧ (e = None ∧ yield out' = true
                ∨ e = Some ErrStopIteration ∧ yield out' = false)).
Proof.
  unfold handleDelta.
  destruct (Unmarshal_SSEContentBlockDelta data) as [ev|?]; [|intros [= <- <- <-]; auto].
  destruct (blocks !! cbd_Index ev) as [bs|]; [|intros [= <- <- <-]; auto].
  repeat (destruct (decide _) as [?|?]).
  - destruct (yieldPartial yield _ out) as [o x] eqn:Hy. intros [= <- <- <-].
    apply yieldPartial_cases in Hy as [-> Hy]. right. eauto.
  - destruct (yieldPartial yield _ out) as [o x] eqn:Hy. intros [= <- <- <-].
    apply yieldPartial_cases in Hy as [-> Hy]. right. eauto.
  - intros [= <- <- <-]; auto.
  - intros [= <- <- <-]; auto.
Qed.

Lemma handleSSEEvent_error data st out :
  ∃ msg, handleSSEEvent yield "error" data st out = (st, out, Some (ErrNew msg)).
Proof.
  unfold handleSSEEvent. simpl.
  destruct (Unmarshal_SSEError data); eauto.
Qed.

Lemma handleSSEEvent_cases eventType data st out st' out' e :
  eventType ≠ "error" →
  handleSSEEvent yield eventType data st out = (st', out', e) →
  (out' = out ∧ e = None)
  ∨ (∃ part, out' = out ++ [YResp (partialResponse part)]
             ∧ (e = None ∧ yield out' = true
                ∨ e = Some ErrStopIteration ∧ yield out' = false)).
Proof.
  intros Hne. unfold handleSSEEvent.
  destruct (decide (eventType = "message_start")).
  { destruct (Unmarshal_SSEMessageStart data); intros [= <- <- <-]; auto. }
  destruct (decide (eventType = "content_block_start")).
  { destruct (Unmarshal_SSEContentBlockStart data); intros [= <- <- <-]; auto. }
  destruct (decide (eventType = "content_block_delta")).
  { destruct (handleDelta yield data (blocks st) out) as [[b o] x] eqn:Hd.
    intros [= <- <- <-]. by apply handleDelta_cases in Hd. }
  destruct (decide (eventType = "content_block_stop")).
  { intros [= <- <- <-]; auto. }
  destruct (decide (eventType = "message_delta")).
  { destruct (Unmarshal_SSEMessageDelta data); intros [= <- <- <-]; auto. }
  destruct (decide (eventType = "message_stop")).
  { intros [= <- <- <-]; auto. }
  rewrite decide_False by done. intros [= <- <- <-]; auto.
Qed.

(** The scanning loop only adds partial increments; it returns from inside
    the loop exactly at an error event or when the consumer stops. *)
Lemma scanLoop_cases lines : ∀ eventType st out,
  match scanLoop yield lines eventType st out with
  | inl out' =>
      ∃ ps, Forall isPartial ps
            ∧ ((∃ msg, out' = out ++ ps ++ [YErr (ErrNew msg)])
                 ∧ hasErrorEvent lines eventType = true
               ∨ out' = out ++ ps ∧ ps ≠ [] ∧ yield out' = false)
  | inr (st', out') =>
      ∃ ps, Forall isPartial ps ∧ out' = out ++ ps
            ∧ hasErrorEvent lines eventType = false
  end.
Proof.
  induction lines as [|line rest IH]; intros eventType st out; simpl.
  { exists []. by rewrite app_nil_r. }
  destruct (strings.CutPrefix line "event: ") as [ev|]; [apply IH|].
  destruct (strings.CutPrefix line "data: ") as [data|]; [|apply IH].
  destruct (decide (eventType = "error")) as [->|Hne].
  { destruct (handleSSEEvent_error data st out) as [msg ->]. simpl.
    exists []. split; [done|]. left. split; [by exists msg|done]. }
  rewrite bool_decide_eq_false_2 by done. simpl.
  destruct (handleSSEEvent yield eventType data st out) as [[st1 out1] e] eqn:Hev.
  apply (handleSSEEvent_cases _ _ _ _ _ _ _ Hne) in Hev
    as [[-> ->]|(part & -> & [[-> Hy]|[-> Hy]])].
  - apply IH.
  - specialize (IH eventType st1 (out ++ [YResp (partialResponse part)])).
    destruct (scanLoop yield rest eventType st1 _) as [out'|[st' out']].
    + destruct IH as (ps & Hps & Hc). exists (YResp (partialResponse part) :: ps).
      split; [constructor; [apply isPartial_partialResponse|done]|].
      destruct Hc as [[[msg ->] Hh]|(-> & Hn & Hy')].
      * left. split; [|done]. exists msg. by rewrite <- app_assoc.
      * right. split; [by rewrite <- app_assoc|done].
    + destruct IH as (ps & Hps & -> & Hh). exists (YResp (partialResponse part) :: ps).
      split; [constructor; [apply isPartial_partialResponse|done]|].
      by rewrite <- app_assoc.
  - simpl. exists [YResp (partialResponse part)].
    split; [constructor; [apply isPartial_partialResponse|done]|].
    right. done.
Qed.

Lemma isTerminal_finalResponse aggregated st :
  isTerminal (YResp (finalResponse aggregated st)).
Proof. by split. Qed.

(** The shape of every sequence [processStream] yields. *)
Lemma processStream_cases body :
  ∃ ps tail, processStream yield body = ps ++ tail ∧ Forall isPartial ps
    ∧ ((∃ msg, tail = [YErr (ErrNew msg)]) ∧ hasErrorEvent (body_Lines body) "" = true
       ∨ (tail = [] ∧ ps ≠ [] ∧ yield ps = false)
       ∨ (hasErrorEvent (body_Lines body) "" = false
          ∧ match body_ScanErr body with
            | Some err =>
                if errors_Is_Canceled err then tail = []
                else tail = [YErr (ErrWrap "SSE read error" err)]
            | None =>
                ∃ st, scanLoop yield (body_Lines body) "" initialState [] = inr (st, ps)
                      ∧ tail = [YResp (finalResponse (genai.mkContent "model" []) st)]
            end)).
Proof.
  unfold processStream.
  pose proof (scanLoop_cases (body_Lines body) "" initialState []) as Hloop.
  destruct (scanLoop yield (body_Lines body) "" initialState []) as [out|[st out]] eqn:Hscan.
  - destruct Hloop as (ps & Hps & [[[msg ->] Hh]|(-> & Hn & Hy)]).
    + exists ps, [YErr (ErrNew msg)]. simpl. split; [done|]. split; [done|]. left. eauto.
    + exists ps, []. simpl. rewrite app_nil_r. split; [done|]. split; [done|]. right. left. done.
  - destruct Hloop as (ps & Hps & -> & Hh). simpl.
    destruct (body_ScanErr body) as [err|] eqn:Herr.
    + destruct (errors_Is_Canceled err) eqn:Hc; simpl.
      * exists ps, []. rewrite app_nil_r. split; [done|]. split; [done|].
        right. right. done.
      * exists ps, [YErr (ErrWrap "SSE read error" err)]. split; [done|]. split; [done|].
        right. right. done.
    + exists ps, [YResp (finalResponse (genai.mkContent "model" []) st)].
      split; [done|]. split; [done|]. right. right. eauto.
Qed.

End anthropic_stream_properties.

Section anthropic_order_properties.
Context {json : JSON}.
Import anthropic.





Lemma blockParts_length bs : (length (blockParts bs) ≤ 1)%nat.
Proof. unfold blockParts. repeat (destruct (decide _)); simpl; lia. Qed.


End anthropic_order_properties.

(** * Properties of the OpenAI Responses stream processor *)

Section openai_stream_properties.
Context {rwire : openai.Wire} {helpers : openai.Helpers} (yield : consumer).
Import openai.

Lemma toolsAdvance_same st st1 :
  toolCallsMap st1 = toolCallsMap st → toolCallOrder st1 = toolCallOrder st →
  toolsAdvance st st1 [].
Proof.
  intros Hm Ho Hwf. unfold toolsWF. rewrite Hm, Ho. split; [done|].
  exists []. by rewrite app_nil_r.
Qed.

Lemma toolsAdvance_update st id b :
  is_Some (toolCallsMap st !! id) →
  toolsAdvance st (withTools st (<[id := b]> (toolCallsMap st)) (toolCallOrder st)) [].
Proof.
  intros Hin Hwf. unfold toolsWF in *. simpl.
  assert (dom (<[id := b]> (toolCallsMap st)) = dom (toolCallsMap st)) as Hd.
  { rewrite dom_insert_L. apply elem_of_dom in Hin. set_solver. }
  rewrite Hd. split; [done|]. exists []. by rewrite app_nil_r.
Qed.

Lemma toolsAdvance_append st id b :
  toolsAdvance st (withTools st (<[id := b]> (toolCallsMap st)) (toolCallOrder st ++ [id]))
               [id].
Proof.
  intros Hwf. unfold toolsWF in *. simpl. rewrite dom_insert_L.
  split.
  - rewrite list_to_set_app_L, Hwf. simpl. set_solver.
  - exists [id]. split; [done|]. intros l l' Heq. simpl.
    destruct (decide (id ∈ dom (toolCallsMap st))) as [Hin|Hnin]; [|by rewrite Heq].
    replace ({[id]} ∪ dom (toolCallsMap st)) with (dom (toolCallsMap st)) in Heq
      by set_solver.
    done.
Qed.

Lemma toolsAdvance_seen st id b :
  is_Some (toolCallsMap st !! id) →
  toolsAdvance st (withTools st (<[id := b]> (toolCallsMap st)) (toolCallOrder st)) [id].
Proof.
  intros Hin Hwf. unfold toolsWF in *. simpl.
  assert (dom (<[id := b]> (toolCallsMap st)) = dom (toolCallsMap st)) as Hd.
  { rewrite dom_insert_L. apply elem_of_dom in Hin. set_solver. }
  rewrite Hd. split; [done|]. exists []. split; [by rewrite app_nil_r|].
  intros l l' Heq. simpl. rewrite decide_True by (by apply elem_of_dom). done.
Qed.

Lemma emitTextSegments_cases segments : ∀ st out st' out' b,
  emitTextSegments yield segments st out = (st', out', b) →
  toolCallsMap st' = toolCallsMap st ∧ toolCallOrder st' = toolCallOrder st
  ∧ thinkParser st' = thinkParser st
  ∧ ∃ ps, out' = out ++ ps ∧ Forall isPartial ps
          ∧ (b = false → ps ≠ [] ∧ yield out' = false).
Proof.
  induction segments as [|seg rest IH]; intros st out st' out' b; simpl.
  { intros [= <- <- <-]. repeat split. exists []. by rewrite app_nil_r. }
  destruct (decide (seg_Text seg = "")); [apply IH|].
  destruct (yield _) eqn:Hy.
  - intros Hrun. apply IH in Hrun as (Hm & Ho & Hp & ps & -> & Hps & Hb).
    split; [|split; [|split]].
    + rewrite Hm. by destruct (seg_Thought seg).
    + rewrite Ho. by destruct (seg_Thought seg).
    + rewrite Hp. by destruct (seg_Thought seg).
    + eexists (_ :: ps). rewrite <- app_assoc. split; [done|].
      split; [by constructor|]. intros Hf. destruct (Hb Hf) as [_ Hy'].
      split; [done|]. by rewrite <- app_assoc in Hy'.
  - intros [= <- <- <-].
    split; [by destruct (seg_Thought seg)|].
    split; [by destruct (seg_Thought seg)|].
    split; [by destruct (seg_Thought seg)|].
    eexists [_]. split; [done|]. split; [by repeat constructor|]. done.
Qed.

Lemma handleTextDelta_cases data st out st' out' b :
  handleTextDelta yield data st out = (st', out', b) →
  toolCallsMap st' = toolCallsMap st ∧ toolCallOrder st' = toolCallOrder st
  ∧ ∃ ps, out' = out ++ ps ∧ Forall isPartial ps
          ∧ (b = false → ps ≠ [] ∧ yield out' = false).
Proof.
  unfold handleTextDelta.
  destruct (Unmarshal_TextDelta data) as [delta|].
  - destruct (Feed (thinkParser st) delta) as [p segs].
    intros Hrun. apply emitTextSegments_cases in Hrun as (Hm & Ho & _ & Hps). auto.
  - intros [= <- <- <-]. repeat split. exists []. by rewrite app_nil_r.
Qed.

Lemma handleFuncArgsDelta_advance data st :
  toolsAdvance st (handleFuncArgsDelta data st) [].
Proof.
  unfold handleFuncArgsDelta.
  destruct (Unmarshal_FuncCallArgsDelta data) as [delta|]; [|by apply toolsAdvance_same].
  destruct (toolCallsMap st !! fad_ItemID delta) eqn:Hl; [|by apply toolsAdvance_same].
  apply toolsAdvance_update. eauto.
Qed.

Lemma handleOutputItemAdded_advance data st :
  toolsAdvance st (handleOutputItemAdded data st)
               (arrivalOf "response.output_item.added" data).
Proof.
  unfold handleOutputItemAdded, arrivalOf. simpl.
  destruct (Unmarshal_OutputItemAdded data) as [item|]; [|by apply toolsAdvance_same].
  destruct (decide (item_Type item = "function_call")); [|by apply toolsAdvance_same].
  apply toolsAdvance_append.
Qed.

Lemma handleOutputItemDone_advance data st :
  toolsAdvance st (handleOutputItemDone data st)
               (arrivalOf "response.output_item.done" data).
Proof.
  unfold handleOutputItemDone, arrivalOf. simpl.
  destruct (Unmarshal_OutputItemDone data) as [item|]; [|by apply toolsAdvance_same].
  destruct (decide (item_Type item = "function_call")); [|by apply toolsAdvance_same].
  destruct (toolCallsMap st !! item_ID item) eqn:Hl.
  - apply toolsAdvance_seen. eauto.
  - apply toolsAdvance_append.
Qed.

Lemma handleCompleted_advance data st : toolsAdvance st (handleCompleted data st) [].
Proof.
  unfold handleCompleted.
  destruct (Unmarshal_Completed data) as [[u|]|]; by apply toolsAdvance_same.
Qed.

End openai_stream_properties.

Section openai_scan_properties.
Context {rwire : openai.Wire} {helpers : openai.Helpers} (yield : consumer).
Import openai.

Lemma toolsAdvance_then st st1 st' r arrivals :
  toolsWF st → toolsAdvance st st1 r →
  (toolsWF st1 →
   toolsWF st'
   ∧ ∃ a1, toolCallOrder st' = toolCallOrder st1 ++ a1
           ∧ firstSeen (dom (toolCallsMap st1)) a1
             = firstSeen (dom (toolCallsMap st1)) arrivals) →
  toolsWF st'
  ∧ ∃ a, toolCallOrder st' = toolCallOrder st ++ a
         ∧ firstSeen (dom (toolCallsMap st)) a
           = firstSeen (dom (toolCallsMap st)) (r ++ arrivals).
Proof.
  intros Hwf Hadv Hrest. destruct (Hadv Hwf) as (Hwf1 & a & Ha & Hfs).
  destruct (Hrest Hwf1) as (Hwf' & a1 & Ha1 & Hfs1).
  split; [done|]. exists (a ++ a1). split.
  - by rewrite Ha1, Ha, app_assoc.
  - by apply Hfs.
Qed.

(** The order list grows by the arriving function-call ids; an id that
    arrives again is never moved. *)
Lemma scanLoop_tools lines : ∀ currentEventType st out st' out',
  toolsWF st →
  scanLoop yield lines currentEventType st out = inr (st', out') →
  toolsWF st'
  ∧ ∃ a, toolCallOrder st' = toolCallOrder st ++ a
         ∧ firstSeen (dom (toolCallsMap st)) a
           = firstSeen (dom (toolCallsMap st)) (functionCallArrivals lines currentEventType).
Proof.
  induction lines as [|line rest IH]; intros cur st out st' out' Hwf; simpl.
  { intros [= <- <-]. split; [done|]. exists []. by rewrite app_nil_r. }
  destruct (strings.CutPrefix line "event: ") as [ev|]; [by apply IH|].
  destruct (strings.CutPrefix line "data: ") as [data|]; [|by apply IH].
  destruct (decide (data = "")); [by apply IH|].
  destruct (decide (cur = "response.output_text.delta")) as [->|].
  { destruct (handleTextDelta yield data st out) as [[st1 out1] [|]] eqn:Ht; [|done].
    apply handleTextDelta_cases in Ht as (Hm & Ho & _). intros Hrun.
    apply (toolsAdvance_then st st1 st' [] _ Hwf); [by apply toolsAdvance_same|].
    intros Hwf1. by apply (IH _ _ _ _ _ Hwf1 Hrun). }
  destruct (decide (cur = "response.function_call_arguments.delta")) as [->|].
  { intros Hrun.
    apply (toolsAdvance_then st _ st' [] _ Hwf (handleFuncArgsDelta_advance data st)).
    intros Hwf1. by apply (IH _ _ _ _ _ Hwf1 Hrun). }
  destruct (decide (cur = "response.output_item.added")) as [->|].
  { intros Hrun.
    apply (toolsAdvance_then st _ st' _ _ Hwf (handleOutputItemAdded_advance data st)).
    intros Hwf1. by apply (IH _ _ _ _ _ Hwf1 Hrun). }
  destruct (decide (cur = "response.output_item.done")) as [->|].
  { intros Hrun.
    apply (toolsAdvance_then st _ st' _ _ Hwf (handleOutputItemDone_advance data st)).
    intros Hwf1. by apply (IH _ _ _ _ _ Hwf1 Hrun). }
  assert (arrivalOf cur data = []) as ->.
  { unfold arrivalOf. by rewrite !decide_False by done. }
  destruct (decide (cur = "response.completed")) as [->|].
  { intros Hrun.
    apply (toolsAdvance_then st _ st' [] _ Hwf (handleCompleted_advance data st)).
    intros Hwf1. by apply (IH _ _ _ _ _ Hwf1 Hrun). }
  intros Hrun. by apply (IH _ _ _ _ _ Hwf Hrun).
Qed.

(** The loop only yields partial increments, and leaves from inside only
    when the consumer has stopped. *)
Lemma scanLoop_shape lines : ∀ currentEventType st out,
  match scanLoop yield lines currentEventType st out with
  | inl out' => ∃ ps, Forall isPartial ps ∧ out' = out ++ ps ∧ ps ≠ [] ∧ yield out' = false
  | inr (st', out') => ∃ ps, Forall isPartial ps ∧ out' = out ++ ps
  end.
Proof.
  induction lines as [|line rest IH]; intros cur st out; simpl.
  { exists []. by rewrite app_nil_r. }
  destruct (strings.CutPrefix line "event: ") as [ev|]; [by apply IH|].
  destruct (strings.CutPrefix line "data: ") as [data|]; [|by apply IH].
  destruct (decide (data = "")); [by apply IH|].
  destruct (decide (cur = "response.output_text.delta")) as [->|].
  { destruct (handleTextDelta yield data st out) as [[st1 out1] b] eqn:Ht.
    apply handleTextDelta_cases in Ht as (_ & _ & ps & -> & Hps & Hb).
    destruct b.
    - specialize (IH "" st1 (out ++ ps)).
      destruct (scanLoop yield rest "" st1 (out ++ ps)) as [out'|[st' out']].
      + destruct IH as (ps' & Hps' & -> & Hne & Hy). exists (ps ++ ps').
        rewrite app_assoc. split; [by apply Forall_app|]. split; [done|].
        split; [|done]. intros [_ ?]%app_eq_nil. done.
      + destruct IH as (ps' & Hps' & ->). exists (ps ++ ps').
        rewrite app_assoc. split; [by apply Forall_app|]. done.
    - destruct (Hb eq_refl) as [Hne Hy]. by exists ps. }
  repeat (destruct (decide (cur = _)); [by apply IH|]). by apply IH.
Qed.

(** Each id of the order list contributes exactly one function-call part,
    built from its builder. *)
Lemma toolCallParts_each (st : streamState) :
  toolsWF st →
  Forall2 (λ id part, ∃ b, toolCallsMap st !! id = Some b
                           ∧ part = genai.CallPart
                               (genai.mkFunctionCall (callID b) (name b)
                                                     (parseJSONArgs (args b))))
          (toolCallOrder st) (toolCallParts st).
Proof.
  intros Hwf. unfold toolCallParts.
  assert (∀ id, id ∈ toolCallOrder st → is_Some (toolCallsMap st !! id)) as Hall.
  { intros id Hid. apply elem_of_dom. rewrite Hwf. by apply elem_of_list_to_set. }
  induction (toolCallOrder st) as [|id l IH]; simpl; [constructor|].
  destruct (Hall id ltac:(left)) as [b Hb]. unfold toolCallPart at 1. rewrite Hb. simpl.
  constructor; [eauto|]. apply IH. intros id' Hid'. apply Hall. by right.
Qed.

Lemma isTerminal_openai_finalResponse (st : streamState) :
  isTerminal (YResp (finalResponse st)).
Proof. by split. Qed.

(** The shape of every sequence [processResponsesStream] yields, and what
    its terminal aggregate is built from. *)
Lemma processResponsesStream_cases body :
  ∃ ps tail, processResponsesStream yield body = ps ++ tail ∧ Forall isPartial ps
    ∧ ((tail = [] ∧ ps ≠ [] ∧ yield ps = false)
       ∨ (∃ err, body_ScanErr body = Some err
                 ∧ tail = [YErr (ErrWrap "SSE read error" err)])
       ∨ (body_ScanErr body = None
          ∧ ∃ st, tail = [YResp (finalResponse st)] ∧ toolsWF st
                  ∧ firstSeen ∅ (toolCallOrder st)
                    = firstSeen ∅ (functionCallArrivals (body_Lines body) ""))).
Proof.
  unfold processResponsesStream.
  pose proof (scanLoop_shape (body_Lines body) "" initialState []) as Hshape.
  pose proof (scanLoop_tools (body_Lines body) "" initialState []) as Htools.
  destruct (scanLoop yield (body_Lines body) "" initialState []) as [out|[st out]].
  { destruct Hshape as (ps & Hps & -> & Hne & Hy). exists ps, [].
    rewrite app_nil_r. split; [done|]. split; [done|]. by left. }
  destruct Hshape as (ps & Hps & ->). simpl.
  destruct (Htools st ps ltac:(done) eq_refl) as (Hwf & a & Ha & Hfs).
  simpl in Ha, Hfs. rewrite dom_empty_L in Hfs. subst a.
  destruct (body_ScanErr body) as [err|].
  { exists ps, [YErr (ErrWrap "SSE read error" err)]. split; [done|]. split; [done|].
    right. left. eauto. }
  destruct (emitTextSegments yield (Flush (thinkParser st)) st ps) as [[st1 out1] b] eqn:He.
  apply emitTextSegments_cases in He as (Hm & Ho & _ & ps' & -> & Hps' & Hb).
  destruct b.
  - exists (ps ++ ps'), [YResp (finalResponse st1)]. split; [done|].
    split; [by apply Forall_app|]. right. right. split; [done|].
    exists st1. split; [done|]. unfold toolsWF. rewrite Hm, Ho. done.
  - destruct (Hb eq_refl) as [Hne Hy]. exists (ps ++ ps'), []. rewrite app_nil_r.
    split; [done|]. split; [by apply Forall_app|]. left. split; [done|].
    split; [|done]. intros [_ ?]%app_eq_nil. done.
Qed.


















End openai_scan_properties.

(** * The streaming contract *)


Lemma error_in_tail (ps tail : list yielded) e :
  Forall isPartial ps → YErr e ∈ ps ++ tail → YErr e ∈ tail.
Proof.
  intros Hps Hin. apply elem_of_app in Hin as [Hin|Hin]; [|done].
  rewrite Forall_forall in Hps. destruct (Hps _ Hin).
Qed.

Section openai_terminal.
Context {rwire : openai.Wire} {helpers : openai.Helpers} (yield : consumer).
Import openai.


End openai_terminal.

Section terminal_order.
Context {json : JSON} {wire : anthropic.Wire} {rwire : openai.Wire} {helpers : openai.Helpers} (yield : consumer).


End terminal_order.



Section generate_contract.
Context {json : JSON} {wire : anthropic.Wire} {transport : anthropic.Transport}.
Context {rwire : openai.Wire} {helpers : openai.Helpers} {rtransport : openai.Transport}.
Context (yield : consumer).

Lemma anthropic_generate_one req modelName :
  ∃ y, anthropic.generate req modelName = [y] ∧ (isTerminal y ∨ isError y).
Proof.
  unfold anthropic.generate.
  destruct (anthropic.toAnthropicRequest req modelName) as [ar|e];
    [|by eexists; split; [done|right]].
  destruct (anthropic.doRequest _) as [resp|e]; [|by eexists; split; [done|right]].
  destruct (ReadAll_LimitReader _ resp) as [body [e|]];
    [by eexists; split; [done|right]|].
  destruct (decide _); [by eexists; split; [done|right]|].
  destruct (anthropic.Unmarshal_MessagesResponse body) as [msgResp|e];
    [|by eexists; split; [done|right]].
  simpl. eexists. split; [done|]. left. by split.
Qed.

Lemma openai_generate_one modelName noSystemRole req :
  ∃ y, openai.generate modelName noSystemRole req = [y]
       ∧ (isError y
          ∨ ∃ apiResp r, openai.convertResponsesResponse apiResp = Ok r ∧ y = YResp r).
Proof.
  unfold openai.generate.
  destruct (openai.toResponsesRequest req modelName noSystemRole) as [apiReq|e];
    [|by eexists; split; [done|left]].
  destruct (openai.Marshal_Request _) as [body|e]; [|by eexists; split; [done|left]].
  destruct (openai.doRequest body false) as [resp|e]; [|by eexists; split; [done|left]].
  destruct (openai.statusError resp); [by eexists; split; [done|left]|].
  destruct ((body_ReadAll resp).2) as [e|]; [by eexists; split; [done|left]|].
  destruct (openai.Decode_CreateResponseResponse _) as [apiResp|e];
    [|by eexists; split; [done|left]].
  destruct (openai.convertResponsesResponse apiResp) as [r|e] eqn:Hconv;
    [|by eexists; split; [done|left]].
  eexists. split; [done|]. right. eauto.
Qed.

Lemma anthropic_generateStream_shape req modelName :
  ∃ ps tail, anthropic.generateStream yield req modelName = ps ++ tail
    ∧ Forall isPartial ps
    ∧ (streamEnd yield ps tail
       ∨ tail = []
         ∧ ∃ ar resp err,
             anthropic.toAnthropicRequest req modelName = Ok ar
             ∧ anthropic.doRequest (anthropic.withStream ar true) = Ok resp
             ∧ StatusCode resp = 200
             ∧ body_ScanErr resp = Some err ∧ errors_Is_Canceled err = true).
Proof.
  unfold anthropic.generateStream.
  destruct (anthropic.toAnthropicRequest req modelName) as [ar|e];
    [|exists [], [YErr e]; split; [done|]; split; [done|]; left; constructor].
  destruct (anthropic.doRequest _) as [resp|e] eqn:Hdo;
    [|exists [], [YErr e]; split; [done|]; split; [done|]; left; constructor].
  destruct (decide (StatusCode resp ≠ 200)) as [|Hst];
    [eexists [], [YErr _]; split; [done|]; split; [done|]; left; constructor|].
  destruct (processStream_cases yield resp) as (ps & tail & -> & Hps & Hcases).
  exists ps, tail. split; [done|]. split; [done|].
  destruct Hcases as [[[msg ->] _]|[(-> & Hne & Hy)|[_ Hend]]].
  - left. constructor.
  - left. by constructor.
  - destruct (body_ScanErr resp) as [err|] eqn:Herr.
    + destruct (errors_Is_Canceled err) eqn:Hc; subst tail.
      * right. split; [done|]. exists ar, resp, err.
        repeat split; try done. by destruct (decide (StatusCode resp = 200)).
      * left. constructor.
    + destruct Hend as (st & _ & ->). left. constructor.
      apply isTerminal_finalResponse.
Qed.

Lemma openai_generateStream_shape modelName noSystemRole req :
  ∃ ps tail, openai.generateStream yield modelName noSystemRole req = ps ++ tail
    ∧ Forall isPartial ps ∧ streamEnd yield ps tail.
Proof.
  unfold openai.generateStream.
  destruct (openai.toResponsesRequest req modelName noSystemRole) as [apiReq|e];
    [|exists [], [YErr e]; split; [done|]; split; [done|]; constructor].
  destruct (openai.Marshal_Request _) as [body|e];
    [|eexists [], [YErr _]; split; [done|]; split; [done|]; constructor].
  destruct (openai.doRequest body true) as [resp|e];
    [|exists [], [YErr e]; split; [done|]; split; [done|]; constructor].
  destruct (openai.statusError resp);
    [eexists [], [YErr _]; split; [done|]; split; [done|]; constructor|].
  destruct (processResponsesStream_cases yield resp) as (ps & tail & -> & Hps & Hcases).
  exists ps, tail. split; [done|]. split; [done|].
  destruct Hcases as [(-> & Hne & Hy)|[(err & _ & ->)|(_ & st & -> & _)]].
  - by constructor.
  - constructor.
  - constructor. apply isTerminal_openai_finalResponse.
Qed.

(** C5 (amended). Without streaming each adapter yields exactly one
    element: an error, or one response; for Anthropic the response is a
    terminal aggregate, for OpenAI Responses it is what
    [convertResponsesResponse] returned, hence a terminal aggregate whenever
    that converter returns terminal aggregates only.  With
    streaming the sequence is zero or more partial increments followed by
    exactly one terminal aggregate or exactly one error, or it stops after a
    partial increment at which the consumer broke out of its loop; in the
    Anthropic adapter it also ends after the partial increments, with neither
    a terminal aggregate nor an error, when reading the stream fails with the
    cancellation of the context. *)
Theorem C5_generate_sequence_shape (req : model.LLMRequest) (modelName : string)
    (noSystemRole : bool) :
  (∃ y, anthropic.GenerateContent yield req modelName false = [y]
        ∧ (isTerminal y ∨ isError y))
  ∧ (∃ y, openai.GenerateContent yield modelName noSystemRole req false = [y]
          ∧ (isError y
             ∨ ∃ apiResp r, openai.convertResponsesResponse apiResp = Ok r ∧ y = YResp r))
  ∧ (convertsToTerminal →
     ∃ y, openai.GenerateContent yield modelName noSystemRole req false = [y]
          ∧ (isTerminal y ∨ isError y))
  ∧ (∃ ps tail, anthropic.GenerateContent yield req modelName true = ps ++ tail
       ∧ Forall isPartial ps
       ∧ (streamEnd yield ps tail
          ∨ tail = []
            ∧ ∃ ar resp err,
                anthropic.toAnthropicRequest req modelName = Ok ar
                ∧ anthropic.doRequest (anthropic.withStream ar true) = Ok resp
                ∧ StatusCode resp = 200
                ∧ body_ScanErr resp = Some err ∧ errors_Is_Canceled err = true))
  ∧ (∃ ps tail, openai.GenerateContent yield modelName noSystemRole req true = ps ++ tail
       ∧ Forall isPartial ps ∧ streamEnd yield ps tail).
Proof.
  split; [apply anthropic_generate_one|].
  split; [apply openai_generate_one|].
  split.
  { intros Hconv.
    destruct (openai_generate_one modelName noSystemRole req)
      as (y & Hy & [He|(apiResp & r & Hr & ->)]).
    - exists y. split; [exact Hy|by right].
    - exists (YResp r). split; [exact Hy|]. left. by apply (Hconv apiResp). }
  split; [apply anthropic_generateStream_shape|apply openai_generateStream_shape].
Qed.

End generate_contract.

(** The two adapters without streaming, on replies they can decode: one
    terminal aggregate each. *)
Lemma C5_generate_sequence_shape_witness :
  let req := fixtures.request 0 [fixtures.userText "hi"] in
  let reply := mkHTTPResponse 200 ("{message}", None) [] None in
  (∃ y, anthropic.GenerateContent (json := fixtures.json) (wire := fixtures.wire)
          (transport := fixtures.transportOf reply) drain req "m" false = [y]
        ∧ (isTerminal y ∨ isError y))
  ∧ (∃ y, openai.GenerateContent (helpers := fixtures.responsesHelpers)
            (transport := fixtures.responsesTransportOf reply) drain "m" false req false = [y]
          ∧ (isTerminal y ∨ isError y)).
Proof.
  intros req reply.
  destruct (C5_generate_sequence_shape
              (json := fixtures.json) (wire := fixtures.wire)
              (transport := fixtures.transportOf reply)
              (helpers := fixtures.responsesHelpers)
              (rtransport := fixtures.responsesTransportOf reply) drain req "m" false)
    as (Hanthropic & _ & Hopenai & _).
  split; [exact Hanthropic|].
  apply Hopenai. intros apiResp r [= <-]. by split.
Defined.

(** C5, as stated, fails: an Anthropic stream whose read is interrupted by
    the cancellation of the context yields one partial increment and then
    nothing, neither a terminal aggregate nor an error. *)
Lemma C5_cancelled_stream_ends_silently :
  ¬ partialsThenOne
      (anthropic.GenerateContent (json := fixtures.json) (wire := fixtures.wire) drain
         (transport := fixtures.transportOf
            (fixtures.canceledBody
               ["event: content_block_start"; "data: {start 1 text}";
                "event: content_block_delta"; "data: {delta 1 text}"]))
         (fixtures.request 0 [fixtures.userText "hi"]) "claude" true).
Proof.
  intros (ps & last & Heq & _ & Hlast). vm_compute in Heq.
  destruct ps as [|y [|y' ps]]; simplify_eq/=.
  destruct Hlast as [[? _]|[]]. done.
Qed.

Section anthropic_robustness.
Context {json : JSON} {wire : anthropic.Wire}.
Import anthropic.

Lemma handleSSEEvent_unparsable yield eventType data st out :
  eventType ≠ "error" →
  is_ok (Unmarshal_SSEMessageStart data) = false →
  is_ok (Unmarshal_SSEContentBlockStart data) = false →
  is_ok (Unmarshal_SSEContentBlockDelta data) = false →
  is_ok (Unmarshal_SSEMessageDelta data) = false →
  handleSSEEvent yield eventType data st out = (st, out, None).
Proof.
  intros Hne H1 H2 H3 H4. unfold handleSSEEvent, handleDelta.
  destruct (Unmarshal_SSEMessageStart data); [done|].
  destruct (Unmarshal_SSEContentBlockStart data); [done|].
  destruct (Unmarshal_SSEContentBlockDelta data); [done|].
  destruct (Unmarshal_SSEMessageDelta data); [done|].
  repeat (destruct (decide (eventType = _)); [by destruct st|]). by destruct st.
Qed.

Lemma blockParts_unparsable_args bs e :
  blockType bs = "tool_use" → json_Unmarshal_Args (toolArgs bs) = Err e →
  blockParts bs
  = [genai.CallPart (genai.mkFunctionCall (toolID bs) (toolName bs) emptyArgs)].
Proof.
  intros Ht He. unfold blockParts, parseToolArgs. rewrite Ht, He. simpl.
  by destruct (decide (toolArgs bs ≠ "")).
Qed.

Lemma processStream_errors yield body e :
  YErr e ∈ processStream yield body →
  (hasErrorEvent (body_Lines body) "" = true ∧ ∃ msg, e = ErrNew msg)
  ∨ (∃ err, body_ScanErr body = Some err ∧ errors_Is_Canceled err = false
            ∧ e = ErrWrap "SSE read error" err).
Proof.
  intros Hin.
  destruct (processStream_cases yield body) as (ps & tail & Heq & Hps & Hcases).
  rewrite Heq in Hin. apply error_in_tail in Hin; [|done].
  destruct Hcases as [[[msg ->] Hh]|[(-> & _)|[_ Hend]]].
  - apply list_elem_of_singleton in Hin. injection Hin as ->. left. eauto.
  - by apply elem_of_nil in Hin.
  - destruct (body_ScanErr body) as [err|].
    + destruct (errors_Is_Canceled err) eqn:Hc; subst tail.
      * by apply elem_of_nil in Hin.
      * apply list_elem_of_singleton in Hin. injection Hin as ->. right. eauto.
    + destruct Hend as (st & _ & ->). apply list_elem_of_singleton in Hin. done.
Qed.

Lemma processStream_drain body :
  ∃ ps, Forall isPartial ps
    ∧ (if hasErrorEvent (body_Lines body) ""
       then ∃ msg, processStream drain body = ps ++ [YErr (ErrNew msg)]
       else match body_ScanErr body with
            | None =>
                ∃ st, processStream drain body
                      = ps ++ [YResp (finalResponse (genai.mkContent "model" []) st)]
            | Some err =>
                processStream drain body
                = ps ++ (if errors_Is_Canceled err then []
                         else [YErr (ErrWrap "SSE read error" err)])
            end).
Proof.
  destruct (processStream_cases drain body) as (ps & tail & Heq & Hps & Hcases).
  exists ps. split; [done|].
  destruct Hcases as [[[msg ->] ->]|[(-> & _ & ?)|[-> Hend]]]; [eauto|done|].
  destruct (body_ScanErr body) as [err|].
  - destruct (errors_Is_Canceled err); by subst tail.
  - destruct Hend as (st & _ & ->). eauto.
Qed.

(** C10. The Anthropic stream processor ignores malformed input: a data
    line that does not parse leaves state and output as they were; a delta
    for an index that has no block is dropped; tool arguments that do not
    parse give a function-call part with an empty argument map.  An error is
    yielded only at an explicit "error" event or when the scanner fails with
    an error other than cancellation; a consumer that never stops gets the
    error whenever the stream carries an error event, and a terminal
    aggregate whenever it carries none and the scanner reaches the end. *)
Theorem C10_stream_processor_total_on_malformed_input (yield : consumer) :
  (∀ eventType data st out,
     eventType ≠ "error" →
     is_ok (Unmarshal_SSEMessageStart data) = false →
     is_ok (Unmarshal_SSEContentBlockStart data) = false →
     is_ok (Unmarshal_SSEContentBlockDelta data) = false →
     is_ok (Unmarshal_SSEMessageDelta data) = false →
     handleSSEEvent yield eventType data st out = (st, out, None))
  ∧ (∀ data ev blocks out,
       Unmarshal_SSEContentBlockDelta data = Ok ev → blocks !! cbd_Index ev = None →
       handleDelta yield data blocks out = (blocks, out, None))
  ∧ (∀ bs e,
       blockType bs = "tool_use" → json_Unmarshal_Args (toolArgs bs) = Err e →
       blockParts bs
       = [genai.CallPart (genai.mkFunctionCall (toolID bs) (toolName bs) emptyArgs)])
  ∧ (∀ body e,
       YErr e ∈ processStream yield body →
       (hasErrorEvent (body_Lines body) "" = true ∧ ∃ msg, e = ErrNew msg)
       ∨ (∃ err, body_ScanErr body = Some err ∧ errors_Is_Canceled err = false
                 ∧ e = ErrWrap "SSE read error" err))
  ∧ (∀ body,
       ∃ ps, Forall isPartial ps
         ∧ (if hasErrorEvent (body_Lines body) ""
            then ∃ msg, processStream drain body = ps ++ [YErr (ErrNew msg)]
            else match body_ScanErr body with
                 | None =>
                     ∃ st, processStream drain body
                           = ps ++ [YResp (finalResponse (genai.mkContent "model" []) st)]
                 | Some err =>
                     processStream drain body
                     = ps ++ (if errors_Is_Canceled err then []
                              else [YErr (ErrWrap "SSE read error" err)])
                 end)).
Proof.
  split; [apply handleSSEEvent_unparsable|].
  split.
  { intros data ev blocks out Hev Hnone. unfold handleDelta. by rewrite Hev, Hnone. }
  split; [apply blockParts_unparsable_args|].
  split; [apply processStream_errors|apply processStream_drain].
Qed.

End anthropic_robustness.

Section thought_properties.
Context {json : JSON} {wire : anthropic.Wire} {transport : anthropic.Transport}.
Context {rwire : openai.Wire} {helpers : openai.Helpers}.
Import anthropic.





End thought_properties.

(** Unparsable data, a delta for index 7 and the arguments [{oops] are
    ignored; the error of an explicit error event is the one yielded. *)
Lemma C10_stream_processor_total_on_malformed_input_witness :
  let st := anthropic.initialState in
  let toolBlock := anthropic.mkBlockState "tool_use" "call_1" "get_quote" "" "" "{oops" in
  let errorBody := fixtures.okBody ["event: error"; "data: {overloaded}"] in
  anthropic.handleSSEEvent (wire := fixtures.wire) drain "content_block_start" "not json"
                           st [] = (st, [], None)
  ∧ anthropic.handleDelta (wire := fixtures.wire) drain "{delta 7 text}" ∅ [] = (∅, [], None)
  ∧ anthropic.blockParts (json := fixtures.json) toolBlock
    = [genai.CallPart (genai.mkFunctionCall "call_1" "get_quote" emptyArgs)]
  ∧ ((hasErrorEvent (body_Lines errorBody) "" = true
      ∧ ∃ msg, ErrNew "SSE error: {overloaded}" = ErrNew msg)
     ∨ (∃ err, body_ScanErr errorBody = Some err ∧ errors_Is_Canceled err = false
               ∧ ErrNew "SSE error: {overloaded}" = ErrWrap "SSE read error" err)).
Proof.
  intros st toolBlock errorBody.
  destruct (C10_stream_processor_total_on_malformed_input
              (json := fixtures.json) (wire := fixtures.wire) drain)
    as (Hparse & Hindex & Hargs & Herrors & _).
  split; [apply Hparse; [discriminate|reflexivity..]|].
  split; [apply (Hindex _ (anthropic.mkSSEContentBlockDelta 7
                             (anthropic.mkDelta "text_delta" "lost" "" "")));
          reflexivity|].
  split; [apply (Hargs toolBlock (ErrNew "syntax")); reflexivity|].
  apply Herrors. apply list_elem_of_In. vm_compute. left. reflexivity.
Defined.



(** * Properties of the tool invocation layer *)

Section string_facts.

(** [String.append] is never unfolded by [simpl]; this exposes one step. *)
Local Ltac append_step := unfold String.append; fold String.append.

Lemma append_length (s1 s2 : string) :
  String.length (s1 +:+ s2) = (String.length s1 + String.length s2)%nat.
Proof. induction s1 as [|c s1 IH]; append_step; simpl; [done|]. by rewrite IH. Qed.

Lemma append_inj_r (p1 p2 s : string) : p1 +:+ s = p2 +:+ s → p1 = p2.
Proof.
  revert p2. induction p1 as [|c p1 IH]; intros [|d p2]; intros Heq.
  - done.
  - apply (f_equal String.length) in Heq.
    rewrite !append_length in Heq. simpl in Heq. lia.
  - apply (f_equal String.length) in Heq.
    rewrite !append_length in Heq. simpl in Heq. lia.
  - revert Heq. append_step. intros [= -> Heq]. f_equal. by apply IH.
Qed.

Lemma append_assoc (s1 s2 s3 : string) : (s1 +:+ s2) +:+ s3 = s1 +:+ s2 +:+ s3.
Proof. induction s1 as [|c s1 IH]; append_step; [done|]. by rewrite IH. Qed.

Lemma CutPrefix_append (prefix s : string) :
  strings.CutPrefix (prefix +:+ s) prefix = Some s.
Proof.
  induction prefix as [|c prefix IH]; append_step;
    unfold strings.CutPrefix; fold strings.CutPrefix; [done|].
  by rewrite decide_True by done.
Qed.

End string_facts.

Section mcp_properties.
Context {sdk : mcp.SDK}.
Import mcp.

Lemma prefixedTool_Name_strip p :
  strings.CutPrefix (prefixedTool_Name p) (pt_prefix p +:+ ":")
  = Some (tool_Name (pt_inner p)).
Proof.
  unfold prefixedTool_Name. rewrite <- append_assoc. apply CutPrefix_append.
Qed.

Lemma prefixedTool_Name_inj_prefix p q :
  tool_Name (pt_inner q) = tool_Name (pt_inner p) →
  prefixedTool_Name q = prefixedTool_Name p → pt_prefix q = pt_prefix p.
Proof.
  unfold prefixedTool_Name. intros -> Heq.
  rewrite <- !append_assoc in Heq. apply append_inj_r in Heq.
  by apply append_inj_r in Heq.
Qed.

Lemma prefixedTool_Name_inj_name p q :
  pt_prefix q = pt_prefix p →
  prefixedTool_Name q = prefixedTool_Name p →
  tool_Name (pt_inner q) = tool_Name (pt_inner p).
Proof.
  intros Hp Heq. pose proof (prefixedTool_Name_strip q) as Hq.
  rewrite Heq, Hp, prefixedTool_Name_strip in Hq. by injection Hq.
Qed.

Lemma prefixedTool_Declaration_Name p decl :
  prefixedTool_Declaration p = Some decl → genai.fd_Name decl = prefixedTool_Name p.
Proof.
  unfold prefixedTool_Declaration.
  destruct (tool_functionTool (pt_inner p)) as [ft|]; [|done].
  destruct (ft_Declaration ft); [|done]. by intros [= <-].
Qed.

(** C4 (amended). Prefixing is invertible and collision-free between
    labels: stripping the label and the colon from a prefixed name gives the
    original name back; under one label distinct names stay distinct; two
    providers with distinct labels never give identically named tools the
    same prefixed name; the declaration of a wrapped tool carries exactly its
    prefixed name; and the label of a toolset the manager creates is the
    [Name] of the server configuration. *)
Theorem C4_prefixing_invertible_and_collision_free_between_labels (p : prefixedTool) :
  strings.CutPrefix (prefixedTool_Name p) (pt_prefix p +:+ ":")
    = Some (tool_Name (pt_inner p))
  ∧ (∀ q, pt_prefix q = pt_prefix p → prefixedTool_Name q = prefixedTool_Name p →
          tool_Name (pt_inner q) = tool_Name (pt_inner p))
  ∧ (∀ q, tool_Name (pt_inner q) = tool_Name (pt_inner p) →
          pt_prefix q ≠ pt_prefix p → prefixedTool_Name q ≠ prefixedTool_Name p)
  ∧ (∀ decl, prefixedTool_Declaration p = Some decl →
             genai.fd_Name decl = prefixedTool_Name p)
  ∧ (∀ cfg ts tools, createToolset cfg = Ok ts → prefixedToolset_Tools ts = Ok tools →
                     Forall (λ t, pt_prefix t = cfg_Name cfg) tools).
Proof.
  split; [apply prefixedTool_Name_strip|].
  split; [apply prefixedTool_Name_inj_name|].
  split.
  { intros q Hname Hne Heq. apply Hne. by apply prefixedTool_Name_inj_prefix. }
  split; [apply prefixedTool_Declaration_Name|].
  intros cfg ts tools. unfold createToolset, prefixedToolset_Tools.
  destruct (mcptoolset_New (createTransport cfg)) as [inner|]; [|done].
  intros [= <-]. simpl. destruct (toolset_Tools inner) as [ts|]; [|done].
  intros [= <-]. apply Forall_fmap, Forall_forall. done.
Qed.

End mcp_properties.

(** C4, as stated, fails: the label is the server's [Name], which two
    distinct providers may share; their identically named tools then get the
    same prefixed name. *)
Lemma C4_distinct_providers_sharing_a_label_collide :
  let cfg1 := fixtures.server "s1" "news" "http://news" in
  let cfg3 := fixtures.server "s3" "news" "http://other" in
  mcp.cfg_ID cfg1 ≠ mcp.cfg_ID cfg3
  ∧ ∃ ts1 ts3 tools1 tools3 t1 t3,
      mcp.createToolset (sdk := fixtures.sdk) cfg1 = Ok ts1
      ∧ mcp.createToolset (sdk := fixtures.sdk) cfg3 = Ok ts3
      ∧ mcp.prefixedToolset_Tools ts1 = Ok tools1
      ∧ mcp.prefixedToolset_Tools ts3 = Ok tools3
      ∧ t1 ∈ tools1 ∧ t3 ∈ tools3
      ∧ mcp.tool_Name (mcp.pt_inner t1) = mcp.tool_Name (mcp.pt_inner t3)
      ∧ mcp.prefixedTool_Name t1 = mcp.prefixedTool_Name t3.
Proof.
  split; [discriminate|].
  eexists _, _, _, _, (mcp.mkPrefixedTool fixtures.searchTool "news"),
    (mcp.mkPrefixedTool fixtures.searchTool "news").
  repeat split; try reflexivity; apply list_elem_of_here.
Qed.

(** The tool [search] under the labels [news] and [filings]. *)
Lemma C4_prefixing_invertible_and_collision_free_between_labels_witness :
  let p := mcp.mkPrefixedTool fixtures.searchTool "news" in
  let q := mcp.mkPrefixedTool fixtures.searchTool "filings" in
  mcp.prefixedTool_Name p = "news:search"
  ∧ strings.CutPrefix "news:search" "news:" = Some "search"
  ∧ mcp.prefixedTool_Name q ≠ mcp.prefixedTool_Name p
  ∧ (∀ decl, mcp.prefixedTool_Declaration p = Some decl →
             genai.fd_Name decl = "news:search").
Proof.
  intros p q.
  destruct (C4_prefixing_invertible_and_collision_free_between_labels
              (sdk := fixtures.sdk) p) as (Hstrip & _ & Hlabels & Hdecl & _).
  split; [reflexivity|]. split; [exact Hstrip|].
  split; [apply Hlabels; [reflexivity|discriminate]|exact Hdecl].
Defined.

Section manager_properties.
Context {sdk : mcp.SDK}.
Import mcp.

Lemma selectConfigs_from (m : Manager) (ids : list string) :
  ∀ (acc : gmap string MCPServerConfig * list logLine) id cfg,
  (∀ k c, acc.1 !! k = Some c → configs m !! k = Some c) →
  (foldl (selectStep m) acc ids).1 !! id = Some cfg
  ↔ (id ∈ ids ∨ is_Some (acc.1 !! id)) ∧ configs m !! id = Some cfg.
Proof.
  induction ids as [|i ids IH]; intros acc id cfg Hacc; simpl.
  - split.
    + intros Hl. split; [right; eauto|by apply Hacc].
    + intros [[Hin|[c Hc]] Hcfg]; [by apply elem_of_nil in Hin|].
      by rewrite <- Hcfg, (Hacc _ _ Hc).
  - unfold selectStep at 2. destruct (configs m !! i) as [ci|] eqn:Hi.
    + rewrite IH; simpl.
      * rewrite elem_of_cons, lookup_insert_is_Some. split.
        -- intros [[?|[->|[_ ?]]] ?]; auto.
        -- intros [[[->|?]|Hs] ?]; auto.
           destruct (decide (i = id)) as [->|]; auto.
      * intros k c. rewrite lookup_insert. case_decide; [|by apply Hacc].
        subst k. by intros [= <-].
    + rewrite IH by done. simpl. rewrite elem_of_cons. split.
      * intros [[?|?] ?]; auto.
      * intros [[[->|?]|?] Hcfg]; auto. congruence.
Qed.

(** The selected configurations are those named by [ids] and loaded. *)
Lemma selectConfigs_lookup (m : Manager) ids id cfg :
  (selectConfigs m ids).1 !! id = Some cfg ↔ id ∈ ids ∧ configs m !! id = Some cfg.
Proof.
  unfold selectConfigs. rewrite selectConfigs_from by done. simpl.
  split; [intros [[?|[? ?]] ?]; done|intros [? ?]; auto].
Qed.

(** The first loop logs warnings only. *)
Lemma selectConfigs_warnings (m : Manager) (ids : list string) :
  ∀ (acc : gmap string MCPServerConfig * list logLine),
  Forall (λ x, ∃ id, x = LogWarnNoConfig id) acc.2 →
  Forall (λ x, ∃ id, x = LogWarnNoConfig id) (foldl (selectStep m) acc ids).2.
Proof.
  induction ids as [|i ids IH]; intros acc Hacc; simpl; [done|].
  apply IH. unfold selectStep. destruct (configs m !! i); simpl; [done|].
  apply Forall_app. split; [done|]. repeat constructor. eauto.
Qed.

Lemma createSelected_from (order : list (string * MCPServerConfig)) :
  ∀ acc : list prefixedToolset * list logLine,
  foldl createStep acc order
  = (acc.1 ++ omap createdToolset order, acc.2 ++ omap creationFailure order).
Proof.
  induction order as [|[id cfg] order IH]; intros [result logs]; simpl.
  - by rewrite !app_nil_r.
  - rewrite IH. unfold createStep, createdToolset at 2, creationFailure at 2. simpl.
    destruct (createToolset cfg); simpl; by rewrite <- !app_assoc.
Qed.

Lemma createSelected_spec order :
  createSelected order = (omap createdToolset order, omap creationFailure order).
Proof. unfold createSelected. by rewrite createSelected_from. Qed.

Lemma GetToolInfos_from_spec (m : Manager) serverIDs : ∀ n allTools logs,
  (GetToolInfos_from m n serverIDs allTools logs).1
  = allTools ++ concat (imap (λ i id, toolsOrNothing (GetServerTools m (n + i) id)) serverIDs).
Proof.
  induction serverIDs as [|id rest IH]; intros n allTools logs; simpl.
  - by rewrite app_nil_r.
  - rewrite Nat.add_0_r.
    destruct (GetServerTools m n id) as [tools|err]; rewrite IH; simpl.
    + rewrite <- app_assoc. do 3 f_equal. apply imap_ext. intros i x _. simpl.
      by rewrite Nat.add_succ_r.
    + do 2 f_equal. apply imap_ext. intros i x _. simpl. by rewrite Nat.add_succ_r.
Qed.

(** A provider whose toolset cannot be created is skipped and logged,
    and the fetch goes on.  [GetToolsetsByIDs] returns, in whatever order
    [range] visits the selected configurations, exactly the toolsets of the
    requested and loaded providers whose creation succeeds, and logs one
    error for each one whose creation fails; [GetToolInfosByServerIDs]
    returns the tools of the servers that answer, in the order of the ids,
    and nothing for the others.  Neither function can fail. *)
Lemma GetToolsetsByIDs_creation_failures_skipped (m : Manager) (ids : list string)
    (order : list (string * MCPServerConfig)) :
  order ≡ₚ map_to_list (selectConfigs m ids).1 →
  (GetToolsetsByIDs_ranged m ids order).1 ≡ₚ (GetToolsetsByIDs m ids).1
  ∧ (∀ ts, ts ∈ (GetToolsetsByIDs_ranged m ids order).1
           ↔ ∃ id cfg inner,
               id ∈ ids ∧ configs m !! id = Some cfg
               ∧ mcptoolset_New (createTransport cfg) = Ok inner
               ∧ ts = NewPrefixedToolset inner (cfg_Name cfg))
  ∧ (∀ id err, LogErrorCreateToolset id err ∈ (GetToolsetsByIDs_ranged m ids order).2
               ↔ ∃ cfg, id ∈ ids ∧ configs m !! id = Some cfg
                        ∧ mcptoolset_New (createTransport cfg) = Err err)
  ∧ (length (GetToolsetsByIDs_ranged m ids order).1
     + length (creationErrors (GetToolsetsByIDs_ranged m ids order).2)
     = size (selectConfigs m ids).1)%nat
  ∧ (GetToolInfosByServerIDs m ids).1
    = concat (imap (λ i id, toolsOrNothing (GetServerTools m i id)) ids).
Proof.
  intros Hperm.
  assert (Hin : ∀ id cfg, (id, cfg) ∈ order ↔ id ∈ ids ∧ configs m !! id = Some cfg).
  { intros id cfg. rewrite Hperm, elem_of_map_to_list. apply selectConfigs_lookup. }
  unfold GetToolsetsByIDs, GetToolsetsByIDs_ranged.
  destruct (selectConfigs m ids) as [sel warns] eqn:Hsel. simpl in Hperm.
  rewrite !createSelected_spec. simpl.
  split; [by rewrite Hperm|].
  split; [|split; [|split]].
  - intros ts. rewrite list_elem_of_omap. split.
    + intros ([id cfg] & Hkv & Hc). apply Hin in Hkv as [? ?].
      unfold createdToolset, createToolset in Hc. simpl in Hc.
      destruct (mcptoolset_New (createTransport cfg)) as [inner|] eqn:Hnew; [|done].
      injection Hc as <-. by exists id, cfg, inner.
    + intros (id & cfg & inner & Hid & Hcfg & Hnew & ->).
      exists (id, cfg). split; [by apply Hin|].
      unfold createdToolset, createToolset. simpl. by rewrite Hnew.
  - intros id err. rewrite elem_of_app, list_elem_of_omap. split.
    + intros [Hw|([id' cfg] & Hkv & Hc)].
      * exfalso. pose proof (selectConfigs_warnings m ids (∅, []) ltac:(constructor)) as Hall.
        fold (selectConfigs m ids) in Hall. rewrite Hsel in Hall. simpl in Hall.
        rewrite Forall_forall in Hall. destruct (Hall _ Hw) as [? ?]. done.
      * apply Hin in Hkv as [? ?].
        unfold creationFailure, createToolset in Hc. simpl in Hc.
        destruct (mcptoolset_New (createTransport cfg)) as [inner|e] eqn:Hnew; [done|].
        injection Hc as <- <-. by exists cfg.
    + intros (cfg & Hid & Hcfg & Hnew). right.
      exists (id, cfg). split; [by apply Hin|].
      unfold creationFailure, createToolset. simpl. by rewrite Hnew.
  - unfold creationErrors. rewrite omap_app, length_app.
    match goal with
    | |- context [omap ?f warns] => assert (omap f warns = []) as ->
    end.
    { pose proof (selectConfigs_warnings m ids (∅, []) ltac:(constructor)) as Hall.
      fold (selectConfigs m ids) in Hall. rewrite Hsel in Hall. simpl in Hall.
      clear -Hall. induction Hall as [|x l [i ->] _ IH]; [done|]. simpl. apply IH. }
    simpl. rewrite <- (length_map_to_list sel), <- Hperm.
    clear. induction order as [|[id cfg] order IH]; [done|].
    simpl in *. unfold createdToolset at 1, creationFailure at 1. simpl.
    destruct (createToolset cfg); simpl.
    + f_equal. exact IH.
    + rewrite Nat.add_succ_r. f_equal. exact IH.
  - unfold GetToolInfosByServerIDs. by rewrite GetToolInfos_from_spec.
Qed.

End manager_properties.

(** C8. The code at the failing input: two enabled providers are
    requested, [s1] that answers and [s2] whose endpoint is unreachable, and
    the toolset constructor opens no connection.  [GetToolsetsByIDs] returns
    a toolset for both and logs nothing; [BuildAgentWithContext] hands both
    to the agent; and [Tools] of the toolset of [s2] returns the connection
    error instead of a tool list.  [GetToolInfosByServerIDs], on the same
    providers, does skip and log [s2]. *)
Theorem C8_unreachable_provider_is_handed_to_the_agent :
  let m := mcp.LoadConfigs [fixtures.server "s1" "news" "http://news";
                            fixtures.server "s2" "broken" "down"] in
  let ids := ["s1"; "s2"] in
  let fetched := mcp.GetToolsetsByIDs (sdk := fixtures.lazySdk) m ids in
  (mcp.prefixedToolset_Tools <$> fetched.1)
    ≡ₚ [Ok [mcp.mkPrefixedTool fixtures.searchTool "news";
            mcp.mkPrefixedTool fixtures.quoteTool "news"];
        Err (ErrNew "unreachable")]
  ∧ (mcp.pts_prefix <$> fetched.1) ≡ₚ ["news"; "broken"]
  ∧ fetched.2 = []
  ∧ mcp.agentToolsets (sdk := fixtures.lazySdk) (Some m) ids = fetched.1
  ∧ mcp.GetToolInfosByServerIDs (sdk := fixtures.lazySdk) m ids
    = ([mcp.mkToolInfo "search" "web search" "s1" "news"],
       [mcp.LogErrorServerTools "s2" (ErrNew "unreachable")]).
Proof.
  vm_compute.
  repeat split; try reflexivity; try apply perm_swap.
Qed.

(** The fetch of the fixture: one toolset, one logged failure, one warning. *)
Example GetToolsetsByIDs_fixture :
  mcp.GetToolsetsByIDs (sdk := fixtures.sdk) fixtures.manager ["s2"; "s1"; "zz"; "s1"]
  = ([mcp.NewPrefixedToolset
        (mcp.mkToolsetObj "mcp" (Ok [fixtures.searchTool; fixtures.quoteTool])) "news"],
     [mcp.LogWarnNoConfig "zz";
      mcp.LogErrorCreateToolset "s2" (ErrNew "unreachable")]).
Proof. vm_compute. reflexivity. Qed.

(** * Properties of the system-role probe *)

Section probe_properties.
Context {json : JSON} {probe : factory.Probe}.
Import factory.









End probe_properties.



(** * Properties of the meeting cancellation registry *)

Section cancellation_properties.
Import app.

(** A registered meeting is cancelled and unregistered by
    [cancelMeetingInternal]. *)
Lemma cancelMeetingInternal_registered (a : App) stockCode cancel :
  meetingCancels a !! stockCode = Some cancel →
  cancel ∈ canceled (cancelMeetingInternal a stockCode)
  ∧ meetingCancels (cancelMeetingInternal a stockCode) !! stockCode = None.
Proof.
  intros Hreg. unfold cancelMeetingInternal. rewrite Hreg. simpl.
  split; [set_solver|apply lookup_delete_eq].
Qed.

(** A meeting that is not registered is left alone. *)
Lemma cancelMeetingInternal_unregistered (a : App) stockCode :
  meetingCancels a !! stockCode = None → cancelMeetingInternal a stockCode = a.
Proof. intros Hreg. unfold cancelMeetingInternal. by rewrite Hreg. Qed.

(** The deferred cleanup removes whatever is registered for the stock,
    also the cancel function of a later meeting. *)
Lemma cleanupMeeting_removes_any (a : App) stockCode :
  meetingCancels (cleanupMeeting a stockCode) !! stockCode = None
  ∧ canceled (cleanupMeeting a stockCode) = canceled a.
Proof. split; [apply lookup_delete_eq|done]. Qed.

(** A query that finds the running meeting registered cancels it in its
    first step, before it registers itself and long before its own meeting
    starts. *)
Lemma superseding_query_cancels_registered (w : world) g c prior :
  calls w !! g = Some c → at_ c = AtEntry → sessionFound c = true →
  meetingCancels (theApp w) !! StockCode c = Some prior →
  prior ∈ canceled (theApp (step w g))
  ∧ ∃ c', calls (step w g) !! g = Some c' ∧ at_ c' = AtRegister.
Proof.
  intros Hc Hat Hs Hreg. unfold step, stepCall. rewrite Hc, Hat, Hs. simpl.
  split; [by apply cancelMeetingInternal_registered|].
  eexists. split; [apply list_lookup_insert_eq; by apply lookup_lt_Some in Hc|done].
Qed.

(** C3. A running meeting is cancelled before a new query for its stock
    starts only as long as it is still registered; a third query shows the
    gap.  The first query runs; the second supersedes it (the first context
    is cancelled); the first call returns
    and its deferred cleanup deletes the registry entry of the stock, which
    by now belongs to the second meeting; the third query then finds nothing
    to cancel, and the second and the third meeting run together, the
    second under a context that was never cancelled. *)
Theorem C3_third_query_does_not_cancel_running_meeting :
  let stock := "600519" in
  let w1 := run fixtures.threeQueries (fixtures.firstRuns ++ fixtures.secondSupersedes) in
  let w2 := run w1 fixtures.firstReturns in
  let w3 := run w2 fixtures.thirdArrives in
  (0%nat ∈ canceled (theApp w1) ∧ meetingCancels (theApp w1) !! stock = Some 1%nat
   ∧ at_ <$> calls w1 = [InMeeting 0%nat; InMeeting 1%nat; AtEntry])
  ∧ (meetingCancels (theApp w2) !! stock = None
     ∧ at_ <$> calls w2 = [Returned; InMeeting 1%nat; AtEntry])
  ∧ (at_ <$> calls w3 = [Returned; InMeeting 1%nat; InMeeting 2%nat]
     ∧ canceled (theApp w3) = {[0%nat]}
     ∧ runsUncancelled w3 1%nat ∧ runsUncancelled w3 2%nat).
Proof.
  intros stock w1 w2 w3.
  assert (Hc3 : canceled (theApp w3) = {[0%nat]}).
  { apply set_eq. intros x. vm_compute canceled. set_solver. }
  split; [|split].
  - split; [|split]; [|by vm_compute..].
    assert (canceled (theApp w1) = {[0%nat]}) as ->; [|set_solver].
    apply set_eq. intros x. vm_compute canceled. set_solver.
  - split; by vm_compute.
  - split; [by vm_compute|]. split; [done|]. split.
    + eexists _, 1%nat. split; [by vm_compute|]. split; [done|].
      rewrite Hc3. set_solver.
    + eexists _, 2%nat. split; [by vm_compute|]. split; [done|].
      rewrite Hc3. set_solver.
Qed.

End cancellation_properties.

(** * The unit tests of [model_test.go], replayed on the embedding *)

Section replayed_tests.
Import anthropic.

(** [TestToAnthropicMessages_MergeConsecutiveRoles]. *)
Example test_MergeConsecutiveRoles :
  toAnthropicMessages (json := fixtures.json)
    [fixtures.userText "part1"; fixtures.userText "part2"]
  = Ok [mkMessage "user" [textBlock "part1"; textBlock "part2"]].
Proof. reflexivity. Qed.

(** [TestToAnthropicMessages_ToolUseAndResult]: three messages, the second
    with a text and a tool_use block, the third with a tool_result block. *)
Example test_ToolUseAndResult :
  (λ r, match r with
        | Ok msgs => Some ((λ m, (msg_Role m, cb_Type <$> msg_Content m)) <$> msgs)
        | Err _ => None
        end)
    (toAnthropicMessages (json := fixtures.json)
       [fixtures.userText "What's the weather?";
        Some (genai.mkContent "model"
                [genai.TextPart "Let me check.";
                 genai.CallPart (genai.mkFunctionCall "call_123" "get_weather"
                                   [("city", AnyString "Tokyo")])]);
        Some (genai.mkContent "user"
                [genai.mkPart "" false None
                   (Some (genai.mkFunctionResponse "call_123" "get_weather"
                            (AnyMap [("temp", AnyString "20C")])))])])
  = Some [("user", ["text"]); ("assistant", ["text"; "tool_use"]);
          ("user", ["tool_result"])].
Proof. reflexivity. Qed.

(** [TestToAnthropicRequest_Basic]: model, max_tokens and system text. *)
Example test_ToAnthropicRequest_Basic :
  (λ r, match r with
        | Ok ar => Some (req_Model ar, req_MaxTokens ar, req_System ar,
                         msg_Role <$> req_Messages ar)
        | Err _ => None
        end)
    (toAnthropicRequest (json := fixtures.json)
       (model.mkLLMRequest [fixtures.userText "hello"]
          (Some (genai.mkGenerateContentConfig
                   (Some (genai.mkContent "" [genai.TextPart "You are helpful."]))
                   (Some 7) None 1024 [] [])))
       "claude-opus-4-6")
  = Some ("claude-opus-4-6", 1024, "You are helpful.", ["user"]).
Proof. reflexivity. Qed.

(** [TestConvertStopReason]. *)
Example test_ConvertStopReason :
  convertStopReason <$> ["end_turn"; "max_tokens"; "tool_use"; "stop_sequence"; "unknown"]
  = [genai.FinishReasonStop; genai.FinishReasonMaxTokens; genai.FinishReasonStop;
     genai.FinishReasonStop; genai.FinishReasonUnspecified].
Proof. reflexivity. Qed.

(** [TestConvertAnthropicResponse_TextAndToolUse]. *)
Example test_ConvertAnthropicResponse :
  convertAnthropicResponse (json := fixtures.json)
    (mkMessagesResponse "msg_123" "assistant"
       [mkContentBlock "text" "Let me check." "" "" "" "" "" "" false;
        mkContentBlock "tool_use" "" "" "tu_456" "get_weather" "{}" "" "" false]
       "tool_use" (mkUsage 10 20))
  = Ok (model.mkLLMResponse
          (genai.mkContent "model"
             [genai.TextPart "Let me check.";
              genai.CallPart (genai.mkFunctionCall "tu_456" "get_weather" [])])
          (Some (genai.mkUsageMetadata 10 20 30)) genai.FinishReasonStop false true).
Proof. reflexivity. Qed.

End replayed_tests.

(** * More on the Anthropic converters *)

Section anthropic_tool_properties.
Context {json : JSON}.
Import anthropic.

Lemma declTools_spec fd :
  declTools fd
  = match json_Marshal (schemaOf fd) with
    | Ok schemaJSON => Ok (mkTool (genai.fd_Name fd) (genai.fd_Description fd) schemaJSON)
    | Err e => Err (ErrWrap "marshal tool schema" e)
    end.
Proof.
  unfold declTools, schemaOf.
  destruct (genai.fd_ParametersJsonSchema fd) as [s|]; simpl.
  - by destruct (json_Marshal s).
  - by destruct (json_Marshal _).
Qed.

(** What the inner loop adds for the declarations of one tool. *)
Lemma declsTools_spec fds : ∀ tools,
  match declsTools fds tools with
  | Ok ts =>
      ∃ new, ts = tools ++ new
             ∧ Forall2 (λ fd t, tool_Name t = genai.fd_Name fd
                                ∧ tool_Description t = genai.fd_Description fd
                                ∧ json_Marshal (schemaOf fd) = Ok (tool_InputSchema t))
                       fds new
  | Err e =>
      ∃ fd e', fd ∈ fds ∧ json_Marshal (schemaOf fd) = Err e'
               ∧ e = ErrWrap "marshal tool schema" e'
  end.
Proof.
  induction fds as [|fd rest IH]; intros tools; simpl.
  { exists []. by rewrite app_nil_r. }
  rewrite declTools_spec.
  destruct (json_Marshal (schemaOf fd)) as [schemaJSON|e] eqn:Hm; simpl.
  - specialize (IH (tools ++ [mkTool (genai.fd_Name fd) (genai.fd_Description fd) schemaJSON])).
    destruct (declsTools rest _) as [ts|e].
    + destruct IH as (new & -> & Hall). eexists (_ :: new).
      rewrite <- app_assoc. split; [done|]. by constructor.
    + destruct IH as (fd' & e' & Hin & He & ->). exists fd', e'.
      split; [by right|done].
  - exists fd, e. split; [by left|done].
Qed.

Lemma convertTools_from_spec genaiTools : ∀ tools,
  match convertTools_from tools genaiTools with
  | Ok ts =>
      ∃ new, ts = tools ++ new
             ∧ Forall2 (λ fd t, tool_Name t = genai.fd_Name fd
                                ∧ tool_Description t = genai.fd_Description fd
                                ∧ json_Marshal (schemaOf fd) = Ok (tool_InputSchema t))
                       (allDeclarations genaiTools) new
  | Err e =>
      ∃ fd e', fd ∈ allDeclarations genaiTools ∧ json_Marshal (schemaOf fd) = Err e'
               ∧ e = ErrWrap "marshal tool schema" e'
  end.
Proof.
  induction genaiTools as [|[gt|] rest IH]; intros tools; simpl.
  - exists []. by rewrite app_nil_r.
  - pose proof (declsTools_spec (genai.FunctionDeclarations gt) tools) as Hd.
    destruct (declsTools (genai.FunctionDeclarations gt) tools) as [ts|e]; simpl.
    + destruct Hd as (new & -> & Hall). specialize (IH (tools ++ new)).
      destruct (convertTools_from (tools ++ new) rest) as [ts|e].
      * destruct IH as (new' & -> & Hall'). exists (new ++ new').
        rewrite app_assoc. split; [done|]. by apply Forall2_app.
      * destruct IH as (fd & e' & Hin & He & ->). exists fd, e'.
        split; [|done]. apply elem_of_app. by right.
    + destruct Hd as (fd & e' & Hin & He & ->). exists fd, e'.
      split; [|done]. apply elem_of_app. by left.
  - apply IH.
Qed.

(** X1. [convertTools] returns one Anthropic tool per function declaration of
    the non-nil tools, in their order, with the declaration's name and
    description and the encoding of its schema (the JSON schema when set,
    else the [Parameters] pointer, nil included); it fails exactly with
    the wrapped error of a schema that does not encode, and never because a
    schema is missing. *)
Theorem X1_convertTools_one_tool_per_declaration
    (genaiTools : list (option genai.Tool)) :
  match convertTools genaiTools with
  | Ok ts =>
      Forall2 (λ fd t, tool_Name t = genai.fd_Name fd
                       ∧ tool_Description t = genai.fd_Description fd
                       ∧ json_Marshal (schemaOf fd) = Ok (tool_InputSchema t))
              (allDeclarations genaiTools) ts
  | Err e =>
      ∃ fd e', fd ∈ allDeclarations genaiTools ∧ json_Marshal (schemaOf fd) = Err e'
               ∧ e = ErrWrap "marshal tool schema" e'
  end.
Proof.
  unfold convertTools. pose proof (convertTools_from_spec genaiTools []) as H.
  destruct (convertTools_from [] genaiTools) as [ts|e]; [|done].
  by destruct H as (new & -> & Hall).
Qed.

Lemma blockParts_blockOf bs : responseBlockParts (blockOf bs) = blockParts bs.
Proof.
  unfold responseBlockParts, blockParts, blockOf. simpl.
  destruct (decide (blockType bs = "text")) as [Ht|?].
  { rewrite Ht. simpl. done. }
  destruct (decide (blockType bs = "thinking")) as [Ht|?]; [done|].
  done.
Qed.

Lemma assembled_parts (m : gmap Z blockState) (indices : list Z) :
  flat_map responseBlockParts (omap (λ idx, blockOf <$> m !! idx) indices)
  = flat_map (indexParts m) indices.
Proof.
  induction indices as [|idx rest IH]; [done|]. simpl.
  unfold indexParts at 1. destruct (m !! idx) as [bs|]; simpl; [|done].
  rewrite blockParts_blockOf. f_equal. exact IH.
Qed.

(** X2. Streaming and non-streaming agree: the terminal aggregate of a
    stream that reported its usage is the response [convertAnthropicResponse]
    gives for the message the stream assembled, that is, for the accumulated
    blocks by ascending index with the last stop reason and usage. *)
Theorem X2_stream_terminal_is_conversion_of_assembled_message
    (st : streamState) (u : Usage) :
  usage st = Some u →
  convertAnthropicResponse (assembledMessage st u)
  = Ok (finalResponse (genai.mkContent "model" []) st).
Proof.
  intros Hu. unfold convertAnthropicResponse, finalResponse, assembledMessage. simpl.
  by rewrite assembled_parts, Hu.
Qed.

End anthropic_tool_properties.

(** A stream that assembled a text block 0 and a tool call 1 and reported its
    usage. *)
Lemma X2_stream_terminal_is_conversion_of_assembled_message_witness :
  let st := anthropic.mkStreamState
              (<[1 := anthropic.mkBlockState "tool_use" "tu_1" "get_quote" "" "" "{}"]>
                 (<[0 := anthropic.mkBlockState "text" "" "" "Let me check." "" ""]>
                    (∅ : gmap Z anthropic.blockState)))
              "tool_use" (Some (anthropic.mkUsage 10 20)) in
  anthropic.convertAnthropicResponse (json := fixtures.json)
    (assembledMessage st (anthropic.mkUsage 10 20))
  = Ok (anthropic.finalResponse (json := fixtures.json) (genai.mkContent "model" []) st).
Proof.
  intros st.
  apply (X2_stream_terminal_is_conversion_of_assembled_message (json := fixtures.json) st).
  reflexivity.
Defined.

(** * What a consumer that breaks out of its loop receives *)

Section delivery.

Lemma deliver_app yield a : ∀ out b,
  deliver yield out (a ++ b)
  = match deliver yield out a with
    | (o, true) => deliver yield o b
    | (o, false) => (o, false)
    end.
Proof.
  induction a as [|y a IH]; intros out b; simpl; [done|].
  destruct (yield (out ++ [y])); [apply IH|done].
Qed.

Lemma deliver_drain rest : ∀ out, deliver drain out rest = (out ++ rest, true).
Proof.
  induction rest as [|y rest IH]; intros out; simpl.
  - by rewrite app_nil_r.
  - rewrite IH. by rewrite <- app_assoc.
Qed.

Lemma deliver_last yield out y : (deliver yield out [y]).1 = out ++ [y].
Proof. simpl. by destruct (yield _). Qed.

(** What has been received extends what had been received before, by a
    prefix of what was to be delivered; it falls short only when the consumer
    refused the last element it received. *)
Lemma deliver_prefix yield rest : ∀ out o b,
  deliver yield out rest = (o, b) →
  ∃ got, o = out ++ got ∧ got `prefix_of` rest
         ∧ (if b then got = rest else got ≠ [] ∧ yield o = false).
Proof.
  induction rest as [|y rest IH]; intros out o b; simpl.
  { intros [= <- <-]. exists []. by rewrite app_nil_r. }
  destruct (yield (out ++ [y])) eqn:Hy.
  - intros Hd. apply IH in Hd as (got & -> & Hpre & Hb).
    exists (y :: got). rewrite <- app_assoc. split; [done|].
    split; [by apply prefix_cons|].
    destruct b; [by subst got|]. destruct Hb as [_ Hf].
    split; [done|]. by rewrite <- app_assoc in Hf.
  - intros [= <- <-]. exists [y]. split; [done|].
    split; [apply prefix_cons, prefix_nil|done].
Qed.

End delivery.

Section anthropic_delivery.
Context {json : JSON} {wire : anthropic.Wire}.
Import anthropic.

(** The consumer's answer changes nothing in what a delta does to the blocks
    and the output: it only decides whether the handler reports a stop. *)
Lemma handleDelta_drain yield data blocks out :
  match handleDelta drain data blocks out with
  | (blocks', out', e') =>
      (out' = out ∧ handleDelta yield data blocks out = (blocks', out, e'))
      ∨ (e' = None
         ∧ ∃ y, out' = out ++ [y]
                ∧ handleDelta yield data blocks out
                  = (blocks', out', if yield out' then None else Some ErrStopIteration))
  end.
Proof.
  unfold handleDelta, yieldPartial, drain.
  destruct (Unmarshal_SSEContentBlockDelta data) as [ev|?]; [|by left].
  destruct (blocks !! cbd_Index ev) as [bs|]; [|by left].
  repeat (destruct (decide _) as [?|?]); try (by left); right; eauto.
Qed.

Lemma handleSSEEvent_drain yield eventType data st out :
  match handleSSEEvent drain eventType data st out with
  | (st', out', e') =>
      (out' = out ∧ handleSSEEvent yield eventType data st out = (st', out, e'))
      ∨ (e' = None
         ∧ ∃ y, out' = out ++ [y]
                ∧ handleSSEEvent yield eventType data st out
                  = (st', out', if yield out' then None else Some ErrStopIteration))
  end.
Proof.
  unfold handleSSEEvent.
  destruct (decide (eventType = "message_start")).
  { destruct (Unmarshal_SSEMessageStart data); by left. }
  destruct (decide (eventType = "content_block_start")).
  { destruct (Unmarshal_SSEContentBlockStart data); by left. }
  destruct (decide (eventType = "content_block_delta")).
  { pose proof (handleDelta_drain yield data (blocks st) out) as Hd.
    destruct (handleDelta drain data (blocks st) out) as [[b o] x].
    destruct Hd as [[-> ->]|(-> & y & -> & ->)]; [by left|right; eauto]. }
  destruct (decide (eventType = "content_block_stop")); [by left|].
  destruct (decide (eventType = "message_delta")).
  { destruct (Unmarshal_SSEMessageDelta data); by left. }
  destruct (decide (eventType = "message_stop")); [by left|].
  destruct (decide (eventType = "error")); [|by left].
  destruct (Unmarshal_SSEError data); by left.
Qed.

Lemma anthropic_scanLoop_deliver yield lines : ∀ eventType st out,
  match scanLoop drain lines eventType st out with
  | inl full =>
      ∃ rest, full = out ++ rest
              ∧ scanLoop yield lines eventType st out = inl (deliver yield out rest).1
  | inr (st', full) =>
      ∃ rest, full = out ++ rest
              ∧ match deliver yield out rest with
                | (o, true) => scanLoop yield lines eventType st out = inr (st', full)
                | (o, false) => scanLoop yield lines eventType st out = inl o
                end
  end.
Proof.
  induction lines as [|line rest IH]; intros eventType st out; simpl.
  { exists []. by rewrite app_nil_r. }
  destruct (strings.CutPrefix line "event: ") as [ev|]; [apply IH|].
  destruct (strings.CutPrefix line "data: ") as [data|]; [|apply IH].
  pose proof (handleSSEEvent_drain yield eventType data st out) as Hev.
  destruct (handleSSEEvent drain eventType data st out) as [[st1 out1] e1].
  destruct Hev as [[-> ->]|(-> & y & -> & ->)].
  - destruct e1 as [err|]; [|apply IH].
    destruct (errors_Is_Stop err).
    + exists []. by rewrite app_nil_r.
    + exists [YErr err]. split; [done|]. by rewrite deliver_last.
  - specialize (IH eventType st1 (out ++ [y])).
    destruct (scanLoop drain rest eventType st1 (out ++ [y])) as [full|[st' full]].
    + destruct IH as (rest' & -> & Hrun). exists (y :: rest').
      rewrite <- app_assoc. split; [done|]. simpl.
      destruct (yield (out ++ [y])); [done|]. done.
    + destruct IH as (rest' & -> & Hrun). exists (y :: rest').
      rewrite <- app_assoc. split; [done|]. simpl.
      destruct (yield (out ++ [y])); [|done].
      destruct (deliver yield (out ++ [y]) rest') as [o []]; [|done].
      by rewrite <- app_assoc in Hrun.
Qed.

(** X3. Breaking out of the loop over an Anthropic stream only cuts the
    sequence short: whatever the consumer does, it receives the sequence a
    consumer that never breaks would receive, delivered element by element
    up to and including the first one at which its [yield] returns false,
    and nothing after that one. *)
Theorem X3_anthropic_stream_stops_where_the_consumer_breaks
    (yield : consumer) (body : HTTPResponse) :
  processStream yield body = received yield (processStream drain body).
Proof.
  unfold processStream, received.
  pose proof (anthropic_scanLoop_deliver yield (body_Lines body) "" initialState []) as H.
  destruct (scanLoop drain (body_Lines body) "" initialState []) as [full|[st' full]].
  { destruct H as (rest & -> & ->). done. }
  destruct H as (rest & -> & Hrun). simpl in *.
  destruct (deliver yield [] rest) as [o b] eqn:Hd.
  assert (∀ tail, (deliver yield [] (rest ++ tail)).1
                  = if b then (deliver yield rest tail).1 else o) as Hcut.
  { intros tail. rewrite deliver_app, Hd. destruct b; [|done].
    apply deliver_prefix in Hd as (got & -> & _ & ->). done. }
  destruct b; rewrite Hrun.
  - destruct (body_ScanErr body) as [err|].
    + destruct (errors_Is_Canceled err); simpl.
      * rewrite <- (app_nil_r rest) at 2. by rewrite Hcut.
      * by rewrite Hcut, deliver_last.
    + unfold emitFinalResponse. by rewrite Hcut, deliver_last.
  - destruct (body_ScanErr body) as [err|].
    + destruct (errors_Is_Canceled err); simpl.
      * rewrite <- (app_nil_r rest). by rewrite Hcut.
      * by rewrite Hcut.
    + unfold emitFinalResponse. by rewrite Hcut.
Qed.

End anthropic_delivery.

Section openai_delivery.
Context {rwire : openai.Wire} {helpers : openai.Helpers}.
Import openai.

Lemma emitTextSegments_deliver yield segments : ∀ st out,
  match emitTextSegments drain segments st out with
  | (st', full, b') =>
      b' = true
      ∧ ∃ rest, full = out ++ rest
                ∧ match deliver yield out rest with
                  | (o, true) => emitTextSegments yield segments st out = (st', full, true)
                  | (o, false) => ∃ st'', emitTextSegments yield segments st out
                                          = (st'', o, false)
                  end
  end.
Proof.
  unfold drain.
  induction segments as [|seg rest IH]; intros st out; simpl.
  { split; [done|]. exists []. by rewrite app_nil_r. }
  destruct (decide (seg_Text seg = "")); [apply IH|].
  match goal with
  | |- context [emitTextSegments (λ _, true) rest ?s ?o] =>
      specialize (IH s o);
      destruct (emitTextSegments (λ _, true) rest s o) as [[st' full] b']
  end.
  destruct IH as (-> & rest' & -> & Hrun). split; [done|].
  eexists (_ :: rest'). rewrite <- app_assoc. split; [done|]. simpl.
  destruct (yield _); [|eauto].
  destruct (deliver yield _ rest') as [o []]; [|done].
  by rewrite <- app_assoc in Hrun.
Qed.

Lemma handleTextDelta_deliver yield data st out :
  match handleTextDelta drain data st out with
  | (st', full, b') =>
      b' = true
      ∧ ∃ rest, full = out ++ rest
                ∧ match deliver yield out rest with
                  | (o, true) => handleTextDelta yield data st out = (st', full, true)
                  | (o, false) => ∃ st'', handleTextDelta yield data st out
                                          = (st'', o, false)
                  end
  end.
Proof.
  unfold handleTextDelta.
  destruct (Unmarshal_TextDelta data) as [delta|].
  - destruct (Feed (thinkParser st) delta) as [p segs].
    apply emitTextSegments_deliver.
  - split; [done|]. exists []. by rewrite app_nil_r.
Qed.

Lemma openai_scanLoop_deliver yield lines : ∀ currentEventType st out,
  match scanLoop drain lines currentEventType st out with
  | inl _ => False
  | inr (st', full) =>
      ∃ rest, full = out ++ rest
              ∧ match deliver yield out rest with
                | (o, true) => scanLoop yield lines currentEventType st out
                               = inr (st', full)
                | (o, false) => scanLoop yield lines currentEventType st out = inl o
                end
  end.
Proof.
  induction lines as [|line rest IH]; intros cur st out; simpl.
  { exists []. by rewrite app_nil_r. }
  destruct (strings.CutPrefix line "event: ") as [ev|]; [apply IH|].
  destruct (strings.CutPrefix line "data: ") as [data|]; [|apply IH].
  destruct (decide (data = "")); [apply IH|].
  destruct (decide (cur = "response.output_text.delta")) as [->|].
  { pose proof (handleTextDelta_deliver yield data st out) as Ht.
    destruct (handleTextDelta drain data st out) as [[st1 out1] b].
    destruct Ht as (-> & ps & -> & Hrun).
    specialize (IH "" st1 (out ++ ps)).
    destruct (scanLoop drain rest "" st1 (out ++ ps)) as [?|[st' full]]; [done|].
    destruct IH as (rest' & -> & Hrest). exists (ps ++ rest').
    rewrite app_assoc. split; [done|]. rewrite deliver_app.
    destruct (deliver yield out ps) as [o []] eqn:Hd.
    - rewrite Hrun. apply deliver_prefix in Hd as (got & -> & _ & ->). done.
    - destruct Hrun as [st'' ->]. done. }
  repeat (destruct (decide (cur = _)); [apply IH|]). apply IH.
Qed.

(** X4. Breaking out of the loop over a Responses stream only cuts the
    sequence short: the consumer receives the sequence a consumer that never
    breaks would receive, up to and including the first element at which
    its [yield] returns false; increments flushed from the think-tag parser
    at the end of the stream included. *)
Theorem X4_responses_stream_stops_where_the_consumer_breaks
    (yield : consumer) (body : HTTPResponse) :
  processResponsesStream yield body = received yield (processResponsesStream drain body).
Proof.
  unfold processResponsesStream, received.
  pose proof (openai_scanLoop_deliver yield (body_Lines body) "" initialState []) as H.
  destruct (scanLoop drain (body_Lines body) "" initialState []) as [?|[st' full]]; [done|].
  destruct H as (rest & -> & Hrun). simpl in *.
  destruct (deliver yield [] rest) as [o b] eqn:Hd.
  assert (∀ tail, (deliver yield [] (rest ++ tail)).1
                  = if b then (deliver yield rest tail).1 else o) as Hcut.
  { intros tail. rewrite deliver_app, Hd. destruct b; [|done].
    apply deliver_prefix in Hd as (got & -> & _ & ->). done. }
  pose proof (emitTextSegments_deliver yield (Flush (thinkParser st')) st' rest) as Hflush.
  destruct (emitTextSegments drain (Flush (thinkParser st')) st' rest)
    as [[st1 full1] b1].
  destruct Hflush as (-> & ps & -> & Hemit).
  destruct b; rewrite Hrun.
  - destruct (body_ScanErr body) as [err|]; [by rewrite Hcut, deliver_last|].
    rewrite <- app_assoc, Hcut, deliver_app.
    destruct (deliver yield rest ps) as [o' []] eqn:Hd'.
    + rewrite Hemit. apply deliver_prefix in Hd' as (got & -> & _ & ->).
      by rewrite deliver_last.
    + destruct Hemit as [st'' ->]. done.
  - destruct (body_ScanErr body) as [err|]; [by rewrite Hcut|].
    by rewrite <- app_assoc, Hcut.
Qed.

End openai_delivery.

(** * More string facts *)

Section more_string_facts.

Local Ltac append_step := unfold String.append; fold String.append.

Lemma append_nil_r (s : string) : s +:+ "" = s.
Proof. induction s as [|c s IH]; append_step; [done|]. by rewrite IH. Qed.

Lemma append_inj_l (p s1 s2 : string) : p +:+ s1 = p +:+ s2 → s1 = s2.
Proof. induction p as [|c p IH]; append_step; [done|]. intros [= H]. by apply IH. Qed.

Lemma CutPrefix_Some (s prefix r : string) :
  strings.CutPrefix s prefix = Some r → s = prefix +:+ r.
Proof.
  revert s. induction prefix as [|c prefix IH]; intros s;
    unfold strings.CutPrefix; fold strings.CutPrefix; append_step.
  - by intros [= ->].
  - destruct s as [|d s]; [done|]. destruct (decide (c = d)) as [->|]; [|done].
    intros H. by rewrite (IH _ H).
Qed.

Lemma rev_app_append (s1 : string) : ∀ s2 s3,
  String.rev_app s1 s2 +:+ s3 = String.rev_app s1 (s2 +:+ s3).
Proof. induction s1 as [|c s1 IH]; intros s2 s3; simpl; [done|]. by rewrite IH. Qed.

Lemma rev_app_rev_app (s1 : string) : ∀ s2 s3,
  String.rev_app (String.rev_app s1 s2) s3 = String.rev_app s2 (s1 +:+ s3).
Proof.
  induction s1 as [|c s1 IH]; intros s2 s3; simpl; [done|].
  rewrite IH. simpl. done.
Qed.

Lemma rev_involutive (s : string) : String.rev (String.rev s) = s.
Proof. unfold String.rev. rewrite rev_app_rev_app. simpl. apply append_nil_r. Qed.

Lemma rev_app_app (s1 : string) : ∀ s2 acc,
  String.rev_app (s1 +:+ s2) acc = String.rev_app s2 (String.rev_app s1 acc).
Proof. induction s1 as [|c s1 IH]; intros s2 acc; append_step; simpl; [done|apply IH]. Qed.

Lemma rev_append (s1 s2 : string) :
  String.rev (s1 +:+ s2) = String.rev s2 +:+ String.rev s1.
Proof. unfold String.rev. by rewrite rev_app_app, rev_app_append. Qed.

End more_string_facts.

(** * More on the OpenAI Responses stream processor *)

Section openai_text_properties.
Context {rwire : openai.Wire} {helpers : openai.Helpers}.
Import openai.

Lemma incrementsText_app b (l1 l2 : list yielded) :
  incrementsText b (l1 ++ l2) = incrementsText b l1 +:+ incrementsText b l2.
Proof.
  induction l1 as [|y l1 IH]; simpl; [done|].
  by rewrite IH, append_assoc.
Qed.

(** The two accumulators grow by exactly the text of the increments
    yielded, thought text and answer text apart. *)
Lemma emitTextSegments_text yield segments : ∀ st out st' out' b,
  emitTextSegments yield segments st out = (st', out', b) →
  ∃ ps, out' = out ++ ps
        ∧ textContent st' = textContent st +:+ incrementsText false ps
        ∧ thoughtContent st' = thoughtContent st +:+ incrementsText true ps.
Proof.
  induction segments as [|seg rest IH]; intros st out st' out' b; simpl.
  { intros [= <- <- <-]. exists []. by rewrite app_nil_r, !append_nil_r. }
  destruct (decide (seg_Text seg = "")); [apply IH|].
  set (p := YResp (partialResponse _)).
  assert (textContent st +:+ incrementText false p
          = textContent (if seg_Thought seg
                         then withText st (textContent st)
                                (thoughtContent st +:+ seg_Text seg)
                         else withText st (textContent st +:+ seg_Text seg)
                                (thoughtContent st))
          ∧ thoughtContent st +:+ incrementText true p
            = thoughtContent (if seg_Thought seg
                              then withText st (textContent st)
                                     (thoughtContent st +:+ seg_Text seg)
                              else withText st (textContent st +:+ seg_Text seg)
                                     (thoughtContent st))) as [Ht Hth].
  { subst p. unfold incrementText. simpl.
    destruct (seg_Thought seg); simpl; by rewrite append_nil_r. }
  destruct (yield (out ++ [p])).
  - intros Hrun. apply IH in Hrun as (ps & -> & Htext & Hthought).
    exists (p :: ps). rewrite <- app_assoc. split; [done|]. simpl.
    rewrite Htext, Hthought, <- Ht, <- Hth, !append_assoc. done.
  - intros [= <- <- <-]. exists [p]. split; [done|]. simpl.
    rewrite !append_nil_r. done.
Qed.

Lemma scanLoop_text yield lines : ∀ currentEventType st out st' out',
  scanLoop yield lines currentEventType st out = inr (st', out') →
  ∃ ps, out' = out ++ ps
        ∧ textContent st' = textContent st +:+ incrementsText false ps
        ∧ thoughtContent st' = thoughtContent st +:+ incrementsText true ps.
Proof.
  induction lines as [|line rest IH]; intros cur st out st' out'; simpl.
  { intros [= <- <-]. exists []. by rewrite app_nil_r, !append_nil_r. }
  destruct (strings.CutPrefix line "event: ") as [ev|]; [apply IH|].
  destruct (strings.CutPrefix line "data: ") as [data|]; [|apply IH].
  destruct (decide (data = "")); [apply IH|].
  destruct (decide (cur = "response.output_text.delta")) as [->|].
  { destruct (handleTextDelta yield data st out) as [[st1 out1] b] eqn:Ht.
    unfold handleTextDelta in Ht.
    assert (∃ ps, out1 = out ++ ps
                  ∧ textContent st1 = textContent st +:+ incrementsText false ps
                  ∧ thoughtContent st1 = thoughtContent st +:+ incrementsText true ps)
      as (ps & -> & Htext & Hthought).
    { destruct (Unmarshal_TextDelta data) as [delta|].
      - destruct (Feed (thinkParser st) delta) as [p segs].
        by apply emitTextSegments_text in Ht.
      - injection Ht as <- <- <-. exists []. by rewrite app_nil_r, !append_nil_r. }
    destruct b; [|done]. intros Hrun.
    apply IH in Hrun as (ps' & -> & Htext' & Hthought').
    exists (ps ++ ps'). rewrite app_assoc. split; [done|].
    rewrite Htext', Hthought', Htext, Hthought, !incrementsText_app, !append_assoc. done. }
  assert (∀ st1, textContent st1 = textContent st → thoughtContent st1 = thoughtContent st →
                 scanLoop yield rest "" st1 out = inr (st', out') →
                 ∃ ps, out' = out ++ ps
                       ∧ textContent st' = textContent st +:+ incrementsText false ps
                       ∧ thoughtContent st' = thoughtContent st +:+ incrementsText true ps)
    as Hsame.
  { intros st1 H1 H2 Hrun. apply IH in Hrun. by rewrite H1, H2 in Hrun. }
  destruct (decide (cur = "response.function_call_arguments.delta")).
  { apply Hsame; unfold handleFuncArgsDelta;
      destruct (Unmarshal_FuncCallArgsDelta data) as [delta|]; try done;
      by destruct (toolCallsMap st !! fad_ItemID delta). }
  destruct (decide (cur = "response.output_item.added")).
  { apply Hsame; unfold handleOutputItemAdded;
      destruct (Unmarshal_OutputItemAdded data) as [item|]; try done;
      by destruct (decide (item_Type item = "function_call")). }
  destruct (decide (cur = "response.output_item.done")).
  { apply Hsame; unfold handleOutputItemDone;
      destruct (Unmarshal_OutputItemDone data) as [item|]; try done;
      destruct (decide (item_Type item = "function_call")); try done;
      by destruct (toolCallsMap st !! item_ID item). }
  destruct (decide (cur = "response.completed")).
  { apply Hsame; unfold handleCompleted;
      by destruct (Unmarshal_Completed data) as [[u|]|]. }
  by apply Hsame.
Qed.

(** X5. The terminal aggregate of a Responses stream is built from exactly
    what was streamed: it is the final response of a state whose thought
    text is the concatenation of the thought increments yielded before it
    and whose answer text is the concatenation of the other increments. *)
Theorem X5_responses_terminal_text_is_the_streamed_text
    (yield : consumer) (body : HTTPResponse) (out : list yielded)
    (r : model.LLMResponse) :
  processResponsesStream yield body = out ++ [YResp r] →
  isTerminal (YResp r) →
  ∃ st, r = finalResponse st
        ∧ thoughtContent st = incrementsText true out
        ∧ textContent st = incrementsText false out.
Proof.
  unfold processResponsesStream. intros Hrun [Hpartial _].
  pose proof (scanLoop_shape yield (body_Lines body) "" initialState []) as Hshape.
  destruct (scanLoop yield (body_Lines body) "" initialState []) as [out0|[st out0]] eqn:Hscan.
  { destruct Hshape as (ps & Hps & -> & _). simpl in Hrun. subst ps.
    apply Forall_app in Hps as [_ Hlast]. apply Forall_singleton in Hlast as [Hp _].
    congruence. }
  apply scanLoop_text in Hscan as (ps & -> & Htext & Hthought). simpl in *.
  destruct Hshape as (ps0 & Hps & ->).
  destruct (body_ScanErr body) as [err|].
  { by apply app_inj_tail in Hrun as [_ ?]. }
  destruct (emitTextSegments yield (Flush (thinkParser st)) st ps0) as [[st1 out1] b] eqn:He.
  pose proof (emitTextSegments_cases _ _ _ _ _ _ _ He) as (_ & _ & _ & ps' & -> & Hps' & _).
  apply emitTextSegments_text in He as (ps1 & Heq & Htext1 & Hthought1).
  apply app_inv_head in Heq as <-.
  destruct b.
  - apply app_inj_tail in Hrun as [<- [= <-]]. exists st1. split; [done|].
    by rewrite Htext1, Hthought1, Htext, Hthought, !incrementsText_app.
  - assert (Forall isPartial (out ++ [YResp r])) as Hall.
    { rewrite <- Hrun. by apply Forall_app. }
    apply Forall_app in Hall as [_ Hlast]. apply Forall_singleton in Hlast as [Hp _].
    congruence.
Qed.

(** X6. The ids the terminal aggregate gives to the tool calls found in the
    text ([vendor_call_0], [vendor_call_1], ...) are pairwise distinct, and
    there is one such call part per call the text parser found. *)
Theorem X6_vendor_call_ids_distinct (textContent : string) :
  let calls := omap genai.FunctionCall_ (textParts textContent) in
  NoDup (genai.fc_ID <$> calls)
  ∧ length calls = (if decide (textContent = "") then 0%nat
                    else length (parseVendorToolCalls textContent).1).
Proof.
  unfold textParts. destruct (decide (textContent ≠ "")) as [Hne|He]; simpl.
  2: { rewrite decide_True by (by destruct (decide (textContent = ""))).
       split; [constructor|done]. }
  rewrite (decide_False (P := textContent = "")) by done.
  destruct (parseVendorToolCalls textContent) as [vendorCalls cleanedText]. simpl.
  set (mk := λ (i : nat) (vc : vendorToolCall),
               genai.CallPart (genai.mkFunctionCall ("vendor_call_" +:+ pretty i)
                                                    (vc_Name vc) (vc_Args vc))).
  assert (∀ k (l : list vendorToolCall),
            genai.fc_ID <$> omap genai.FunctionCall_ (imap (λ i, mk (k + i)%nat) l)
            = (λ i, "vendor_call_" +:+ pretty i) <$> seq k (length l)) as Hids.
  { intros k l. revert k. induction l as [|vc l IH]; intros k; [done|]. simpl.
    rewrite Nat.add_0_r. f_equal.
    etrans; [|apply (IH (S k))]. f_equal. f_equal. apply imap_ext. intros i x _.
    simpl. f_equal. lia. }
  rewrite omap_app.
  replace (omap genai.FunctionCall_
             (if decide (cleanedText ≠ "") then [genai.TextPart cleanedText] else []))
    with (@nil genai.FunctionCall) by (by destruct (decide _)).
  simpl. split.
  - rewrite (Hids 0%nat). apply NoDup_fmap_2; [|apply NoDup_seq].
    intros i j Heq. apply append_inj_l in Heq. by apply (inj pretty) in Heq.
  - rewrite <- (length_fmap genai.fc_ID), (Hids 0%nat).
    by rewrite length_fmap, length_seq.
Qed.

End openai_text_properties.

(** Two text deltas "hi": the terminal aggregate carries "hihi". *)
Lemma X5_responses_terminal_text_is_the_streamed_text_witness :
  let body := fixtures.okBody ["event: response.output_text.delta"; "data: {text hi}";
                               "event: response.output_text.delta"; "data: {text hi}"] in
  ∃ st : @openai.streamState fixtures.responsesWire fixtures.responsesHelpers,
    model.mkLLMResponse (genai.mkContent "model" [genai.TextPart "hihi"]) None
                        genai.FinishReasonStop false true
    = openai.finalResponse st
    ∧ openai.thoughtContent st = ""
    ∧ openai.textContent st = "hihi".
Proof.
  intros body.
  apply (X5_responses_terminal_text_is_the_streamed_text
           (rwire := fixtures.responsesWire) (helpers := fixtures.responsesHelpers)
           drain body
           [YResp (openai.partialResponse (genai.TextPart "hi"));
            YResp (openai.partialResponse (genai.TextPart "hi"))]).
  - reflexivity.
  - split; reflexivity.
Defined.

(** * Properties of the base-URL normalisation *)

Section url_properties.

Local Ltac append_step := unfold String.append; fold String.append.

Lemma HasSuffix_append (s suffix : string) : strings.HasSuffix (s +:+ suffix) suffix = true.
Proof.
  unfold strings.HasSuffix, strings.HasPrefix.
  by rewrite rev_append, CutPrefix_append.
Qed.

Lemma HasSuffix_inv (s suffix : string) :
  strings.HasSuffix s suffix = true → ∃ p, s = p +:+ suffix.
Proof.
  unfold strings.HasSuffix, strings.HasPrefix.
  destruct (strings.CutPrefix (String.rev s) (String.rev suffix)) as [r|] eqn:Hcut; [|done].
  intros _. apply CutPrefix_Some in Hcut. exists (String.rev r).
  rewrite <- (rev_involutive s), Hcut, rev_append. by rewrite rev_involutive.
Qed.

(** Trailing slashes do not matter to [TrimRight]. *)
Lemma TrimRight_slash (s : string) :
  strings.TrimRight (s +:+ "/") "/" = strings.TrimRight s "/".
Proof. unfold strings.TrimRight. rewrite rev_append. done. Qed.

(** A string ending in "/v1" has no trailing slash to trim or to cut. *)
Lemma TrimRight_v1 (p : string) :
  strings.TrimRight (p +:+ "/v1") "/" = p +:+ "/v1".
Proof.
  unfold strings.TrimRight. rewrite rev_append.
  replace (strings.TrimLeft (String.rev "/v1" +:+ String.rev p) "/")
    with (String.rev "/v1" +:+ String.rev p) by done.
  by rewrite <- rev_append, rev_involutive.
Qed.

Lemma TrimSuffix_v1 (p : string) :
  strings.TrimSuffix (p +:+ "/v1") "/" = p +:+ "/v1".
Proof.
  unfold strings.TrimSuffix. rewrite rev_append.
  change (String.rev "/v1") with "1v/". append_step.
  unfold strings.CutPrefix. simpl. done.
Qed.

Lemma append_v1_nonempty (p : string) : p +:+ "/v1" ≠ "".
Proof.
  intros H. apply (f_equal String.length) in H. rewrite append_length in H.
  simpl in H. lia.
Qed.

Lemma normalizeOpenAIBaseURL_v1 (baseURL : string) :
  ∃ p, factory.normalizeOpenAIBaseURL baseURL = p +:+ "/v1".
Proof.
  unfold factory.normalizeOpenAIBaseURL.
  destruct (decide (baseURL = "")); [by exists "https://api.openai.com"|].
  destruct (strings.HasSuffix (strings.TrimRight baseURL "/") "/v1") eqn:Hs.
  - by apply HasSuffix_inv in Hs.
  - by eexists.
Qed.

(** X7. [normalizeOpenAIBaseURL] always returns an address that ends in
    "/v1" and has no trailing slash; normalising twice is normalising once;
    and one more trailing slash after a non-empty address makes no
    difference. *)
Theorem X7_normalizeOpenAIBaseURL_canonical (baseURL : string) :
  let url := factory.normalizeOpenAIBaseURL baseURL in
  strings.HasSuffix url "/v1" = true
  ∧ strings.TrimRight url "/" = url
  ∧ factory.normalizeOpenAIBaseURL url = url
  ∧ ∀ c rest, factory.normalizeOpenAIBaseURL (String c rest +:+ "/")
              = factory.normalizeOpenAIBaseURL (String c rest).
Proof.
  simpl. destruct (normalizeOpenAIBaseURL_v1 baseURL) as [p Hp].
  split; [rewrite Hp; apply HasSuffix_append|].
  split; [rewrite Hp; apply TrimRight_v1|].
  split.
  - rewrite Hp. unfold factory.normalizeOpenAIBaseURL.
    rewrite decide_False by apply append_v1_nonempty.
    by rewrite TrimRight_v1, HasSuffix_append.
  - intros c rest. unfold factory.normalizeOpenAIBaseURL.
    rewrite TrimRight_slash. append_step.
    rewrite !decide_False by done. done.
Qed.

(** X8. The Responses model the factory creates posts to the normalised base
    address followed by "/responses", and the system-role probe is sent to
    the normalised base address followed by "/responses" or
    "/chat/completions": for a configuration that uses the Responses API the
    probe exercises the very address the model will use. *)
Theorem X8_probe_and_model_share_the_endpoint
    (config : factory.AIConfig) (noSystemRole : bool) :
  openai.responsesEndpoint (factory.createOpenAIResponsesModel config noSystemRole)
  = factory.normalizeOpenAIBaseURL (factory.BaseURL config) +:+ "/responses"
  ∧ factory.probeEndpoint config
    = factory.normalizeOpenAIBaseURL (factory.BaseURL config)
      +:+ (if factory.UseResponses config then "/responses" else "/chat/completions").
Proof.
  unfold openai.responsesEndpoint, factory.createOpenAIResponsesModel,
    openai.NewResponsesModel, factory.probeEndpoint. simpl.
  destruct (normalizeOpenAIBaseURL_v1 (factory.BaseURL config)) as [p ->].
  by rewrite TrimRight_v1, TrimSuffix_v1.
Qed.

End url_properties.

(** * More on the MCP manager *)

Section manager_more_properties.
Context {sdk : mcp.SDK}.
Import mcp.

Lemma LoadConfigs_from (cfgs : list MCPServerConfig) (id : string) :
  ∀ m : gmap string MCPServerConfig,
  foldl (λ m cfg, if cfg_Enabled cfg then <[cfg_ID cfg := cfg]> m else m) m cfgs !! id
  = match last (filter (λ c, cfg_Enabled c = true ∧ cfg_ID c = id) cfgs) with
    | Some c => Some c
    | None => m !! id
    end.
Proof.
  induction cfgs as [|c rest IH]; intros m; simpl; [done|].
  rewrite IH, filter_cons.
  destruct (decide (cfg_Enabled c = true ∧ cfg_ID c = id)) as [[He <-]|Hn].
  - rewrite last_cons, He, lookup_insert_eq.
    by destruct (last (filter _ rest)).
  - destruct (last (filter _ rest)); [done|].
    destruct (cfg_Enabled c) eqn:He; [|done].
    rewrite lookup_insert_ne; [done|]. intros Heq. apply Hn. done.
Qed.

(** X9. After [LoadConfigs] the manager knows, for each ID, the last enabled
    configuration of the list with that ID and nothing else: a disabled
    server is never loaded, the entries loaded before are forgotten, and of
    two enabled entries with one ID the later one wins. *)
Theorem X9_LoadConfigs_keeps_last_enabled
    (cfgs : list MCPServerConfig) (id : string) :
  configs (LoadConfigs cfgs) !! id
  = last (filter (λ c, cfg_Enabled c = true ∧ cfg_ID c = id) cfgs).
Proof.
  unfold LoadConfigs. simpl. rewrite LoadConfigs_from, lookup_empty.
  by destruct (last _).
Qed.

(** X10. [GetToolset] returns the toolset [GetToolsetsByIDs] returns for the
    one-element list of its argument, and none when the server is not loaded
    (unknown or disabled) or its toolset cannot be created. *)
Theorem X10_GetToolset_is_GetToolsetsByIDs_of_one (m : Manager) (serverID : string) :
  (GetToolsetsByIDs m [serverID]).1 = option_list (GetToolset m serverID).1
  ∧ (GetToolset m serverID).1
    = match configs m !! serverID with
      | Some cfg =>
          match mcptoolset_New (createTransport cfg) with
          | Ok inner => Some (NewPrefixedToolset inner (cfg_Name cfg))
          | Err _ => None
          end
      | None => None
      end.
Proof.
  unfold GetToolsetsByIDs, GetToolsetsByIDs_ranged, GetToolset, selectConfigs. simpl.
  unfold selectStep. simpl.
  destruct (configs m !! serverID) as [cfg|] eqn:Hcfg; simpl.
  - rewrite insert_empty, map_to_list_singleton. unfold createSelected. simpl.
    unfold createStep, createToolset. simpl.
    by destruct (mcptoolset_New (createTransport cfg)).
  - by rewrite map_to_list_empty.
Qed.

Lemma createAll_from (order : list (string * MCPServerConfig)) :
  ∀ acc : list prefixedToolset * list logLine,
  (foldl createAllStep acc (order.*2)).1 = acc.1 ++ omap createdToolset order.
Proof.
  induction order as [|[id cfg] order IH]; intros acc; simpl.
  - by rewrite app_nil_r.
  - rewrite IH. unfold createAllStep, createdToolset at 2. simpl.
    destruct (createToolset cfg); simpl; by rewrite <- ?app_assoc.
Qed.

(** X11. [GetAllToolsets] returns, up to the order in which [range] visits
    the map, what [GetToolsetsByIDs] returns for any list of ids that names
    every loaded server. *)
Theorem X11_GetAllToolsets_is_GetToolsetsByIDs_of_all
    (m : Manager) (ids : list string) (order1 order2 : list (string * MCPServerConfig)) :
  (map_to_list (configs m)).*1 ⊆ ids →
  order1 ≡ₚ map_to_list (configs m) →
  order2 ≡ₚ map_to_list (selectConfigs m ids).1 →
  (GetAllToolsets_ranged order1).1 ≡ₚ (GetToolsetsByIDs_ranged m ids order2).1.
Proof.
  intros Hsub H1 H2.
  assert ((selectConfigs m ids).1 = configs m) as Hsel.
  { apply map_eq. intros id. apply option_eq. intros cfg.
    rewrite selectConfigs_lookup. split; [by intros [_ ?]|]. intros Hcfg.
    split; [|done]. apply Hsub. apply list_elem_of_fmap. exists (id, cfg).
    split; [done|]. by apply elem_of_map_to_list. }
  unfold GetAllToolsets_ranged, GetToolsetsByIDs_ranged.
  rewrite createAll_from. simpl.
  destruct (selectConfigs m ids) as [sel warns]. simpl in *. subst sel.
  rewrite createSelected_spec. simpl. by rewrite H1, H2.
Qed.

Lemma GetAllStatus_from (order : list (string * MCPServerConfig)) :
  ∀ acc, foldl (λ result kv, result ++ [mkServerStatus kv.1 false ""]) acc order
         = acc ++ ((λ kv, mkServerStatus kv.1 false "") <$> order).
Proof.
  induction order as [|kv order IH]; intros acc; simpl.
  - by rewrite app_nil_r.
  - by rewrite IH, <- app_assoc.
Qed.

(** X12. [GetAllStatus] reports every loaded server exactly once, whatever
    the order in which [range] visits the map, and reports each of them as
    not connected with an empty error: it does not contact any server. *)
Theorem X12_GetAllStatus_lists_loaded_servers_as_not_connected
    (m : Manager) (order : list (string * MCPServerConfig)) :
  order ≡ₚ map_to_list (configs m) →
  NoDup (ss_ID <$> GetAllStatus_ranged order)
  ∧ (∀ id, id ∈ ss_ID <$> GetAllStatus_ranged order ↔ is_Some (configs m !! id))
  ∧ Forall (λ s, ss_Connected s = false ∧ ss_Error s = "") (GetAllStatus_ranged order).
Proof.
  intros Hperm. unfold GetAllStatus_ranged. rewrite GetAllStatus_from. simpl.
  rewrite <- list_fmap_compose.
  assert (ss_ID ∘ (λ kv : string * MCPServerConfig, mkServerStatus kv.1 false "")
          = fst) as -> by done.
  split; [|split].
  - rewrite Hperm. apply NoDup_fst_map_to_list.
  - intros id. rewrite Hperm, list_elem_of_fmap. split.
    + intros ([k cfg] & -> & Hin). apply elem_of_map_to_list in Hin. eauto.
    + intros [cfg Hcfg]. exists (id, cfg). split; [done|].
      by apply elem_of_map_to_list.
  - apply Forall_fmap, Forall_forall. done.
Qed.

End manager_more_properties.

(** The manager of the fixtures: the toolsets of all its servers. *)
Lemma X11_GetAllToolsets_is_GetToolsetsByIDs_of_all_witness :
  let m := fixtures.manager in
  let ids := (map_to_list (mcp.configs m)).*1 in
  (mcp.GetAllToolsets (sdk := fixtures.sdk) m).1
  ≡ₚ (mcp.GetToolsetsByIDs (sdk := fixtures.sdk) m ids).1.
Proof.
  intros m ids.
  apply (X11_GetAllToolsets_is_GetToolsetsByIDs_of_all (sdk := fixtures.sdk) m ids);
    reflexivity.
Defined.

(** The manager of the fixtures: its status list. *)
Lemma X12_GetAllStatus_lists_loaded_servers_as_not_connected_witness :
  let m := fixtures.manager in
  NoDup (mcp.ss_ID <$> mcp.GetAllStatus m)
  ∧ (∀ id, id ∈ mcp.ss_ID <$> mcp.GetAllStatus m ↔ is_Some (mcp.configs m !! id))
  ∧ Forall (λ s, mcp.ss_Connected s = false ∧ mcp.ss_Error s = "") (mcp.GetAllStatus m).
Proof.
  intros m.
  apply (X12_GetAllStatus_lists_loaded_servers_as_not_connected m). reflexivity.
Defined.

(** * Properties of [prefixedTool.ProcessRequest] *)

Section process_request_properties.
Import mcp.

(** X13. The first registration of a name wins: processing a tool whose
    prefixed name is already in the request, be it the same tool again or
    another tool that collides with it, leaves the request as it is. *)
Theorem X13_ProcessRequest_first_registration_wins
    (p q : prefixedTool) (req : toolRequest) :
  prefixedTool_Name q = prefixedTool_Name p →
  ProcessRequest q (ProcessRequest p req) = ProcessRequest p req.
Proof.
  intros Hname. unfold ProcessRequest at 1. rewrite Hname.
  assert (∃ tools x, rq_Tools (ProcessRequest p req) = Some tools
                     ∧ tools !! prefixedTool_Name p = Some x) as (tools & x & Ht & Hx).
  { unfold ProcessRequest.
    destruct (default ∅ (rq_Tools req) !! prefixedTool_Name p) as [x|] eqn:Hl.
    - eauto.
    - destruct (prefixedTool_Declaration p) as [decl|].
      + destruct (appendToFirstFunctionTool decl _); simpl;
          eexists _, _; (split; [done|]); apply lookup_insert_eq.
      + simpl. eexists _, _. split; [done|]. apply lookup_insert_eq. }
  rewrite Ht. simpl. rewrite Hx.
  destruct (ProcessRequest p req) as [t c]. simpl in *. by subst t.
Qed.

Lemma appendToFirstFunctionTool_names decl tools :
  match appendToFirstFunctionTool decl tools with
  | Some tools' => declarationsOf tools' ≡ₚ decl :: declarationsOf tools
  | None => declarationsOf tools = []
  end.
Proof.
  induction tools as [|[[[fds|]]|] rest IH]; simpl; [done|..].
  - rewrite <- app_assoc. simpl. by rewrite <- Permutation_middle.
  - destruct (appendToFirstFunctionTool decl rest); simpl; done.
  - destruct (appendToFirstFunctionTool decl rest); simpl; done.
Qed.

Lemma declarationsOf_app tools1 tools2 :
  declarationsOf (tools1 ++ tools2) = declarationsOf tools1 ++ declarationsOf tools2.
Proof. unfold declarationsOf. by rewrite flat_map_app. Qed.

(** What [ProcessRequest] does to the declared names: it adds the prefixed
    name once when the tool is new and has a declaration, else nothing. *)
Lemma ProcessRequest_declaredNames (p : prefixedTool) (req : toolRequest) :
  declaredNames (ProcessRequest p req)
  ≡ₚ (match registered req !! prefixedTool_Name p, prefixedTool_Declaration p with
      | None, Some _ => [prefixedTool_Name p]
      | _, _ => []
      end) ++ declaredNames req.
Proof.
  unfold ProcessRequest, registered, declaredNames.
  destruct (default ∅ (rq_Tools req) !! prefixedTool_Name p) as [x|] eqn:Hl; [done|].
  destruct (prefixedTool_Declaration p) as [decl|] eqn:Hd; [|done].
  apply prefixedTool_Declaration_Name in Hd. rewrite <- Hd.
  pose proof (appendToFirstFunctionTool_names decl (default [] (rq_Config req))) as Ha.
  destruct (appendToFirstFunctionTool decl (default [] (rq_Config req))); simpl.
  - by rewrite Ha.
  - rewrite declarationsOf_app, Ha. simpl. done.
Qed.

Lemma ProcessRequest_registered (p : prefixedTool) (req : toolRequest) (n : string) :
  is_Some (registered req !! n) ∨ n = prefixedTool_Name p
  ↔ is_Some (registered (ProcessRequest p req) !! n).
Proof.
  unfold ProcessRequest, registered.
  destruct (default ∅ (rq_Tools req) !! prefixedTool_Name p) as [x|] eqn:Hl.
  - simpl. split; [|auto]. intros [?| ->]; [done|]. by rewrite Hl.
  - assert (is_Some (default ∅ (rq_Tools req) !! n) ∨ n = prefixedTool_Name p
            ↔ is_Some (<[prefixedTool_Name p := RegisteredPrefixed p]>
                         (default ∅ (rq_Tools req)) !! n)) as Hins.
    { rewrite lookup_insert_is_Some. split.
      - intros [?| ->]; [|by left].
        destruct (decide (prefixedTool_Name p = n)); [by left|by right].
      - intros [?|[_ ?]]; auto. }
    destruct (prefixedTool_Declaration p) as [decl|]; [|done].
    by destruct (appendToFirstFunctionTool decl _).
Qed.

(** X14. [ProcessRequest] keeps a request well formed: if no function name
    is declared twice and every declared name is registered in [req.Tools],
    the same holds after any sequence of tools has been processed, whatever
    their names; a tool that collides with a registered name adds no second
    declaration. *)
Theorem X14_ProcessRequest_keeps_declarations_unique
    (ps : list prefixedTool) (req : toolRequest) :
  requestWF req →
  requestWF (foldl (λ r p, ProcessRequest p r) req ps).
Proof.
  revert req. induction ps as [|p ps IH]; intros req Hwf; simpl; [done|].
  apply IH. destruct Hwf as [Hnd Hreg]. unfold requestWF.
  rewrite (ProcessRequest_declaredNames p req).
  rewrite Forall_forall in Hreg.
  destruct (registered req !! prefixedTool_Name p) as [x|] eqn:Hl; simpl.
  - split; [done|]. apply Forall_forall. intros n Hn.
    apply ProcessRequest_registered. left. by apply Hreg.
  - destruct (prefixedTool_Declaration p) as [decl|]; simpl.
    + split.
      * constructor; [|done]. intros Hin. apply Hreg in Hin.
        rewrite Hl in Hin. by destruct Hin.
      * constructor; [apply ProcessRequest_registered; by right|].
        apply Forall_forall. intros n Hn.
        apply ProcessRequest_registered. left. by apply Hreg.
    + split; [done|]. apply Forall_forall. intros n Hn.
      apply ProcessRequest_registered. left. by apply Hreg.
Qed.

End process_request_properties.

(** Two different tools that both come out as [news:search]. *)
Lemma X13_ProcessRequest_first_registration_wins_witness :
  let p := mcp.mkPrefixedTool fixtures.searchTool "news" in
  let q := mcp.mkPrefixedTool (mcp.mkToolObj "search" "another search" false None) "news" in
  let req := mcp.mkToolRequest None None in
  mcp.ProcessRequest q (mcp.ProcessRequest p req) = mcp.ProcessRequest p req.
Proof.
  intros p q req. apply (X13_ProcessRequest_first_registration_wins p q req).
  reflexivity.
Defined.

(** The tools of two servers that share the label [news], processed into an
    empty request. *)
Lemma X14_ProcessRequest_keeps_declarations_unique_witness :
  let p := mcp.mkPrefixedTool fixtures.searchTool "news" in
  let q := mcp.mkPrefixedTool fixtures.quoteTool "news" in
  requestWF (foldl (λ r p, mcp.ProcessRequest p r) (mcp.mkToolRequest None None)
                   [p; q; p; q]).
Proof.
  intros p q.
  apply (X14_ProcessRequest_keeps_declarations_unique [p; q; p; q]).
  split; constructor.
Defined.

(** * Properties of the MCP server list operations of [app.go] *)

Section mcp_server_list_properties.
Import mcp.

Lemma LoadConfigs_lookup (cfgs : list MCPServerConfig) (id : string) :
  configs (LoadConfigs cfgs) !! id
  = last (filter (λ c, cfg_Enabled c = true ∧ cfg_ID c = id) cfgs).
Proof.
  unfold LoadConfigs. simpl. rewrite LoadConfigs_from, lookup_empty.
  by destruct (last _).
Qed.

Lemma filter_other_id (id : string) (l : list MCPServerConfig) :
  Forall (λ s, cfg_ID s ≠ id) l →
  filter (λ c, cfg_Enabled c = true ∧ cfg_ID c = id) l = [].
Proof.
  induction 1 as [|s l Hs _ IH]; [done|].
  rewrite filter_cons_False; [done|]. by intros [_ ?].
Qed.

Lemma updatedServers_split (servers : list MCPServerConfig) (server : MCPServerConfig) :
  (Forall (λ s, cfg_ID s ≠ cfg_ID server) servers
   ∧ app.updatedServers servers server = servers)
  ∨ ∃ l1 s l2, servers = l1 ++ s :: l2
               ∧ Forall (λ x, cfg_ID x ≠ cfg_ID server) l1
               ∧ cfg_ID s = cfg_ID server
               ∧ app.updatedServers servers server = l1 ++ server :: l2.
Proof.
  induction servers as [|s rest IH]; simpl; [by left|].
  destruct (decide (cfg_ID s = cfg_ID server)) as [Heq|Hne].
  - right. by exists [], s, rest.
  - destruct IH as [[Hall ->]|(l1 & s' & l2 & -> & Hall & Heq & ->)].
    + left. split; [by constructor|done].
    + right. exists (s :: l1), s', l2. split; [done|]. split; [by constructor|done].
Qed.

(** X15. After [DeleteMCPServer] has saved the list, no entry with the
    deleted ID is left in it, the manager no longer knows the ID, and what
    the manager knows about every other ID is what it knew before. *)
Theorem X15_DeleteMCPServer_forgets_only_the_deleted_id
    (servers : list MCPServerConfig) (id : string) :
  Forall (λ s, cfg_ID s ≠ id) (app.DeleteMCPServer servers id).1
  ∧ configs (app.DeleteMCPServer servers id).2 !! id = None
  ∧ ∀ j, j ≠ id →
         configs (app.DeleteMCPServer servers id).2 !! j
         = configs (LoadConfigs servers) !! j.
Proof.
  unfold app.DeleteMCPServer, app.deletedServers. cbn [fst snd].
  assert (Forall (λ s, cfg_ID s ≠ id) (filter (λ s, cfg_ID s ≠ id) servers)) as Hall.
  { apply Forall_forall. intros s Hs. by apply list_elem_of_filter in Hs as [? _]. }
  split; [done|]. split.
  - by rewrite LoadConfigs_lookup, filter_other_id.
  - intros j Hj. rewrite !LoadConfigs_lookup. f_equal.
    apply list_filter_filter_l. intros s [_ ->]. done.
Qed.

(** X16. [UpdateMCPServer] replaces the first entry with the server's ID and
    nothing else: when the list is [before ++ old :: after] with [old] the
    first entry that has the server's ID, the new list is
    [before ++ server :: after]; the list keeps its length, a server whose
    ID is not in the list changes nothing, and what the manager knows about
    other IDs is unchanged.  When the IDs of the list are distinct, the
    manager then knows the new entry under its ID if it is enabled, and does
    not know the ID if it is disabled. *)
Theorem X16_UpdateMCPServer_replaces_one_entry
    (servers : list MCPServerConfig) (server : MCPServerConfig) :
  (∀ before old after,
     servers = before ++ old :: after →
     Forall (λ s, cfg_ID s ≠ cfg_ID server) before →
     cfg_ID old = cfg_ID server →
     (app.UpdateMCPServer servers server).1 = before ++ server :: after)
  ∧ length (app.UpdateMCPServer servers server).1 = length servers
  ∧ (cfg_ID server ∉ cfg_ID <$> servers →
     (app.UpdateMCPServer servers server).1 = servers)
  ∧ (∀ j, j ≠ cfg_ID server →
          configs (app.UpdateMCPServer servers server).2 !! j
          = configs (LoadConfigs servers) !! j)
  ∧ (NoDup (cfg_ID <$> servers) → cfg_ID server ∈ cfg_ID <$> servers →
     configs (app.UpdateMCPServer servers server).2 !! cfg_ID server
     = if cfg_Enabled server then Some server else None).
Proof.
  unfold app.UpdateMCPServer. cbn [fst snd]. split.
  { intros before old after -> Hbefore Hold. clear -Hbefore Hold.
    induction Hbefore as [|s before Hs _ IH]; simpl.
    - by rewrite decide_True.
    - rewrite decide_False by done. by rewrite IH. }
  destruct (updatedServers_split servers server)
    as [[Hall ->]|(l1 & s & l2 & -> & Hall & Heq & ->)].
  { split; [done|]. split; [done|]. split; [done|].
    intros _ Hin. apply list_elem_of_fmap in Hin as (s & Hs & Hin).
    rewrite Forall_forall in Hall. by destruct (Hall _ Hin). }
  split; [by rewrite !length_app|]. split; [|split].
  - intros Hnot. exfalso. apply Hnot. rewrite fmap_app, fmap_cons, <- Heq.
    apply elem_of_app. right. by left.
  - intros j Hj. rewrite !LoadConfigs_lookup, !filter_app, !filter_cons.
    rewrite !decide_False; [done|intros [_ ?]; congruence|intros [_ ?]; congruence].
  - intros Hnd _. rewrite LoadConfigs_lookup, filter_app, filter_cons.
    rewrite fmap_app, fmap_cons in Hnd.
    apply NoDup_app in Hnd as (_ & _ & Hnd). apply NoDup_cons in Hnd as [Hnot _].
    rewrite (filter_other_id _ l1) by done.
    rewrite (filter_other_id _ l2).
    2: { apply Forall_forall. intros x Hx Hid. apply Hnot.
         apply list_elem_of_fmap. exists x. split; [congruence|done]. }
    simpl. destruct (cfg_Enabled server) eqn:He.
    + by rewrite decide_True.
    + rewrite decide_False; [done|]. by intros [? _].
Qed.

(** X17. [AddMCPServer] appends, whatever IDs the list already holds.  The
    manager then knows the new entry under its ID if it is enabled; a
    disabled new entry leaves what the manager knew under that ID, so an
    older enabled entry with the same ID stays in force; other IDs are
    unchanged. *)
Theorem X17_AddMCPServer_shadows_or_is_ignored
    (servers : list MCPServerConfig) (server : MCPServerConfig) :
  (app.AddMCPServer servers server).1 = servers ++ [server]
  ∧ configs (app.AddMCPServer servers server).2 !! cfg_ID server
    = (if cfg_Enabled server then Some server
       else configs (LoadConfigs servers) !! cfg_ID server)
  ∧ ∀ j, j ≠ cfg_ID server →
         configs (app.AddMCPServer servers server).2 !! j
         = configs (LoadConfigs servers) !! j.
Proof.
  unfold app.AddMCPServer, app.addedServers. cbn [fst snd]. split; [done|]. split.
  - rewrite !LoadConfigs_lookup, filter_app, last_app.
    rewrite filter_cons. destruct (cfg_Enabled server) eqn:He.
    + by rewrite decide_True.
    + rewrite decide_False; [done|]. by intros [? _].
  - intros j Hj. rewrite !LoadConfigs_lookup, filter_app, filter_cons.
    rewrite decide_False by (intros [_ ?]; congruence).
    by rewrite filter_nil, app_nil_r.
Qed.

End mcp_server_list_properties.

(** * Properties of the AI configuration lookup of [app.go] *)

Section ai_config_properties.
Import app.

Lemma firstDefault_elem (AIConfigs : list AIConfigEntry) (DefaultAIID : string) c :
  firstDefault AIConfigs DefaultAIID = Some c → c ∈ AIConfigs.
Proof.
  induction AIConfigs as [|x rest IH]; simpl; [done|].
  destruct (decide (aic_ID x = DefaultAIID)); [intros [= ->]; by left|].
  destruct (aic_IsDefault x); [intros [= ->]; by left|].
  intros H. right. by apply IH.
Qed.

Lemma firstWithID_spec (AIConfigs : list AIConfigEntry) (aiConfigID : string) :
  match firstWithID AIConfigs aiConfigID with
  | Some c => c ∈ AIConfigs ∧ aic_ID c = aiConfigID
  | None => aiConfigID ∉ aic_ID <$> AIConfigs
  end.
Proof.
  induction AIConfigs as [|x rest IH]; simpl; [apply not_elem_of_nil|].
  destruct (decide (aic_ID x = aiConfigID)) as [Heq|Hne]; [split; [by left|done]|].
  destruct (firstWithID rest aiConfigID) as [c|].
  - destruct IH. split; [by right|done].
  - by apply not_elem_of_cons.
Qed.

Lemma getDefaultAIConfig_elem (AIConfigs : list AIConfigEntry) (DefaultAIID : string) c :
  getDefaultAIConfig AIConfigs DefaultAIID = Some c → c ∈ AIConfigs.
Proof.
  unfold getDefaultAIConfig.
  destruct (firstDefault AIConfigs DefaultAIID) as [x|] eqn:Hf.
  - intros [= <-]. by apply firstDefault_elem in Hf.
  - destruct AIConfigs as [|x rest]; simpl; [done|]. intros [= <-]. by left.
Qed.

Lemma getDefaultAIConfig_None (AIConfigs : list AIConfigEntry) (DefaultAIID : string) :
  getDefaultAIConfig AIConfigs DefaultAIID = None ↔ AIConfigs = [].
Proof.
  unfold getDefaultAIConfig. split; [|by intros ->].
  destruct (firstDefault AIConfigs DefaultAIID); [done|].
  by destruct AIConfigs.
Qed.

(** X18. [getAIConfigByID] returns a configuration of the list whenever the
    list is not empty: the first one with the requested ID when the ID is
    not empty and occurs (the entry before which no entry has that ID), and
    otherwise what [getDefaultAIConfig] returns,
    so that an agent that names a deleted configuration falls back to the
    default.  It returns nil only when there is no configuration at all. *)
Theorem X18_getAIConfigByID_falls_back_to_default
    (AIConfigs : list AIConfigEntry) (DefaultAIID aiConfigID : string) :
  (getAIConfigByID AIConfigs DefaultAIID aiConfigID = None ↔ AIConfigs = [])
  ∧ (∀ c, getAIConfigByID AIConfigs DefaultAIID aiConfigID = Some c → c ∈ AIConfigs)
  ∧ (aiConfigID ≠ "" → aiConfigID ∈ aic_ID <$> AIConfigs →
     ∃ c, getAIConfigByID AIConfigs DefaultAIID aiConfigID = Some c
          ∧ aic_ID c = aiConfigID)
  ∧ (∀ before c after,
       aiConfigID ≠ "" →
       AIConfigs = before ++ c :: after →
       Forall (λ x, aic_ID x ≠ aiConfigID) before →
       aic_ID c = aiConfigID →
       getAIConfigByID AIConfigs DefaultAIID aiConfigID = Some c)
  ∧ (aiConfigID = "" ∨ aiConfigID ∉ aic_ID <$> AIConfigs →
     getAIConfigByID AIConfigs DefaultAIID aiConfigID
     = getDefaultAIConfig AIConfigs DefaultAIID).
Proof.
  assert (∀ before c after,
            aiConfigID ≠ "" → AIConfigs = before ++ c :: after →
            Forall (λ x, aic_ID x ≠ aiConfigID) before → aic_ID c = aiConfigID →
            getAIConfigByID AIConfigs DefaultAIID aiConfigID = Some c) as Hfirst.
  { intros before c after Hne -> Hbefore Hc. unfold getAIConfigByID.
    rewrite decide_True by done.
    replace (firstWithID (before ++ c :: after) aiConfigID) with (Some c); [done|].
    clear -Hbefore Hc. induction Hbefore as [|x before Hx _ IH]; simpl.
    - by rewrite decide_True.
    - by rewrite decide_False. }
  unfold getAIConfigByID.
  pose proof (firstWithID_spec AIConfigs aiConfigID) as Hid.
  destruct (decide (aiConfigID ≠ "")) as [Hne|He].
  - destruct (firstWithID AIConfigs aiConfigID) as [x|] eqn:Hfw.
    + destruct Hid as [Hin Hx]. split; [|split; [|split; [|split]]].
      * split; [done|]. intros ->. by apply elem_of_nil in Hin.
      * by intros c [= <-].
      * eauto.
      * intros before c after _ Heq Hb Hc.
        specialize (Hfirst before c after Hne Heq Hb Hc).
        unfold getAIConfigByID in Hfirst.
        by rewrite decide_True, Hfw in Hfirst by done.
      * intros [?|Hnot]; [done|]. exfalso. apply Hnot.
        apply list_elem_of_fmap. eauto.
    + split; [apply getDefaultAIConfig_None|].
      split; [apply getDefaultAIConfig_elem|]. split; [done|].
      split; [|done]. intros before c after _ -> _ Hc. exfalso. apply Hid.
      apply list_elem_of_fmap. exists c. split; [done|].
      apply elem_of_app. right. by left.
  - split; [apply getDefaultAIConfig_None|].
    split; [apply getDefaultAIConfig_elem|]. split; [done|]. split; [done|done].
Qed.

End ai_config_properties.

(** * More on the meeting cancellation registry *)

Section registry_invariant.
Import app.

Lemma pending_witness_keep (w : world) (g : nat) (c c' : call) (k : string) :
  calls w !! g = Some c →
  (pending (at_ c) = true → StockCode c = k →
   StockCode c' = k ∧ pending (at_ c') = true) →
  (∃ g0 c0, calls w !! g0 = Some c0 ∧ StockCode c0 = k ∧ pending (at_ c0) = true) →
  ∃ g0 c0, <[g := c']> (calls w) !! g0 = Some c0 ∧ StockCode c0 = k
           ∧ pending (at_ c0) = true.
Proof.
  intros Hg Hkeep (g0 & c0 & H0 & Hk & Hp).
  destruct (decide (g0 = g)) as [->|Hne].
  - rewrite Hg in H0. injection H0 as <-. destruct (Hkeep Hp Hk) as [Hk' Hp'].
    exists g, c'. split; [|done]. apply list_lookup_insert_eq.
    by apply lookup_lt_Some in Hg.
  - exists g0, c0. split; [|done]. by rewrite list_lookup_insert_ne.
Qed.

(** Every atomic action keeps the registry in order. *)
Lemma step_registryWF (w : world) (g : nat) : registryWF w → registryWF (step w g).
Proof.
  intros (Hreg & Hcan & Hinj). unfold step.
  destruct (calls w !! g) as [c|] eqn:Hg; [|done].
  destruct w as [a cs]. simpl in *. unfold stepCall, registryWF.
  destruct (at_ c) as [| |ctx|ctx| |] eqn:Hat.
  - (* AtEntry *)
    destruct (sessionFound c).
    + unfold cancelMeetingInternal.
      destruct (meetingCancels a !! StockCode c) as [cancel|] eqn:Hc; simpl.
      * split; [|split].
        -- intros k tok Hk. apply lookup_delete_Some in Hk as [Hne Hk].
           destruct (Hreg k tok Hk) as (Hlt & Hnc & Hw). split; [done|]. split.
           ++ intros [Heq%elem_of_singleton|?]%elem_of_union; [|done]. subst tok.
              apply Hne. by apply (Hinj _ _ cancel).
           ++ apply (pending_witness_keep (mkWorld a cs) g c); [done| |done].
              rewrite Hat. done.
        -- intros tok [Heq%elem_of_singleton|?]%elem_of_union; [|by apply Hcan].
           subst tok. by destruct (Hreg _ _ Hc).
        -- intros k k' tok [_ H1]%lookup_delete_Some [_ H2]%lookup_delete_Some.
           by apply (Hinj _ _ tok).
      * split; [|done]. intros k tok Hk.
        destruct (Hreg k tok Hk) as (Hlt & Hnc & Hw). split; [done|]. split; [done|].
        apply (pending_witness_keep (mkWorld a cs) g c); [done| |done].
        rewrite Hat. done.
    + simpl. split; [|done]. intros k tok Hk.
      destruct (Hreg k tok Hk) as (Hlt & Hnc & Hw). split; [done|]. split; [done|].
      apply (pending_witness_keep (mkWorld a cs) g c); [done| |done].
      rewrite Hat. done.
  - (* AtRegister *)
    simpl. split; [|split].
    + intros k tok Hk. apply lookup_insert_Some in Hk as [[<- <-]|[Hne Hk]].
      * split; [lia|]. split.
        -- intros Hin. apply Hcan in Hin. lia.
        -- exists g, (moveTo c (AtPrepare (nextToken a))). split; [|done].
           apply list_lookup_insert_eq. by apply lookup_lt_Some in Hg.
      * destruct (Hreg k tok Hk) as (Hlt & Hnc & Hw). split; [lia|]. split; [done|].
        apply (pending_witness_keep (mkWorld a cs) g c); [done| |done].
        rewrite Hat. done.
    + intros tok Hin. apply Hcan in Hin. lia.
    + intros k k' tok H1 H2.
      apply lookup_insert_Some in H1 as [[<- <-]|[Hne1 H1]];
        apply lookup_insert_Some in H2 as [[<- ?]|[Hne2 H2]]; try done.
      * destruct (Hreg _ _ H2) as [? _]. lia.
      * subst tok. destruct (Hreg _ _ H1) as [? _]. lia.
      * by apply (Hinj _ _ tok).
  - (* AtPrepare *)
    assert (registryWF (mkWorld a (<[g := moveTo c (if aiConfigFound c
                                                    then InMeeting ctx
                                                    else AtCleanup)]> cs))) as Hwf.
    { unfold registryWF. simpl. split; [|done]. intros k tok Hk.
      destruct (Hreg k tok Hk) as (Hlt & Hnc & Hw). split; [done|]. split; [done|].
      apply (pending_witness_keep (mkWorld a cs) g c); [done| |done].
      intros _ <-. by destruct (aiConfigFound c). }
    by destruct (aiConfigFound c).
  - (* InMeeting *)
    simpl. split; [|done]. intros k tok Hk.
    destruct (Hreg k tok Hk) as (Hlt & Hnc & Hw). split; [done|]. split; [done|].
    apply (pending_witness_keep (mkWorld a cs) g c); [done| |done]. done.
  - (* AtCleanup *)
    simpl. split; [|split].
    + intros k tok Hk. apply lookup_delete_Some in Hk as [Hne Hk].
      destruct (Hreg k tok Hk) as (Hlt & Hnc & Hw). split; [done|]. split; [done|].
      apply (pending_witness_keep (mkWorld a cs) g c); [done| |done].
      intros _ Heq. by destruct Hne.
    + done.
    + intros k k' tok [_ H1]%lookup_delete_Some [_ H2]%lookup_delete_Some.
      by apply (Hinj _ _ tok).
  - (* Returned *)
    simpl. rewrite list_insert_id by done. done.
Qed.

Lemma run_registryWF (schedule : list nat) :
  ∀ w, registryWF w → registryWF (run w schedule).
Proof.
  induction schedule as [|g rest IH]; intros w Hwf; [done|].
  simpl. by apply IH, step_registryWF.
Qed.

Lemma fresh_registryWF (calls0 : list call) : registryWF (mkWorld NewApp calls0).
Proof. split; [|split]; simpl; intros *; by rewrite ?lookup_empty. Qed.

End registry_invariant.

Section registry_properties.
Import app.

(** X19. No entry stays behind in the registry: whatever calls are made and
    however their atomic actions interleave, once every call of
    [SendMeetingMessage] has returned, [meetingCancels] is empty.  (The
    deferred cleanup only deletes the entry; it does not cancel the
    context.) *)
Theorem X19_registry_empty_when_all_calls_returned
    (calls0 : list call) (schedule : list nat) :
  let w := run (mkWorld NewApp calls0) schedule in
  Forall (λ c, at_ c = Returned) (calls w) →
  meetingCancels (theApp w) = ∅.
Proof.
  intros w Hall. apply map_empty. intros k.
  destruct (meetingCancels (theApp w) !! k) as [tok|] eqn:Hk; [|done].
  destruct (run_registryWF schedule _ (fresh_registryWF calls0)) as (Hreg & _ & _).
  destruct (Hreg k tok Hk) as (_ & _ & g & c & Hg & _ & Hp).
  rewrite Forall_forall in Hall.
  rewrite (Hall c) in Hp; [done|]. by apply list_elem_of_lookup_2 in Hg.
Qed.

(** X20. At every moment of every interleaving the registry is in order: a
    context registered in [meetingCancels] has not been cancelled, it is
    registered for one stock only, and some call for that stock is between
    registering its cancel function and its deferred cleanup. *)
Theorem X20_registered_contexts_are_live
    (calls0 : list call) (schedule : list nat) :
  registryWF (run (mkWorld NewApp calls0) schedule).
Proof. apply run_registryWF, fresh_registryWF. Qed.

End registry_properties.

(** Three queries for one stock, each run to its end, the second and third
    superseding the one before. *)
Lemma X19_registry_empty_when_all_calls_returned_witness :
  app.meetingCancels
    (app.theApp (app.run fixtures.threeQueries
                   [0; 0; 0; 1; 1; 1; 0; 0; 2; 2; 2; 2; 2; 1; 1]%nat)) = ∅.
Proof.
  apply (X19_registry_empty_when_all_calls_returned
           [app.newCall "600519"; app.newCall "600519"; app.newCall "600519"]
           [0; 0; 0; 1; 1; 1; 0; 0; 2; 2; 2; 2; 2; 1; 1]%nat).
  vm_compute. repeat constructor.
Defined.

(** * Properties of the expert agent builder *)

Section market_status_properties.
Import adk.

(** X21. The market status told to an agent is decided by the weekday and the
    minute of the day alone: closed on Saturday and Sunday; on the other
    days the morning session from 9:30 to 11:30 and the afternoon session
    from 13:00 to 15:00, both ends included, the lunch break strictly
    between 11:30 and 13:00, before the open before 9:30 and after the close
    after 15:00. *)
Theorem X21_marketStatus_by_weekday_and_minute
    (weekday : Weekday) (hour minute : Z) :
  let m := hour * 60 + minute in
  let weekend := weekday = Saturday ∨ weekday = Sunday in
  (marketStatus weekday hour minute = "休市（周末）" ↔ weekend)
  ∧ (marketStatus weekday hour minute = "盘中（上午交易时段）"
     ↔ ¬ weekend ∧ 570 ≤ m ≤ 690)
  ∧ (marketStatus weekday hour minute = "盘中（下午交易时段）"
     ↔ ¬ weekend ∧ 780 ≤ m ≤ 900)
  ∧ (marketStatus weekday hour minute = "盘前" ↔ ¬ weekend ∧ m < 570)
  ∧ (marketStatus weekday hour minute = "盘后" ↔ ¬ weekend ∧ 900 < m)
  ∧ (marketStatus weekday hour minute = "午间休市" ↔ ¬ weekend ∧ 690 < m < 780).
Proof.
  intros m weekend. unfold marketStatus. fold m.
  repeat case_bool_decide; subst weekend;
    repeat split; intros; try done; try lia; try tauto.
Qed.

End market_status_properties.

Section tools_description_properties.
Context (ToLower : string → string).
Context (GetToolInfosByNames : list string → list adk.ToolInfo).
Context {sdk : mcp.SDK}.
Import adk.

Lemma sectionLines_cons (sec : toolSection) (e : toolEntry) (es : list toolEntry) :
  sectionLines ToLower sec (e :: es)
  = (if decide (sectionOf ToLower e = sec) then [e.2] else [])
    ++ sectionLines ToLower sec es.
Proof. unfold sectionLines. rewrite filter_cons. by destruct (decide _). Qed.

Lemma classify_fold (es : list toolEntry) : ∀ acc : toolLists,
  foldl (λ lists e, classify ToLower lists e.1.1 e.1.2 e.2) acc es
  = mkToolLists (searchTools acc ++ sectionLines ToLower SearchSection es)
                (dataTools acc ++ sectionLines ToLower DataSection es)
                (otherTools acc ++ sectionLines ToLower OtherSection es).
Proof.
  induction es as [|e es IH]; intros acc.
  { destruct acc. unfold sectionLines. simpl. by rewrite !app_nil_r. }
  simpl. rewrite IH, !sectionLines_cons. unfold classify, sectionOf.
  destruct (isSearchTool ToLower e.1.1 e.1.2 searchKeywords);
    [|destruct (isDataTool ToLower e.1.1)]; simpl; by rewrite <- !app_assoc.
Qed.

Lemma sectionLines_partition (es : list toolEntry) :
  sectionLines ToLower SearchSection es ++ sectionLines ToLower DataSection es
    ++ sectionLines ToLower OtherSection es ≡ₚ snd <$> es.
Proof.
  induction es as [|e es IH]; [done|]. rewrite !sectionLines_cons, fmap_cons.
  destruct (sectionOf ToLower e); simpl.
  - by rewrite IH.
  - rewrite <- Permutation_middle. by rewrite IH.
  - rewrite <- !Permutation_middle. by rewrite IH.
Qed.

Lemma formatToolsInstruction_nonempty (lists : toolLists) :
  formatToolsInstruction lists ≠ "".
Proof.
  intros H. apply (f_equal String.length) in H.
  unfold formatToolsInstruction in H. rewrite !append_length in H.
  simpl in H. lia.
Qed.

(** X22. The tools description lists every tool once: a tool whose
    lower-cased name or description contains a search keyword goes to the
    search section, else a tool whose lower-cased name contains a data
    keyword goes to the data section, else the tool goes to the last
    section; within a section the built-in tools come first and the order
    of the inputs is kept.  The description is empty exactly when there is
    no tool to describe. *)
Theorem X22_tools_description_lists_each_tool_once
    (hasRegistry : bool) (Tools : list string)
    (mcpManager : option mcp.Manager) (MCPServers : list string) :
  let builtin := builtinInfos GetToolInfosByNames hasRegistry Tools in
  let mcpTools := mcpInfos mcpManager MCPServers in
  let entries := (builtinEntry <$> builtin) ++ (mcpEntry <$> mcpTools) in
  let lists := classifyAll ToLower builtin mcpTools in
  searchTools lists = sectionLines ToLower SearchSection entries
  ∧ dataTools lists = sectionLines ToLower DataSection entries
  ∧ otherTools lists = sectionLines ToLower OtherSection entries
  ∧ searchTools lists ++ dataTools lists ++ otherTools lists ≡ₚ snd <$> entries
  ∧ (buildToolsDescription ToLower GetToolInfosByNames hasRegistry Tools
       mcpManager MCPServers = "" ↔ entries = []).
Proof.
  intros builtin mcpTools entries lists.
  assert (lists = mkToolLists (sectionLines ToLower SearchSection entries)
                              (sectionLines ToLower DataSection entries)
                              (sectionLines ToLower OtherSection entries)) as Hlists.
  { transitivity (foldl (λ lists e, classify ToLower lists e.1.1 e.1.2 e.2)
                        (mkToolLists [] [] []) entries).
    - subst lists entries. unfold classifyAll. by rewrite foldl_app, !foldl_fmap.
    - by rewrite classify_fold. }
  pose proof (sectionLines_partition entries) as Hperm.
  rewrite Hlists. simpl. split; [done|]. split; [done|]. split; [done|].
  split; [done|].
  unfold buildToolsDescription. fold builtin mcpTools lists. rewrite Hlists. simpl.
  split.
  - intros Hd. repeat case_bool_decide; simpl in Hd;
      try (by apply formatToolsInstruction_nonempty in Hd).
    apply Permutation_length in Hperm. rewrite !length_app, length_fmap in Hperm.
    apply length_zero_iff_nil. etrans; [symmetry; exact Hperm|].
    repeat match goal with H : length _ = 0%nat |- _ => rewrite H; clear H end.
    done.
  - intros He. rewrite He. done.
Qed.

End tools_description_properties.

(** * More on the prefixed toolsets *)

Section prefixed_toolset_properties.
Context {sdk : mcp.SDK}.
Import mcp.

Lemma prefixedTool_Name_length (p : prefixedTool) :
  String.length (prefixedTool_Name p)
  = (String.length (pt_prefix p) + 1 + String.length (tool_Name (pt_inner p)))%nat.
Proof. unfold prefixedTool_Name. rewrite !append_length. simpl. lia. Qed.

(** X23. Wrapping a toolset keeps its tools: [Tools] returns one prefixed tool
    per inner tool, in the same order, each with the toolset's prefix; tools
    with distinct names get distinct prefixed names; and an error of the
    inner toolset is passed on unchanged. *)
Theorem X23_prefixedToolset_Tools_keeps_the_tools (p : prefixedToolset) :
  match toolset_Tools (pts_inner p) with
  | Ok tools =>
      ∃ wrapped, prefixedToolset_Tools p = Ok wrapped
                 ∧ pt_inner <$> wrapped = tools
                 ∧ Forall (λ t, pt_prefix t = pts_prefix p) wrapped
                 ∧ (NoDup (tool_Name <$> tools) → NoDup (prefixedTool_Name <$> wrapped))
  | Err err => prefixedToolset_Tools p = Err err
  end.
Proof.
  unfold prefixedToolset_Tools.
  destruct (toolset_Tools (pts_inner p)) as [tools|err]; [|done].
  eexists. split; [done|]. split; [|split].
  - rewrite <- list_fmap_compose. apply list_fmap_id.
  - apply Forall_fmap, Forall_forall. done.
  - intros Hnd. rewrite <- list_fmap_compose.
    assert ((prefixedTool_Name ∘ λ t, mkPrefixedTool t (pts_prefix p))
            = (λ n, pts_prefix p +:+ ":" +:+ n) ∘ tool_Name) as -> by done.
    rewrite list_fmap_compose. apply NoDup_fmap_2; [|done].
    intros n1 n2 Heq. by do 2 apply append_inj_l in Heq.
Qed.

(** X24. The tool descriptions and the callable tools of a server name a tool
    differently: [GetServerTools] reports the bare name of a tool together
    with the server's ID and label, while the tool of that name in the
    server's toolset is declared under the label, a colon and the name; the
    two names are never equal. *)
Theorem X24_described_name_is_not_the_callable_name
    (m : Manager) (n : nat) (serverID : string) (cfg : MCPServerConfig)
    (infos : list ToolInfo) (info : ToolInfo)
    (ts : prefixedToolset) (tools : list prefixedTool) (p : prefixedTool) :
  configs m !! serverID = Some cfg →
  GetServerTools m n serverID = Ok infos → info ∈ infos →
  createToolset cfg = Ok ts → prefixedToolset_Tools ts = Ok tools → p ∈ tools →
  tool_Name (pt_inner p) = ti_Name info →
  ti_ServerID info = serverID
  ∧ ti_ServerName info = cfg_Name cfg
  ∧ prefixedTool_Name p = ti_ServerName info +:+ ":" +:+ ti_Name info
  ∧ prefixedTool_Name p ≠ ti_Name info.
Proof.
  intros Hcfg Hget Hinfo Hts Htools Hp Hname.
  unfold GetServerTools in Hget. rewrite Hcfg in Hget.
  destruct (Connect_ListTools n (cfg_Name cfg) (createTransport cfg)) as [listed|];
    [|done].
  injection Hget as <-. apply list_elem_of_fmap in Hinfo as (t & -> & _). simpl in *.
  unfold createToolset in Hts.
  destruct (mcptoolset_New (createTransport cfg)) as [inner|]; [|done].
  injection Hts as <-. unfold prefixedToolset_Tools in Htools. simpl in Htools.
  destruct (toolset_Tools inner) as [ts|]; [|done]. injection Htools as <-.
  apply list_elem_of_fmap in Hp as (t' & -> & _). simpl in *.
  split; [done|]. split; [done|]. unfold prefixedTool_Name. simpl.
  split; [by rewrite Hname|].
  intros Heq. apply (f_equal String.length) in Heq.
  rewrite !append_length, Hname in Heq. simpl in Heq. lia.
Qed.

End prefixed_toolset_properties.

(** The server [s1] of the fixtures, labelled [news], and its tool [search]. *)
Lemma X24_described_name_is_not_the_callable_name_witness :
  let info := mcp.mkToolInfo "search" "web search" "s1" "news" in
  let p := mcp.mkPrefixedTool fixtures.searchTool "news" in
  mcp.ti_ServerID info = "s1"
  ∧ mcp.ti_ServerName info = "news"
  ∧ mcp.prefixedTool_Name p = "news:search"
  ∧ mcp.prefixedTool_Name p ≠ "search".
Proof.
  intros info p.
  apply (X24_described_name_is_not_the_callable_name (sdk := fixtures.sdk)
           fixtures.manager 0%nat "s1" (fixtures.server "s1" "news" "http://news")
           [info] info
           (mcp.NewPrefixedToolset
              (mcp.mkToolsetObj "mcp" (Ok [fixtures.searchTool; fixtures.quoteTool])) "news")
           [p; mcp.mkPrefixedTool fixtures.quoteTool "news"] p);
    first [reflexivity | apply list_elem_of_here].
Defined.

(** * Event lines and data lines *)

Section event_line_properties.
Context {json : JSON} {wire : anthropic.Wire}.
Context {rwire : openai.Wire} {helpers : openai.Helpers}.

Lemma data_line_prefixes (d : string) :
  strings.CutPrefix ("data: " +:+ d) "event: " = None
  ∧ strings.CutPrefix ("data: " +:+ d) "data: " = Some d.
Proof. split; [done|apply CutPrefix_append]. Qed.

Lemma openai_data_without_event (yield : consumer) (d : string) rest st out :
  openai.scanLoop yield (("data: " +:+ d) :: rest) "" st out
  = openai.scanLoop yield rest "" st out.
Proof.
  destruct (data_line_prefixes d) as [He Hd].
  cbn [openai.scanLoop]. rewrite He, Hd. by destruct (decide (d = "")).
Qed.

(** X25. Both stream processors tell what a data line means from the event
    line before it.  A data line that no event line precedes is ignored by
    both.  The Responses processor forgets the event name after one
    non-empty data line, so of two data lines under one event line the
    second is ignored. *)
Theorem X25_data_lines_need_an_event_line (yield : consumer) :
  (∀ d rest st out,
     anthropic.scanLoop yield (("data: " +:+ d) :: rest) "" st out
     = anthropic.scanLoop yield rest "" st out)
  ∧ (∀ d rest st out,
       openai.scanLoop yield (("data: " +:+ d) :: rest) "" st out
       = openai.scanLoop yield rest "" st out)
  ∧ (∀ eventType c d1 d2 rest cur st out,
       openai.scanLoop yield
         (("event: " +:+ eventType) :: ("data: " +:+ String c d1)
            :: ("data: " +:+ d2) :: rest) cur st out
       = openai.scanLoop yield
           (("event: " +:+ eventType) :: ("data: " +:+ String c d1) :: rest) cur st out).
Proof.
  split; [|split].
  - intros d rest st out. destruct (data_line_prefixes d) as [He Hd].
    cbn [anthropic.scanLoop]. rewrite He, Hd. unfold anthropic.handleSSEEvent.
    simpl. done.
  - intros. apply openai_data_without_event.
  - intros eventType c d1 d2 rest cur st out.
    destruct (data_line_prefixes (String c d1)) as [He Hd].
    cbn [openai.scanLoop]. rewrite CutPrefix_append, He, Hd.
    rewrite decide_False by done.
    destruct (decide (eventType = "response.output_text.delta")).
    { destruct (openai.handleTextDelta yield (String c d1) st out) as [[st1 out1] []];
        [apply openai_data_without_event|done]. }
    repeat (destruct (decide (eventType = _)); [apply openai_data_without_event|]).
    apply openai_data_without_event.
Qed.

End event_line_properties.

(** * Meetings for different stocks do not interfere *)

Section non_interference.
Import app.

Lemma stepCall_StockCode (a : App) (c : call) : StockCode (stepCall a c).2 = StockCode c.
Proof.
  unfold stepCall. destruct (at_ c); simpl; try done.
  - by destruct (sessionFound c).
  - by destruct (aiConfigFound c).
Qed.

(** What a call does to the registry entry of another stock: nothing. *)
Lemma stepCall_other_stock (a : App) (c : call) (code : string) :
  StockCode c ≠ code →
  meetingCancels (stepCall a c).1 !! code = meetingCancels a !! code.
Proof.
  intros Hne. unfold stepCall, cancelMeetingInternal.
  destruct (at_ c); simpl; try done.
  - destruct (sessionFound c); [|done].
    destruct (meetingCancels a !! StockCode c); [|done]. simpl.
    by rewrite lookup_delete_ne.
  - by rewrite lookup_insert_ne.
  - by destruct (aiConfigFound c).
  - by rewrite lookup_delete_ne.
Qed.

Lemma step_soleCallFor (w : world) (g g0 : nat) (code : string) :
  soleCallFor w g code → soleCallFor (step w g0) g code.
Proof.
  intros [Hothers Hown]. unfold step.
  destruct (calls w !! g0) as [c0|] eqn:H0; [|done].
  destruct (stepCall (theApp w) c0) as [a' c'] eqn:Hstep.
  assert (g0 < length (calls w))%nat as Hlt by (by apply lookup_lt_Some in H0).
  pose proof (stepCall_StockCode (theApp w) c0) as Hcode. rewrite Hstep in Hcode.
  simpl in Hcode. unfold soleCallFor. simpl. split.
  - intros g' c1 H1 Hne. destruct (decide (g' = g0)) as [->|Hg].
    + rewrite list_lookup_insert_eq in H1 by done. injection H1 as <-.
      rewrite Hcode. by apply (Hothers g0).
    + rewrite list_lookup_insert_ne in H1 by done. by apply (Hothers g').
  - intros c1 H1. destruct (decide (g = g0)) as [->|Hg].
    + rewrite list_lookup_insert_eq in H1 by done. injection H1 as <-.
      destruct (Hown c0 H0) as [Hc Hctx]. split; [congruence|].
      intros ctx Hat. revert Hstep Hat. unfold stepCall.
      destruct (at_ c0) as [| |ctx0|ctx0| |] eqn:Hat0.
      * destruct (sessionFound c0); intros [= <- <-]; simpl; by intros [?|?].
      * intros [= <- <-]. simpl. intros [[= <-]|?]; [|done].
        rewrite Hc. apply lookup_insert_eq.
      * destruct (aiConfigFound c0); intros [= <- <-]; simpl.
        -- intros [?|[= <-]]; [done|]. apply Hctx. by left.
        -- by intros [?|?].
      * intros [= <- <-]. simpl. by intros [?|?].
      * intros [= <- <-]. simpl. by intros [?|?].
      * intros [= <- <-]. intros Hat. apply Hctx. by rewrite Hat0 in Hat.
    + rewrite list_lookup_insert_ne in H1 by done.
      destruct (Hown c1 H1) as [Hc Hctx]. split; [done|].
      intros ctx Hat. pose proof (stepCall_other_stock (theApp w) c0 code) as Hsame.
      rewrite Hstep in Hsame. simpl in Hsame. rewrite Hsame; [by apply Hctx|].
      by apply (Hothers g0).
Qed.

Lemma run_soleCallFor (schedule : list nat) (g : nat) (code : string) :
  ∀ w, soleCallFor w g code → soleCallFor (run w schedule) g code.
Proof.
  induction schedule as [|g0 rest IH]; intros w Hw; [done|].
  simpl. by apply IH, step_soleCallFor.
Qed.

(** X26. Queries for other stocks never cancel a meeting: if call [g] is the
    only call for its stock, then in every interleaving with the other
    calls, whenever [g] is running its meeting, the context it runs under
    has not been cancelled. *)
Theorem X26_meeting_not_cancelled_by_other_stocks
    (calls0 : list call) (schedule : list nat) (g : nat) (c0 : call) :
  calls0 !! g = Some c0 →
  at_ c0 = AtEntry →
  (∀ g' c', calls0 !! g' = Some c' → g' ≠ g → StockCode c' ≠ StockCode c0) →
  ∀ c ctx, calls (run (mkWorld NewApp calls0) schedule) !! g = Some c →
           at_ c = InMeeting ctx →
           runsUncancelled (run (mkWorld NewApp calls0) schedule) g.
Proof.
  intros H0 Hat0 Hothers c ctx Hc Hat.
  assert (soleCallFor (mkWorld NewApp calls0) g (StockCode c0)) as Hsole.
  { split; [done|]. simpl. intros c1 H1. rewrite H0 in H1. injection H1 as <-.
    split; [done|]. rewrite Hat0. by intros ctx' [?|?]. }
  apply (run_soleCallFor schedule) in Hsole as [_ Hown].
  destruct (Hown c Hc) as [_ Hctx]. specialize (Hctx ctx ltac:(by right)).
  destruct (run_registryWF schedule _ (fresh_registryWF calls0)) as (Hreg & _ & _).
  destruct (Hreg _ _ Hctx) as (_ & Hlive & _).
  exists c, ctx. done.
Qed.

End non_interference.

(** A query for one stock in its meeting while a query for another stock
    arrives, runs and returns. *)
Lemma X26_meeting_not_cancelled_by_other_stocks_witness :
  app.runsUncancelled
    (app.run (app.mkWorld app.NewApp [app.newCall "600519"; app.newCall "000001"])
             [0; 0; 0; 1; 1; 1; 1; 1]%nat) 0.
Proof.
  apply (X26_meeting_not_cancelled_by_other_stocks
           [app.newCall "600519"; app.newCall "000001"]
           [0; 0; 0; 1; 1; 1; 1; 1]%nat 0 (app.newCall "600519") eq_refl eq_refl)
    with (c := app.mkCall "600519" true true (app.InMeeting 0%nat)) (ctx := 0%nat).
  - intros [|[|g']] c' Hc' Hne; [done| |done]. injection Hc' as <-. discriminate.
  - reflexivity.
  - reflexivity.
Defined.

(** * What is streamed as an increment *)

Section increment_properties.
Context {json : JSON} {wire : anthropic.Wire}.
Context {rwire : openai.Wire} {helpers : openai.Helpers}.

Lemma partialIsText_snoc (nonEmpty : bool) (out : list yielded) (y : yielded) :
  Forall (partialIsText nonEmpty) out → partialIsText nonEmpty y →
  Forall (partialIsText nonEmpty) (out ++ [y]).
Proof. intros. apply Forall_app. by repeat constructor. Qed.

Lemma anthropic_handleDelta_increments yield data blocks out :
  Forall (partialIsText false) out →
  Forall (partialIsText false) (anthropic.handleDelta yield data blocks out).1.2.
Proof.
  intros Hout. unfold anthropic.handleDelta, anthropic.yieldPartial.
  destruct (anthropic.Unmarshal_SSEContentBlockDelta data) as [ev|]; [|done].
  destruct (blocks !! anthropic.cbd_Index ev); [|done].
  repeat (destruct (decide _)); simpl; try done;
    apply partialIsText_snoc; try done; intros _; eexists _, _; by split.
Qed.

Lemma anthropic_handleSSEEvent_increments yield eventType data st out :
  Forall (partialIsText false) out →
  Forall (partialIsText false) (anthropic.handleSSEEvent yield eventType data st out).1.2.
Proof.
  intros Hout. unfold anthropic.handleSSEEvent.
  destruct (decide (eventType = "message_start")).
  { by destruct (anthropic.Unmarshal_SSEMessageStart data). }
  destruct (decide (eventType = "content_block_start")).
  { by destruct (anthropic.Unmarshal_SSEContentBlockStart data). }
  destruct (decide (eventType = "content_block_delta")).
  { pose proof (anthropic_handleDelta_increments yield data (anthropic.blocks st) out Hout).
    by destruct (anthropic.handleDelta yield data (anthropic.blocks st) out) as [[b o] x]. }
  destruct (decide (eventType = "content_block_stop")); [done|].
  destruct (decide (eventType = "message_delta")).
  { by destruct (anthropic.Unmarshal_SSEMessageDelta data). }
  destruct (decide (eventType = "message_stop")); [done|].
  destruct (decide (eventType = "error")); [|done].
  by destruct (anthropic.Unmarshal_SSEError data).
Qed.

Lemma anthropic_scanLoop_increments yield lines : ∀ eventType st out,
  Forall (partialIsText false) out →
  match anthropic.scanLoop yield lines eventType st out with
  | inl out' => Forall (partialIsText false) out'
  | inr (_, out') => Forall (partialIsText false) out'
  end.
Proof.
  induction lines as [|line rest IH]; intros eventType st out Hout; simpl; [done|].
  destruct (strings.CutPrefix line "event: ") as [ev|]; [by apply IH|].
  destruct (strings.CutPrefix line "data: ") as [data|]; [|by apply IH].
  pose proof (anthropic_handleSSEEvent_increments yield eventType data st out Hout) as Hev.
  destruct (anthropic.handleSSEEvent yield eventType data st out) as [[st1 out1] [err|]];
    simpl in Hev; [|by apply IH].
  destruct (errors_Is_Stop err); [done|]. by apply partialIsText_snoc.
Qed.

Lemma openai_emitTextSegments_increments yield segments : ∀ st out,
  Forall (partialIsText true) out →
  Forall (partialIsText true) (openai.emitTextSegments yield segments st out).1.2.
Proof.
  induction segments as [|seg rest IH]; intros st out Hout; simpl; [done|].
  destruct (decide (openai.seg_Text seg = "")) as [|Hne]; [by apply IH|].
  assert (Forall (partialIsText true)
            (out ++ [YResp (openai.partialResponse
                              (genai.mkPart (openai.seg_Text seg) (openai.seg_Thought seg)
                                            None None))])) as Hout'.
  { apply partialIsText_snoc; [done|]. intros _. eexists _, _. by split. }
  destruct (yield _); [by apply IH|done].
Qed.

Lemma openai_scanLoop_increments yield lines : ∀ currentEventType st out,
  Forall (partialIsText true) out →
  match openai.scanLoop yield lines currentEventType st out with
  | inl out' => Forall (partialIsText true) out'
  | inr (_, out') => Forall (partialIsText true) out'
  end.
Proof.
  induction lines as [|line rest IH]; intros cur st out Hout; simpl; [done|].
  destruct (strings.CutPrefix line "event: ") as [ev|]; [by apply IH|].
  destruct (strings.CutPrefix line "data: ") as [data|]; [|by apply IH].
  destruct (decide (data = "")); [by apply IH|].
  destruct (decide (cur = "response.output_text.delta")).
  { assert (Forall (partialIsText true) (openai.handleTextDelta yield data st out).1.2) as Ht.
    { unfold openai.handleTextDelta.
      destruct (openai.Unmarshal_TextDelta data) as [delta|]; [|done].
      destruct (openai.Feed (openai.thinkParser st) delta) as [p segs].
      by apply openai_emitTextSegments_increments. }
    destruct (openai.handleTextDelta yield data st out) as [[st1 out1] []];
      [by apply IH|done]. }
  repeat (destruct (decide (cur = _)); [by apply IH|]). by apply IH.
Qed.

(** X27. Tool calls are never streamed as increments.  Every element of a
    streamed sequence that is flagged partial carries exactly one text or
    thought part and no function call, with both adapters; the increments
    of the Responses adapter are never empty.  Function calls reach the
    consumer in the terminal aggregate only. *)
Theorem X27_increments_are_single_text_parts (yield : consumer) (body : HTTPResponse) :
  Forall (partialIsText false) (anthropic.processStream yield body)
  ∧ Forall (partialIsText true) (openai.processResponsesStream yield body).
Proof.
  split.
  - unfold anthropic.processStream.
    pose proof (anthropic_scanLoop_increments yield (body_Lines body) ""
                  anthropic.initialState [] ltac:(constructor)) as Hscan.
    destruct (anthropic.scanLoop yield (body_Lines body) "" anthropic.initialState [])
      as [out|[st out]]; [done|].
    destruct (body_ScanErr body) as [err|].
    + destruct (errors_Is_Canceled err); simpl; [done|]. by apply partialIsText_snoc.
    + apply partialIsText_snoc; [done|]. simpl. done.
  - unfold openai.processResponsesStream.
    pose proof (openai_scanLoop_increments yield (body_Lines body) ""
                  openai.initialState [] ltac:(constructor)) as Hscan.
    destruct (openai.scanLoop yield (body_Lines body) "" openai.initialState [])
      as [out|[st out]]; [done|].
    destruct (body_ScanErr body) as [err|]; [by apply partialIsText_snoc|].
    pose proof (openai_emitTextSegments_increments yield
                  (openai.Flush (openai.thinkParser st)) st out Hscan) as Hflush.
    destruct (openai.emitTextSegments yield (openai.Flush (openai.thinkParser st)) st out)
      as [[st1 out1] []]; simpl in Hflush; [|done].
    apply partialIsText_snoc; [done|]. simpl. done.
Qed.

End increment_properties.
